(** * Outfit generator: retry policy, tiered caches and the generation hook

    A shallow embedding of the request-shaping core of the outfit generator:
    - [services/outfitGenerator.ts]: [isQuotaError], [getRetryMsFromError],
      the three [generate*Internal] functions with their retry loop and
      their process-wide memory caches;
    - [lib/supabase.ts]: [getCachedComposite], [saveCachedComposite],
      [saveGeneratedOutfit], [uploadImage];
    - [hooks/useOutfitGeneration.ts]: the three hook operations with the
      in-flight flag, the session cache and the rate limiter calls.

    How the code is read:
    - a caught [err: any] is JSON-like data ([Js.JsVal]); optional chaining,
      [||], truthiness and string coercion follow JavaScript;
    - async functions are state-passing functions over a [World] that may
      throw ([M]); [try]/[catch]/[finally] are combinators;
    - remote services (the generative API, the relational store, blob
      storage, [fetch], [atob], the local image composer) are oracles of an
      environment [Env], one per operation; everything an operation does
      to the outside is appended to the world's trace;
    - each hook operation is split at its first [await] into a synchronous
      prefix and a continuation; [Stepwise] writes the continuations await
      by await, so that a call arriving between any two awaits of a
      running operation can be expressed;
    - strings are sequences of code units, one [ascii] each. *)

From Stdlib Require Import ZArith Lia Ascii.
From Stdlib Require Import Numbers.DecimalString.
From Stdlib Require Numbers.DecimalZ.
From stdpp Require Import gmap strings list fin_maps.

Local Open Scope Z_scope.
Set Warnings "-register-all".

(* ===================================================================== *)
(** ** JavaScript values as far as the error probing needs them *)
(* ===================================================================== *)

Module Js.

(** The shape of a caught [err: any]: JSON-like data.  Numbers are the
    integers; an object is its list of fields, looked up first-match. *)
Inductive JsVal : Type :=
| JUndefined
| JNull
| JBool (b : bool)
| JNum (n : Z)
| JStr (s : string)
| JArr (items : list JsVal)
| JObj (fields : list (string * JsVal)).

(** JavaScript truthiness. *)
Definition truthy (v : JsVal) : bool :=
  match v with
  | JUndefined | JNull => false
  | JBool b => b
  | JNum n => negb (n =? 0)
  | JStr s => negb (String.eqb s "")
  | JArr _ | JObj _ => true
  end.

Fixpoint assoc (k : string) (fs : list (string * JsVal)) : JsVal :=
  match fs with
  | [] => JUndefined
  | (k', v) :: fs' => if String.eqb k k' then v else assoc k fs'
  end.

(** [v?.k] for the property names the code reads ([error], [code],
    [status], [statusMessage], [details], [message], [retryDelay],
    ["@type"]): none of them exists on a primitive or on an array. *)
Definition get (v : JsVal) (k : string) : JsVal :=
  match v with
  | JObj fs => assoc k fs
  | _ => JUndefined
  end.

(** [a || b] *)
Definition or (a b : JsVal) : JsVal := if truthy a then a else b.

(** [v === n] for a number literal and [v === s] for a string literal. *)
Definition strict_eq_num (v : JsVal) (n : Z) : bool :=
  match v with JNum m => m =? n | _ => false end.

Definition strict_eq_str (v : JsVal) (s : string) : bool :=
  match v with JStr t => String.eqb t s | _ => false end.

(** [hay.includes(needle)] on strings. *)
Fixpoint includes (needle hay : string) : bool :=
  String.prefix needle hay
  || match hay with
     | EmptyString => false
     | String _ rest => includes needle rest
     end.

Definition Z_to_string (z : Z) : string :=
  NilEmpty.string_of_int (Z.to_int z).

Definition join_comma (parts : list string) : string :=
  match parts with
  | [] => ""
  | p :: ps => fold_left (fun acc q => acc +:+ "," +:+ q) ps p
  end.

(** [String(v)], the coercion [RegExp.prototype.exec] applies to its
    argument.  An array prints as its elements joined by commas, with
    [null] and [undefined] elements printed empty.  Integers print in
    decimal (JavaScript switches to exponent notation from 1e21 on). *)
Fixpoint to_string (v : JsVal) : string :=
  match v with
  | JUndefined => "undefined"
  | JNull => "null"
  | JBool true => "true"
  | JBool false => "false"
  | JNum n => Z_to_string n
  | JStr s => s
  | JArr items =>
      join_comma
        (map (fun x => match x with
                       | JUndefined | JNull => ""
                       | _ => to_string x
                       end) items)
  | JObj _ => "[object Object]"
  end.

End Js.
Import Js.

(* ===================================================================== *)
(** ** Quota classification and the retry hint *)
(* ===================================================================== *)

(** [isQuotaError(err)] *)
Definition isQuotaError (err : JsVal) : bool :=
  let code :=
    Js.or (Js.or (get (get err "error") "code") (get err "status"))
          (get err "code") in
  if strict_eq_num code 429 then true
  else
    let status :=
      Js.or (get (get err "error") "status") (get err "statusMessage") in
    strict_eq_str status "RESOURCE_EXHAUSTED".

(** How a block of statements ends. *)
Inductive Completion (A : Type) : Type :=
| Normal (a : A)
| Throws.
Arguments Normal {A} a.
Arguments Throws {A}.

(** The callback of [details.find]: [d["@type"]?.includes("RetryInfo")].
    Reading a property of [null] or [undefined] throws; [includes] exists
    on strings (substring) and arrays (membership) only, so calling it on
    anything else throws as well. *)
Definition is_retry_info (d : JsVal) : Completion bool :=
  match d with
  | JUndefined | JNull => Throws
  | _ =>
      match get d "@type" with
      | JUndefined | JNull => Normal false
      | JStr s => Normal (includes "RetryInfo" s)
      | JArr items =>
          Normal (existsb (fun x => strict_eq_str x "RetryInfo") items)
      | JBool _ | JNum _ | JObj _ => Throws
      end
  end.

(** [items.find(cb)]: the first element the callback accepts, [undefined]
    when there is none; an exception of the callback ends the search. *)
Fixpoint array_find (items : list JsVal) : Completion JsVal :=
  match items with
  | [] => Normal JUndefined
  | d :: rest =>
      match is_retry_info d with
      | Throws => Throws
      | Normal true => Normal d
      | Normal false => array_find rest
      end
  end.

(** [(err?.error?.details || []).find(...)]: only an array has [find]. *)
Definition find_retry_detail (err : JsVal) : Completion JsVal :=
  match Js.or (get (get err "error") "details") (JArr []) with
  | JArr items => array_find items
  | _ => Throws
  end.

Definition is_digit (c : ascii) : bool :=
  let n := Ascii.N_of_ascii c in ((48 <=? n) && (n <=? 57))%N.

(** Longest prefix of decimal digits, and what follows it. *)
Fixpoint span_digits (s : string) : string * string :=
  match s with
  | EmptyString => (EmptyString, EmptyString)
  | String c rest =>
      if is_digit c
      then let '(ds, tl) := span_digits rest in (String c ds, tl)
      else (EmptyString, s)
  end.

(** [/^(\d+)(?:\.(\d+))?s$/.exec(s)]: the two capture groups.  After the
    digits of a group only a non-digit can follow, so the greedy match is
    the only one. *)
Definition exec_retry_regex (s : string) : option (string * option string) :=
  let '(sec, rest) := span_digits s in
  if String.eqb sec "" then None
  else
    match rest with
    | String "s" EmptyString => Some (sec, None)
    | String "." rest' =>
        let '(frac, tl) := span_digits rest' in
        if String.eqb frac "" then None
        else if String.eqb tl "s" then Some (sec, Some frac)
        else None
    | _ => None
    end.

(** [parseInt(s, 10)] on a string of decimal digits: the integer the
    digits denote.  The code holds it in a double, which is this integer
    as long as it is below 2^53; statements about the value of a hint are
    made within that range ([exact_in_double]). *)
Definition parseInt_digits (s : string) : Z :=
  fold_left
    (fun acc c => 10 * acc + (Z.of_N (Ascii.N_of_ascii c) - 48))
    (String.list_ascii_of_string s) 0.

(** The integers a double holds exactly, as far as the code computes with
    them: sums and products of such integers that stay in the range are
    exact too. *)
Definition exact_in_double (n : Z) : Prop := 0 <= n < 2 ^ 53.

(** [s.slice(0, 3).padEnd(3, "0")] *)
Definition slice3_padEnd (s : string) : string :=
  let t := String.substring 0 3 s in
  t +:+ String.string_of_list_ascii
          (repeat "0"%char (3 - String.length t)%nat).

(** The body of the [try] block of [getRetryMsFromError]: [Normal (Some ms)]
    is the [return] inside it, [Normal None] falls through to the end. *)
Definition getRetryMs_try (err : JsVal) : Completion (option Z) :=
  match find_retry_detail err with
  | Throws => Throws
  | Normal retry =>
      let retryDelay := get retry "retryDelay" in
      if truthy retryDelay then
        match exec_retry_regex (to_string retryDelay) with
        | Some (m1, m2) =>
            let sec := parseInt_digits m1 in
            let frac :=
              match m2 with
              | Some f => parseInt_digits (slice3_padEnd f)
              | None => 0
              end in
            Normal (Some (sec * 1000 + frac))
        | None => Normal None
        end
      else Normal None
  end.

(** [getRetryMsFromError(err, fallbackMs)]: the [catch {}] swallows every
    exception of the body, so the function always returns a number.
    Milliseconds are integers here; JavaScript computes them in doubles,
    which agree as long as the seconds stay below 2^53 / 1000. *)
Definition getRetryMsFromError (err : JsVal) (fallbackMs : Z) : Z :=
  match getRetryMs_try err with
  | Normal (Some ms) => ms
  | Normal None | Throws => fallbackMs
  end.

Definition retry_info_error (delay : JsVal) : JsVal :=
  JObj [("error",
         JObj [("code", JNum 429);
               ("status", JStr "RESOURCE_EXHAUSTED");
               ("details",
                JArr [JObj [("@type", JStr "type.googleapis.com/google.rpc.QuotaFailure")];
                      JObj [("@type", JStr "type.googleapis.com/google.rpc.RetryInfo");
                            ("retryDelay", delay)]])])].

(* ===================================================================== *)
(** ** Data model *)
(* ===================================================================== *)

(** [OutfitGenerationResult]; the local composer's result has the same
    three fields. *)
Record OutfitGenerationResult : Type := {
  success : bool;
  imageUrl : option string;
  error : option string }.

Definition result_ok (u : string) : OutfitGenerationResult :=
  {| success := true; imageUrl := Some u; error := None |}.

Definition result_fail (msg : string) : OutfitGenerationResult :=
  {| success := false; imageUrl := None; error := Some msg |}.

(** Truthiness of an optional string ([undefined] and [""] are falsy). *)
Definition str_truthy (s : string) : bool := negb (String.eqb s "").

Definition opt_truthy (o : option string) : bool :=
  match o with Some s => str_truthy s | None => false end.

(** [o || dflt] on an optional string. *)
Definition or_default (o : option string) (dflt : string) : string :=
  match o with
  | Some s => if str_truthy s then s else dflt
  | None => dflt
  end.

Record ClothingItem : Type := { id : string; name : string; itemUrl : string }.

Record File : Type := { file_name : string; file_size : Z }.

(** An entry of the hook's session cache. *)
Record CacheEntry : Type := { url : string; isComposite : bool }.

(** A content part of the remote response: [inlineData?.data] and [text]. *)
Record Part : Type := { inlineData : option string; text : option string }.

Inductive RemoteOutcome : Type :=
| Resolves (parts : list Part)   (* [resp.candidates?.[0]?.content?.parts || []] *)
| Rejects (err : JsVal).

Inductive Bucket : Type := CLOTHING | GENERATED.

Definition STORAGE_BUCKETS (b : Bucket) : string :=
  match b with CLOTHING => "clothing-images" | GENERATED => "generated-outfits" end.

(** What the operations do to the outside, in order.  [console.log]
    messages are left out; warnings and errors are kept. *)
Inductive Event : Type :=
| EvConsoleWarn (msg : string)
| EvConsoleError (msg : string)
| EvCanMakeCall
| EvRecordCall
| EvDbSelect (topId bottomId : string)
| EvFetch (path : string)
| EvGenerateContent (attempt : nat)
| EvSleep (ms : Z)
| EvStorageUpload (bucketName fileName : string)
| EvDbUpsert (topId bottomId generatedImageUrl : string)
| EvDbInsert (generatedImageUrl generatorSource : string)
| EvCreateComposite (topUrl bottomUrl : string)
| EvCreateObjectURL (objectUrl : string)
| EvRevokeObjectURL (objectUrl : string).

(* ===================================================================== *)
(** ** The rate limiter *)
(* ===================================================================== *)

Module RateLimiter.

Record Config : Type := { cooldownMs : Z; maxCalls : Z; windowMs : Z }.

(** [RateLimitResult] *)
Record Result : Type := {
  allowed : bool;
  reason : option string;
  waitTime : option Z }.

(** Modelled from the spec: [services/rateLimiter.ts] is not among the
    sources; the state is the ordered sequence of accepted-call timestamps
    (oldest first) and the configuration, as the spec's RateLimiter has
    them. *)
Record t : Type := { history : list Z; config : Config }.

Definition allow : Result :=
  {| allowed := true; reason := None; waitTime := None |}.

Definition deny (why : string) (wait : Z) : Result :=
  {| allowed := false; reason := Some why; waitTime := Some wait |}.

(** Modelled from the spec: [canMakeCall], side-effect-free; cooldown
    against the most recent accepted call first, then the count of calls
    within the trailing window against [maxCalls]. *)
Definition canMakeCall (now : Z) (rl : t) : Result :=
  let c := config rl in
  let cooling :=
    match last (history rl) with
    | Some recent => now - recent <? cooldownMs c
    | None => false
    end in
  if cooling then
    deny "cooldown" (cooldownMs c - (now - default now (last (history rl))))
  else
    let inWindow := filter (fun t0 => now - t0 < windowMs c) (history rl) in
    if maxCalls c <=? Z.of_nat (length inWindow) then
      deny "window limit" (default now (head inWindow) + windowMs c - now)
    else allow.

(** Modelled from the spec: [recordCall] appends the current timestamp. *)
Definition recordCall (now : Z) (rl : t) : t :=
  {| history := history rl ++ [now]; config := config rl |}.

(** Modelled from the spec: [updateConfig] takes effect on the next check
    and leaves the history alone. *)
Definition updateConfig (c : Config) (rl : t) : t :=
  {| history := history rl; config := c |}.

End RateLimiter.

(* ===================================================================== *)
(** ** The world the operations run in *)
(* ===================================================================== *)

(** Session state: the hook's refs and React state, the rate limiter
    singleton, the three [window.__*Cache] maps of the generator (a map
    that was never created reads as the empty map), and the trace. *)
Record World : Type := {
  inFlight : bool;                         (* [inFlightRef.current] *)
  cacheRef : gmap string CacheEntry;       (* [cacheRef.current] *)
  ui_generatedImage : option string;       (* [generatedImage] *)
  ui_isGenerating : bool;                  (* [isGenerating] *)
  ui_error : option string;                (* [error] *)
  ui_isComposite : bool;                   (* [isComposite] *)
  rateLimiter : RateLimiter.t;
  outfitCache : gmap string string;        (* [window.__outfitCache] *)
  nanoCache : gmap string string;          (* [window.__nanoCache] *)
  transferCache : gmap string string;      (* [window.__transferCache] *)
  trace : list Event }.

(** What the outside answers during one operation. *)
Record Env : Type := {
  apiKey : string;                                   (* [VITE_GOOGLE_API_KEY] *)
  date_now : Z;                                      (* [Date.now()] *)
  db_select : string -> string -> option (option string);
      (* composite query: [None] an error, [Some None] no row *)
  fetch_base64 : string -> option string;            (* [toBase64]; [None] throws *)
  generateContent : nat -> RemoteOutcome;            (* by attempt index *)
  JSON_stringify : JsVal -> string;
  atob : string -> option Z;                         (* decoded length; [None] throws *)
  storage_upload : string -> string -> option string;(* [None] an error, else the path *)
  storage_publicUrl : string -> string -> string;
  db_upsert : string -> string -> string -> bool;    (* [false] an error *)
  db_insert : string -> string -> bool;              (* [false] an error *)
  createComposite : string -> string -> Completion OutfitGenerationResult;
  createObjectURL : File -> string }.

Definition set_inFlight (b : bool) (w : World) : World :=
  {| inFlight := b; cacheRef := cacheRef w;
     ui_generatedImage := ui_generatedImage w; ui_isGenerating := ui_isGenerating w;
     ui_error := ui_error w; ui_isComposite := ui_isComposite w;
     rateLimiter := rateLimiter w; outfitCache := outfitCache w;
     nanoCache := nanoCache w; transferCache := transferCache w;
     trace := trace w |}.

Definition set_cacheRef (m : gmap string CacheEntry) (w : World) : World :=
  {| inFlight := inFlight w; cacheRef := m;
     ui_generatedImage := ui_generatedImage w; ui_isGenerating := ui_isGenerating w;
     ui_error := ui_error w; ui_isComposite := ui_isComposite w;
     rateLimiter := rateLimiter w; outfitCache := outfitCache w;
     nanoCache := nanoCache w; transferCache := transferCache w;
     trace := trace w |}.

(** [setGeneratedImage], [setIsComposite], [setError] are always called
    together or in a fixed order; React state is written at once here. *)
Definition setGeneratedImage (v : option string) (w : World) : World :=
  {| inFlight := inFlight w; cacheRef := cacheRef w;
     ui_generatedImage := v; ui_isGenerating := ui_isGenerating w;
     ui_error := ui_error w; ui_isComposite := ui_isComposite w;
     rateLimiter := rateLimiter w; outfitCache := outfitCache w;
     nanoCache := nanoCache w; transferCache := transferCache w;
     trace := trace w |}.

Definition setIsGenerating (b : bool) (w : World) : World :=
  {| inFlight := inFlight w; cacheRef := cacheRef w;
     ui_generatedImage := ui_generatedImage w; ui_isGenerating := b;
     ui_error := ui_error w; ui_isComposite := ui_isComposite w;
     rateLimiter := rateLimiter w; outfitCache := outfitCache w;
     nanoCache := nanoCache w; transferCache := transferCache w;
     trace := trace w |}.

Definition setError (v : option string) (w : World) : World :=
  {| inFlight := inFlight w; cacheRef := cacheRef w;
     ui_generatedImage := ui_generatedImage w; ui_isGenerating := ui_isGenerating w;
     ui_error := v; ui_isComposite := ui_isComposite w;
     rateLimiter := rateLimiter w; outfitCache := outfitCache w;
     nanoCache := nanoCache w; transferCache := transferCache w;
     trace := trace w |}.

Definition setIsComposite (b : bool) (w : World) : World :=
  {| inFlight := inFlight w; cacheRef := cacheRef w;
     ui_generatedImage := ui_generatedImage w; ui_isGenerating := ui_isGenerating w;
     ui_error := ui_error w; ui_isComposite := b;
     rateLimiter := rateLimiter w; outfitCache := outfitCache w;
     nanoCache := nanoCache w; transferCache := transferCache w;
     trace := trace w |}.

Definition set_rateLimiter (rl : RateLimiter.t) (w : World) : World :=
  {| inFlight := inFlight w; cacheRef := cacheRef w;
     ui_generatedImage := ui_generatedImage w; ui_isGenerating := ui_isGenerating w;
     ui_error := ui_error w; ui_isComposite := ui_isComposite w;
     rateLimiter := rl; outfitCache := outfitCache w;
     nanoCache := nanoCache w; transferCache := transferCache w;
     trace := trace w |}.

Definition set_outfitCache (m : gmap string string) (w : World) : World :=
  {| inFlight := inFlight w; cacheRef := cacheRef w;
     ui_generatedImage := ui_generatedImage w; ui_isGenerating := ui_isGenerating w;
     ui_error := ui_error w; ui_isComposite := ui_isComposite w;
     rateLimiter := rateLimiter w; outfitCache := m;
     nanoCache := nanoCache w; transferCache := transferCache w;
     trace := trace w |}.

Definition set_nanoCache (m : gmap string string) (w : World) : World :=
  {| inFlight := inFlight w; cacheRef := cacheRef w;
     ui_generatedImage := ui_generatedImage w; ui_isGenerating := ui_isGenerating w;
     ui_error := ui_error w; ui_isComposite := ui_isComposite w;
     rateLimiter := rateLimiter w; outfitCache := outfitCache w;
     nanoCache := m; transferCache := transferCache w;
     trace := trace w |}.

Definition set_transferCache (m : gmap string string) (w : World) : World :=
  {| inFlight := inFlight w; cacheRef := cacheRef w;
     ui_generatedImage := ui_generatedImage w; ui_isGenerating := ui_isGenerating w;
     ui_error := ui_error w; ui_isComposite := ui_isComposite w;
     rateLimiter := rateLimiter w; outfitCache := outfitCache w;
     nanoCache := nanoCache w; transferCache := m;
     trace := trace w |}.

Definition log (ev : Event) (w : World) : World :=
  {| inFlight := inFlight w; cacheRef := cacheRef w;
     ui_generatedImage := ui_generatedImage w; ui_isGenerating := ui_isGenerating w;
     ui_error := ui_error w; ui_isComposite := ui_isComposite w;
     rateLimiter := rateLimiter w; outfitCache := outfitCache w;
     nanoCache := nanoCache w; transferCache := transferCache w;
     trace := trace w ++ [ev] |}.

(* ===================================================================== *)
(** ** Async code as state passing with exceptions *)
(* ===================================================================== *)

(** How an async function ends: the promise resolves, it rejects, or the
    model's loop budget ran out (shown below never to happen). *)
Inductive Outcome (A : Type) : Type :=
| Returned (a : A)
| Thrown
| OutOfFuel.
Arguments Returned {A} a.
Arguments Thrown {A}.
Arguments OutOfFuel {A}.

Definition M (A : Type) : Type := World -> Outcome A * World.

Definition ret {A} (a : A) : M A := fun w => (Returned a, w).

Definition bind {A B} (m : M A) (k : A -> M B) : M B :=
  fun w =>
    match m w with
    | (Returned a, w') => k a w'
    | (Thrown, w') => (Thrown, w')
    | (OutOfFuel, w') => (OutOfFuel, w')
    end.

Definition throw {A} : M A := fun w => (Thrown, w).

Definition diverge {A} : M A := fun w => (OutOfFuel, w).

(** [try { m } catch { h }] *)
Definition try_catch {A} (m : M A) (h : M A) : M A :=
  fun w =>
    match m w with
    | (Thrown, w') => h w'
    | r => r
    end.

Definition emit (ev : Event) : M unit := fun w => (Returned tt, log ev w).

Definition update (f : World -> World) : M unit := fun w => (Returned tt, f w).

Definition read {A} (f : World -> A) : M A := fun w => (Returned (f w), w).

#[global] Instance M_ret : MRet M := @ret.
#[global] Instance M_bind : MBind M := fun A B k m => bind m k.


(* ===================================================================== *)
(** ** [lib/supabase.ts] *)
(* ===================================================================== *)

(** [getCachedComposite(topId, bottomId)]: [null] on a query error, else
    [data?.generated_image_url || null]. *)
Definition getCachedComposite (env : Env) (topId bottomId : string)
  : M (option string) :=
  emit (EvDbSelect topId bottomId) ;;
  match db_select env topId bottomId with
  | None => emit (EvConsoleError "Error fetching cached composite:") ;; ret None
  | Some row => ret (if opt_truthy row then row else None)
  end.

(** [saveCachedComposite(topId, bottomId, generatedImageUrl)] *)
Definition saveCachedComposite (env : Env) (topId bottomId generatedImageUrl : string)
  : M unit :=
  emit (EvDbUpsert topId bottomId generatedImageUrl) ;;
  if db_upsert env topId bottomId generatedImageUrl then ret tt
  else emit (EvConsoleError "Error saving cached composite:") ;; throw.

(** [saveGeneratedOutfit({generatedImageUrl, generatorSource})]; both
    callers leave [topId] and [bottomId] out. *)
Definition saveGeneratedOutfit (env : Env) (generatedImageUrl generatorSource : string)
  : M unit :=
  emit (EvDbInsert generatedImageUrl generatorSource) ;;
  if db_insert env generatedImageUrl generatorSource then ret tt
  else emit (EvConsoleError "Error saving generated outfit:") ;; throw.

(** [uploadImage(bucket, file, fileName)] *)
Definition uploadImage (env : Env) (bucket : Bucket) (file : File) (fileName : string)
  : M string :=
  let bucketName := STORAGE_BUCKETS bucket in
  emit (EvStorageUpload bucketName fileName) ;;
  match storage_upload env bucketName fileName with
  | None => emit (EvConsoleError "Error uploading image:") ;; throw
  | Some path => ret (storage_publicUrl env bucketName path)
  end.

(* ===================================================================== *)
(** ** [services/outfitGenerator.ts] *)
(* ===================================================================== *)

Definition MODEL : string := "gemini-2.5-flash-image-preview".
Definition DEFAULT_BODY_PATH : string := "/assets/model.png".
Definition CACHE_PREFIX : string := "outfit_".

Definition length_str (s : string) : string :=
  Z_to_string (Z.of_nat (String.length s)).

(** [cacheKeyFor(topPath, bottomPath, bodyPath, prompt)] *)
Definition cacheKeyFor (topPath bottomPath bodyPath prompt : string) : string :=
  CACHE_PREFIX +:+ MODEL +:+ "|" +:+ topPath +:+ "|" +:+ bottomPath +:+ "|"
    +:+ bodyPath +:+ "|v1:" +:+ length_str prompt.

Definition buildPrompt : string :=
  "Create a new image by combining the elements from the provided images. Take the top clothing item from image 1 and the bottom clothing item from image 2, and place them naturally onto the body in image 3 so it looks like the person is wearing the selected outfit. Fit to body shape and pose, preserve garment proportions and textures, match lighting and shadows, handle occlusion by hair and arms. CRITICAL: The background must be completely white (#FFFFFF) - do not use black, transparent, or any other background color. Replace any existing background with solid white. Do not change the person identity or add accessories.".

(** [toBase64(path)] *)
Definition toBase64 (env : Env) (path : string) : M string :=
  emit (EvFetch path) ;;
  match fetch_base64 env path with
  | Some b64 => ret b64
  | None => throw
  end.

(** [Promise.all(paths.map(toBase64))]: every fetch is started; the result
    rejects when one of them does. *)
Definition toBase64_all (env : Env) (paths : list string) : M (list string) :=
  foldr (fun p k => emit (EvFetch p) ;; k) (ret tt) paths ;;
  match mapM (fetch_base64 env) paths with
  | Some b64s => ret b64s
  | None => throw
  end.

(** [s.split(",")] *)
Fixpoint split_comma_aux (s cur : string) : list string :=
  match s with
  | EmptyString => [cur]
  | String c rest =>
      if Ascii.eqb c ","%char then cur :: split_comma_aux rest ""
      else split_comma_aux rest (cur +:+ String c "")
  end.

Definition split_comma (s : string) : list string := split_comma_aux s "".

(** [dataUrlToFile(dataUrl, filename)] of the generator: [atob(arr[1])]
    throws on text that is not base64 ([arr[1]] prints as ["undefined"]
    when the URL has no comma).  The mime type is not kept: nothing modelled
    depends on it. *)
Definition dataUrlToFile (env : Env) (dataUrl filename : string) : M File :=
  let arr := split_comma dataUrl in
  match atob env (nth 1 arr "undefined") with
  | Some n => ret {| file_name := filename; file_size := n |}
  | None => throw
  end.

Definition maxAttempts : nat := 3.

(** [typeof err?.message === "string" ? err.message : JSON.stringify(err)] *)
Definition error_message (env : Env) (err : JsVal) : string :=
  match get err "message" with
  | JStr s => s
  | _ => JSON_stringify env err
  end.

(** The retry loop around [genAI.models.generateContent], the same text in
    the three [generate*Internal] functions.  [attempt] is the loop's
    counter; [fuel] bounds the iterations of [while (true)].  The delay is
    [Math.round(base * Math.pow(2, attempt - 1))], exact on integers. *)
Fixpoint generateContent_retry (env : Env) (fuel attempt : nat)
  : M (OutfitGenerationResult + list Part) :=
  match fuel with
  | O => diverge
  | S fuel' =>
      emit (EvGenerateContent attempt) ;;
      match generateContent env attempt with
      | Resolves parts => ret (inr parts)
      | Rejects err =>
          if negb (isQuotaError err) || (maxAttempts - 1 <=? attempt)%nat then
            ret (inl (result_fail ("Gemini API error. " +:+ error_message env err)))
          else
            let attempt' := (attempt + 1)%nat in
            let base := getRetryMsFromError err 20000 in
            let waitMs := base * 2 ^ (Z.of_nat attempt' - 1) in
            emit (EvSleep waitMs) ;;
            generateContent_retry env fuel' attempt'
      end
  end.

Definition part_data (p : Part) : bool := opt_truthy (inlineData p).

(** [parts.map(p => p.text).filter(Boolean).join("\n") || "No image data returned"] *)
Definition parts_text (parts : list Part) : string :=
  let texts := omap (fun p => if opt_truthy (text p) then text p else None) parts in
  let joined :=
    match texts with
    | [] => ""
    | t0 :: ts => fold_left (fun acc q => acc +:+ String "010"%char "" +:+ q) ts t0
    end in
  if str_truthy joined then joined else "No image data returned".

(** From the response to the data URL, or the failure result. *)
Definition image_of_parts (parts : list Part) : OutfitGenerationResult + string :=
  match List.find part_data parts with
  | None => inl (result_fail ("Gemini did not return an image. " +:+ parts_text parts))
  | Some imagePart =>
      match inlineData imagePart with
      | Some data =>
          if str_truthy data then inr ("data:image/png;base64," +:+ data)
          else inl (result_fail "No image data in response")
      | None => inl (result_fail "No image data in response")
      end
  end.

Definition NO_API_KEY : string :=
  "Set VITE_GOOGLE_API_KEY and enable billing for image generation.".

(** [topId && bottomId] *)
Definition both_ids (topId bottomId : option string) : option (string * string) :=
  match topId, bottomId with
  | Some t, Some b => if str_truthy t && str_truthy b then Some (t, b) else None
  | _, _ => None
  end.

(** The upload of a paired-selection image into durable storage, shared by
    the memory-hit path and the fresh-generation path. *)
Definition persist_composite (env : Env) (dataUrl topId bottomId : string) : M string :=
  file ← dataUrlToFile env dataUrl
            ("outfit_" +:+ topId +:+ "_" +:+ bottomId +:+ "_"
               +:+ Z_to_string (date_now env) +:+ ".png");
  storageUrl ← uploadImage env GENERATED file (file_name file);
  saveCachedComposite env topId bottomId storageUrl ;;
  ret storageUrl.

(** [generateOutfitInternal(topPath, bottomPath, bodyPath, topId, bottomId)] *)
Definition generateOutfitInternal (env : Env)
    (topPath bottomPath bodyPath : string) (topId bottomId : option string)
  : M OutfitGenerationResult :=
  if negb (str_truthy (apiKey env)) then ret (result_fail NO_API_KEY)
  else
    cachedUrl ← match both_ids topId bottomId with
                 | Some (t, b) => getCachedComposite env t b
                 | None => ret None
                 end;
    match cachedUrl with
    | Some u => ret (result_ok u)
    | None =>
        let prompt := buildPrompt in
        let key := cacheKeyFor topPath bottomPath bodyPath prompt in
        cache ← read outfitCache;
        match cache !! key with
        | Some dataUrl =>
            match both_ids topId bottomId with
            | Some (t, b) =>
                try_catch
                  (storageUrl ← persist_composite env dataUrl t b;
                   ret (result_ok storageUrl))
                  (emit (EvConsoleError "Error saving to Supabase:") ;;
                   ret (result_ok dataUrl))
            | None => ret (result_ok dataUrl)
            end
        | None =>
            toBase64_all env [topPath; bottomPath; bodyPath] ;;
            resp ← generateContent_retry env maxAttempts 0;
            match resp with
            | inl failure => ret failure
            | inr parts =>
                match image_of_parts parts with
                | inl failure => ret failure
                | inr dataUrl =>
                    update (fun w => set_outfitCache (<[key := dataUrl]> (outfitCache w)) w) ;;
                    match both_ids topId bottomId with
                    | Some (t, b) =>
                        try_catch
                          (storageUrl ← persist_composite env dataUrl t b;
                           ret (result_ok storageUrl))
                          (emit (EvConsoleError "Error saving to Supabase:") ;;
                           ret (result_ok dataUrl))
                    | None => ret (result_ok dataUrl)
                    end
                end
            end
        end
    end.

(** The key of [window.__nanoCache]:
    [`nano_${MODEL}|${bodyPath}|v1:${customPrompt.length}`]. *)
Definition nanoCacheKey (bodyPath customPrompt : string) : string :=
  "nano_" +:+ MODEL +:+ "|" +:+ bodyPath +:+ "|v1:" +:+ length_str customPrompt.

(** [generateNanoOutfitInternal(bodyPath, customPrompt)] *)
Definition generateNanoOutfitInternal (env : Env) (bodyPath customPrompt : string)
  : M OutfitGenerationResult :=
  if negb (str_truthy (apiKey env)) then ret (result_fail NO_API_KEY)
  else
    let key := nanoCacheKey bodyPath customPrompt in
    cache ← read nanoCache;
    match cache !! key with
    | Some dataUrl => ret (result_ok dataUrl)
    | None =>
        toBase64 env bodyPath ;;
        resp ← generateContent_retry env maxAttempts 0;
        match resp with
        | inl failure => ret failure
        | inr parts =>
            match image_of_parts parts with
            | inl failure => ret failure
            | inr dataUrl =>
                update (fun w => set_nanoCache (<[key := dataUrl]> (nanoCache w)) w) ;;
                ret (result_ok dataUrl)
            end
        end
    end.

Definition transferPrompt : string :=
  "Using the provided images, place the outfit from image 2 onto the person in image 1. Keep the face, body shape, and background of image 1 completely unchanged. Ensure the outfit integrates naturally with the model's body shape, pose, and lighting. CRITICAL: The background must be completely white (#FFFFFF) - do not use black, transparent, or any other background color. Do not change the person identity or add accessories.".

(** The key of [window.__transferCache]:
    [`transfer_${MODEL}|${inspirationImagePath}|${bodyPath}|v1:${transferPrompt.length}`]. *)
Definition transferCacheKey (inspirationImagePath bodyPath : string) : string :=
  "transfer_" +:+ MODEL +:+ "|" +:+ inspirationImagePath +:+ "|"
    +:+ bodyPath +:+ "|v1:" +:+ length_str transferPrompt.

(** [generateOutfitTransferInternal(inspirationImagePath, bodyPath)] *)
Definition generateOutfitTransferInternal (env : Env)
    (inspirationImagePath bodyPath : string) : M OutfitGenerationResult :=
  if negb (str_truthy (apiKey env)) then ret (result_fail NO_API_KEY)
  else
    let key := transferCacheKey inspirationImagePath bodyPath in
    cache ← read transferCache;
    match cache !! key with
    | Some dataUrl => ret (result_ok dataUrl)
    | None =>
        toBase64_all env [bodyPath; inspirationImagePath] ;;
        resp ← generateContent_retry env maxAttempts 0;
        match resp with
        | inl failure => ret failure
        | inr parts =>
            match image_of_parts parts with
            | inl failure => ret failure
            | inr dataUrl =>
                update (fun w => set_transferCache (<[key := dataUrl]> (transferCache w)) w) ;;
                ret (result_ok dataUrl)
            end
        end
    end.

(** The [OutfitGenerator] class wrapper. *)
Module OutfitGenerator.

Definition generateOutfit (env : Env) (topPath bottomPath : string)
    (bodyPath : string) (topId bottomId : option string) :=
  generateOutfitInternal env topPath bottomPath bodyPath topId bottomId.

Definition nanoPrompt (occasion : string) : string :=
  "Using the provided image of a model, please add an outfit to the model that would work in this occasion: "
    +:+ occasion
    +:+ ". Ensure the outfit integrates naturally with the model's body shape, pose, and lighting. Keep the background plain white so the focus stays on the model and the outfit.".

Definition generateNanoOutfit (env : Env) (occasion bodyPath : string) :=
  generateNanoOutfitInternal env bodyPath (nanoPrompt occasion).

Definition generateOutfitTransfer (env : Env) (inspirationImagePath bodyPath : string) :=
  generateOutfitTransferInternal env inspirationImagePath bodyPath.

End OutfitGenerator.

(* ===================================================================== *)
(** ** [hooks/useOutfitGeneration.ts] *)
(* ===================================================================== *)

Module Hook.

(** [try { m } finally { f }] for a [finally] block that only writes state. *)
Definition try_finally {A} (m : M A) (f : World -> World) : M A :=
  fun w =>
    match m w with
    | (OutOfFuel, w') => (OutOfFuel, w')
    | (r, w') => (r, f w')
    end.

(** [canGenerate()], that is [rateLimiter.canMakeCall()]. *)
Definition canGenerate (env : Env) (w : World) : RateLimiter.Result * World :=
  (RateLimiter.canMakeCall (date_now env) (rateLimiter w), log EvCanMakeCall w).

(** [rateLimiter.recordCall()] *)
Definition recordCall (env : Env) (w : World) : World :=
  log EvRecordCall
    (set_rateLimiter (RateLimiter.recordCall (date_now env) (rateLimiter w)) w).

(** The hook's own [dataUrlToFile]: [atob(parts[1] || "")]. *)
Definition dataUrlToFile (env : Env) (dataUrl filename : string) : M File :=
  let parts := split_comma dataUrl in
  match atob env (nth 1 parts "") with
  | Some n => ret {| file_name := filename; file_size := n |}
  | None => throw
  end.

(** [result.success && result.imageUrl] *)
Definition usable_url (r : OutfitGenerationResult) : option string :=
  if success r && opt_truthy (imageUrl r) then imageUrl r else None.

Definition IN_FLIGHT_WARNING : string :=
  "Generate already in flight. Ignoring duplicate click.".

(** A call that reached its first [await]: what its continuation holds. *)
Inductive Pending : Type :=
| PendingOutfit (top bottom : ClothingItem) (key : string)
| PendingNano (occasion key : string)
| PendingTransfer (inspirationFile : File) (inspirationUrl key : string).

(** The memory-hit exit shared by the three operations. *)
Definition show_cached (cached : CacheEntry) (composite : bool) (w : World) : World :=
  set_inFlight false
    (setError None (setIsComposite composite (setGeneratedImage (Some (url cached)) w))).

(** The rate-limit exit shared by the three operations. *)
Definition show_denied (check : RateLimiter.Result) (w : World) : World :=
  set_inFlight false
    (setIsComposite false
       (setGeneratedImage None
          (setError (Some (or_default (RateLimiter.reason check) "Rate limit exceeded"))
             (log (EvConsoleWarn "Rate limit exceeded:") w)))).

(** [setIsGenerating(true); setError(null); setIsComposite(false)] and,
    first thing inside [try], [rateLimiter.recordCall()]. *)
Definition begin_generation (env : Env) (w : World) : World :=
  recordCall env (setIsComposite false (setError None (setIsGenerating true w))).

(** The [catch] block of each operation. *)
Definition show_failure (logMsg uiMsg : string) : M unit :=
  emit (EvConsoleError logMsg) ;;
  update (setError (Some uiMsg)) ;;
  update (setGeneratedImage None) ;;
  update (setIsComposite false).

Definition store (key finalUrl : string) (composite : bool) : M unit :=
  update (fun w =>
    set_cacheRef (<[key := {| url := finalUrl; isComposite := composite |}]> (cacheRef w)) w).

(** *** [generateOutfit(top, bottom)] *)

(** Up to the first [await]: the guard, the memory tier, the rate limiter. *)
Definition generateOutfit_sync (env : Env) (top bottom : ClothingItem) (w : World)
  : World * option Pending :=
  if inFlight w then (log (EvConsoleWarn IN_FLIGHT_WARNING) w, None)
  else
    let w := set_inFlight true w in
    let key := "outfit::" +:+ id top +:+ "::" +:+ id bottom in
    match cacheRef w !! key with
    | Some cached => (show_cached cached (isComposite cached) w, None)
    | None =>
        let '(rateLimitCheck, w) := canGenerate env w in
        if negb (RateLimiter.allowed rateLimitCheck)
        then (show_denied rateLimitCheck w, None)
        else (begin_generation env w, Some (PendingOutfit top bottom key))
    end.

Definition COMPOSITE_NOTICE : string :=
  "Using composite image (AI generation unavailable)".

(** The rest of the [try] block. *)
Definition generateOutfit_try (env : Env) (top bottom : ClothingItem) (key : string)
  : M unit :=
  result ← OutfitGenerator.generateOutfit env (itemUrl top) (itemUrl bottom)
             DEFAULT_BODY_PATH (Some (id top)) (Some (id bottom));
  match usable_url result with
  | Some u =>
      update (setGeneratedImage (Some u)) ;;
      update (setIsComposite false) ;;
      store key u false
  | None =>
      emit (EvCreateComposite (itemUrl top) (itemUrl bottom)) ;;
      match createComposite env (itemUrl top) (itemUrl bottom) with
      | Throws => throw
      | Normal compositeResult =>
          match usable_url compositeResult with
          | Some c =>
              update (setGeneratedImage (Some c)) ;;
              update (setIsComposite true) ;;
              update (setError (Some COMPOSITE_NOTICE)) ;;
              store key c true
          | None => throw
          end
      end
  end.

Definition generateOutfit_async (env : Env) (top bottom : ClothingItem) (key : string)
  : M unit :=
  try_finally
    (try_catch (generateOutfit_try env top bottom key)
       (show_failure "Failed to generate outfit:"
                     "Failed to generate outfit. Please try again."))
    (fun w => set_inFlight false (setIsGenerating false w)).

(** *** [generateNanoOutfit(occasion)] *)

Definition generateNanoOutfit_sync (env : Env) (occasion : string) (w : World)
  : World * option Pending :=
  if inFlight w then (log (EvConsoleWarn IN_FLIGHT_WARNING) w, None)
  else
    let w := set_inFlight true w in
    let key := "nano::" +:+ occasion in
    match cacheRef w !! key with
    | Some cached => (show_cached cached false w, None)
    | None =>
        let '(rateLimitCheck, w) := canGenerate env w in
        if negb (RateLimiter.allowed rateLimitCheck)
        then (show_denied rateLimitCheck w, None)
        else (begin_generation env w, Some (PendingNano occasion key))
    end.

(** Upload of a data URL and the append-only record, common to the nano
    and the transfer operation. *)
Definition persist_generated (env : Env) (u prefix source : string) : M string :=
  finalUrl ← (if String.prefix "data:" u then
                 file ← dataUrlToFile env u
                          (prefix +:+ Z_to_string (date_now env) +:+ ".png");
                 uploadImage env GENERATED file (file_name file)
               else ret u);
  saveGeneratedOutfit env finalUrl source ;;
  ret finalUrl.

Definition generateNanoOutfit_try (env : Env) (occasion key : string) : M unit :=
  result ← OutfitGenerator.generateNanoOutfit env occasion DEFAULT_BODY_PATH;
  match usable_url result with
  | Some u =>
      finalUrl ← persist_generated env u "nano_" "nano";
      update (setGeneratedImage (Some finalUrl)) ;;
      update (setIsComposite false) ;;
      store key finalUrl false
  | None => throw
  end.

Definition generateNanoOutfit_async (env : Env) (occasion key : string) : M unit :=
  try_finally
    (try_catch (generateNanoOutfit_try env occasion key)
       (show_failure "Failed to generate nano outfit:"
                     "Failed to generate nano outfit. Please try again."))
    (fun w => set_inFlight false (setIsGenerating false w)).

(** *** [generateOutfitTransfer(inspirationFile)] *)

Definition generateOutfitTransfer_sync (env : Env) (inspirationFile : File) (w : World)
  : World * option Pending :=
  if inFlight w then (log (EvConsoleWarn IN_FLIGHT_WARNING) w, None)
  else
    let w := set_inFlight true w in
    let inspirationUrl := createObjectURL env inspirationFile in
    let w := log (EvCreateObjectURL inspirationUrl) w in
    let key := "transfer::" +:+ file_name inspirationFile +:+ "::"
                 +:+ Z_to_string (file_size inspirationFile) in
    match cacheRef w !! key with
    | Some cached =>
        (log (EvRevokeObjectURL inspirationUrl) (show_cached cached false w), None)
    | None =>
        let '(rateLimitCheck, w) := canGenerate env w in
        if negb (RateLimiter.allowed rateLimitCheck)
        then (log (EvRevokeObjectURL inspirationUrl) (show_denied rateLimitCheck w), None)
        else (begin_generation env w,
              Some (PendingTransfer inspirationFile inspirationUrl key))
    end.

Definition generateOutfitTransfer_try (env : Env) (inspirationUrl key : string)
  : M unit :=
  result ← OutfitGenerator.generateOutfitTransfer env inspirationUrl DEFAULT_BODY_PATH;
  match usable_url result with
  | Some u =>
      finalUrl ← persist_generated env u "transfer_" "transfer";
      update (setGeneratedImage (Some finalUrl)) ;;
      update (setIsComposite false) ;;
      store key finalUrl false
  | None => throw
  end.

Definition generateOutfitTransfer_async (env : Env) (inspirationUrl key : string)
  : M unit :=
  try_finally
    (try_catch (generateOutfitTransfer_try env inspirationUrl key)
       (show_failure "Failed to transfer outfit:"
                     "Failed to transfer outfit. Please try again."))
    (fun w =>
       log (EvRevokeObjectURL inspirationUrl)
         (set_inFlight false (setIsGenerating false w))).

(** *** The three operations, whole and in two halves *)

(** A request to the hook, one constructor per generation mode. *)
Inductive Call : Type :=
| CallOutfit (top bottom : ClothingItem)
| CallNano (occasion : string)
| CallTransfer (inspirationFile : File).

(** The key of the session cache the request is looked up under. *)
Definition key_of (c : Call) : string :=
  match c with
  | CallOutfit top bottom => "outfit::" +:+ id top +:+ "::" +:+ id bottom
  | CallNano occasion => "nano::" +:+ occasion
  | CallTransfer f =>
      "transfer::" +:+ file_name f +:+ "::" +:+ Z_to_string (file_size f)
  end.

(** The synchronous prefix of a call: it ends either finished ([None]) or
    suspended at its first [await]. *)
Definition start (env : Env) (c : Call) (w : World) : World * option Pending :=
  match c with
  | CallOutfit top bottom => generateOutfit_sync env top bottom w
  | CallNano occasion => generateNanoOutfit_sync env occasion w
  | CallTransfer f => generateOutfitTransfer_sync env f w
  end.

(** The continuation of a suspended call, run to its end. *)
Definition resume (env : Env) (p : Pending) : M unit :=
  match p with
  | PendingOutfit top bottom key => generateOutfit_async env top bottom key
  | PendingNano occasion key => generateNanoOutfit_async env occasion key
  | PendingTransfer _ inspirationUrl key =>
      generateOutfitTransfer_async env inspirationUrl key
  end.

(** A call run from its arrival to its completion with nothing else
    arriving in between. *)
Definition run (env : Env) (c : Call) : M unit :=
  fun w =>
    match start env c w with
    | (w1, None) => (Returned tt, w1)
    | (w1, Some p) => resume env p w1
    end.

Definition generateOutfit (env : Env) (top bottom : ClothingItem) : M unit :=
  run env (CallOutfit top bottom).

Definition generateNanoOutfit (env : Env) (occasion : string) : M unit :=
  run env (CallNano occasion).

Definition generateOutfitTransfer (env : Env) (inspirationFile : File) : M unit :=
  run env (CallTransfer inspirationFile).

End Hook.

(* ===================================================================== *)
(** ** The same operations, await by await *)
(* ===================================================================== *)

(** Above, an async function runs from its call to its end in one go.
    That is what the function computes when nothing else happens on the
    page meanwhile.  Here the same functions are written with their
    [await]s: a segment of code between two awaits runs without
    interruption, and at an await of the network, of a store or of a
    timer the operation is suspended, so that a click or another
    continuation can run before it goes on.  An [await] of a promise that
    is already settled only yields to the continuation itself and is not
    a suspension.  [flatten] runs a suspended operation on without
    interruption; it gives back the functions above. *)
Module Stepwise.

(** Where a segment leaves its operation: ended, or suspended at an
    [await] with the segment that runs when it is resumed. *)
Inductive Res (A : Type) : Type :=
| Fin (r : Outcome A)
| Wait (k : World -> Res A * World).
Arguments Fin {A} r.
Arguments Wait {A} k.

Definition T (A : Type) : Type := World -> Res A * World.

Definition tret {A} (a : A) : T A := fun w => (Fin (Returned a), w).

Fixpoint bind_res {A B} (r : Res A) (f : A -> T B) (w : World) : Res B * World :=
  match r with
  | Fin (Returned a) => f a w
  | Fin Thrown => (Fin Thrown, w)
  | Fin OutOfFuel => (Fin OutOfFuel, w)
  | Wait k => (Wait (fun w1 => let '(r1, w2) := k w1 in bind_res r1 f w2), w)
  end.

Definition tbind {A B} (m : T A) (f : A -> T B) : T B :=
  fun w => let '(r, w1) := m w in bind_res r f w1.

#[global] Instance T_ret : MRet T := @tret.
#[global] Instance T_bind : MBind T := fun A B f m => tbind m f.

(** Code without an [await]. *)
Definition sync {A} (m : M A) : T A := fun w => let '(r, w') := m w in (Fin r, w').

(** The suspension at an [await]. *)
Definition pause : T unit := fun w => (Wait (fun w1 => (Fin (Returned tt), w1)), w).

(** A request to the outside: it is sent, and the operation waits for the
    answer. *)
Definition await (ev : Event) : T unit := sync (emit ev) ;; pause.

(** [try { m } catch { h }] with a [catch] block that has no [await]. *)
Fixpoint catch_res {A} (r : Res A) (h : M A) (w : World) : Res A * World :=
  match r with
  | Fin Thrown => sync h w
  | Fin o => (Fin o, w)
  | Wait k => (Wait (fun w1 => let '(r1, w2) := k w1 in catch_res r1 h w2), w)
  end.

Definition tcatch {A} (m : T A) (h : M A) : T A :=
  fun w => let '(r, w1) := m w in catch_res r h w1.

(** [try { m } finally { f }] for a [finally] block that only writes state. *)
Fixpoint finally_res {A} (r : Res A) (f : World -> World) (w : World) : Res A * World :=
  match r with
  | Fin OutOfFuel => (Fin OutOfFuel, w)
  | Fin o => (Fin o, f w)
  | Wait k => (Wait (fun w1 => let '(r1, w2) := k w1 in finally_res r1 f w2), w)
  end.

Definition tfinally {A} (m : T A) (f : World -> World) : T A :=
  fun w => let '(r, w1) := m w in finally_res r f w1.

(** A suspended operation run on with nothing in between. *)
Fixpoint flat_res {A} (r : Res A) (w : World) : Outcome A * World :=
  match r with
  | Fin o => (o, w)
  | Wait k => let '(r1, w1) := k w in flat_res r1 w1
  end.

Definition flatten {A} (t : T A) : M A :=
  fun w => let '(r, w1) := t w in flat_res r w1.

(** *** [lib/supabase.ts] *)

Definition getCachedComposite (env : Env) (topId bottomId : string)
  : T (option string) :=
  await (EvDbSelect topId bottomId) ;;
  match db_select env topId bottomId with
  | None => sync (emit (EvConsoleError "Error fetching cached composite:")) ;; tret None
  | Some row => tret (if opt_truthy row then row else None)
  end.

Definition saveCachedComposite (env : Env) (topId bottomId generatedImageUrl : string)
  : T unit :=
  await (EvDbUpsert topId bottomId generatedImageUrl) ;;
  if db_upsert env topId bottomId generatedImageUrl then tret tt
  else sync (emit (EvConsoleError "Error saving cached composite:") ;; throw).

Definition saveGeneratedOutfit (env : Env) (generatedImageUrl generatorSource : string)
  : T unit :=
  await (EvDbInsert generatedImageUrl generatorSource) ;;
  if db_insert env generatedImageUrl generatorSource then tret tt
  else sync (emit (EvConsoleError "Error saving generated outfit:") ;; throw).

Definition uploadImage (env : Env) (bucket : Bucket) (file : File) (fileName : string)
  : T string :=
  let bucketName := STORAGE_BUCKETS bucket in
  await (EvStorageUpload bucketName fileName) ;;
  match storage_upload env bucketName fileName with
  | None => sync (emit (EvConsoleError "Error uploading image:") ;; throw)
  | Some path => tret (storage_publicUrl env bucketName path)
  end.

(** *** [services/outfitGenerator.ts] *)

Definition toBase64 (env : Env) (path : string) : T string :=
  await (EvFetch path) ;;
  match fetch_base64 env path with
  | Some b64 => tret b64
  | None => sync throw
  end.

(** [await Promise.all(paths.map(toBase64))]: every fetch is started, then
    the operation waits for all of them. *)
Definition toBase64_all (env : Env) (paths : list string) : T (list string) :=
  sync (foldr (fun p k => emit (EvFetch p) ;; k) (ret tt) paths) ;;
  pause ;;
  match mapM (fetch_base64 env) paths with
  | Some b64s => tret b64s
  | None => sync throw
  end.

(** The retry loop: it waits for the remote generator and, before another
    attempt, for the timer. *)
Fixpoint generateContent_retry (env : Env) (fuel attempt : nat)
  : T (OutfitGenerationResult + list Part) :=
  match fuel with
  | O => sync diverge
  | S fuel' =>
      await (EvGenerateContent attempt) ;;
      match generateContent env attempt with
      | Resolves parts => tret (inr parts)
      | Rejects err =>
          if negb (isQuotaError err) || (maxAttempts - 1 <=? attempt)%nat then
            tret (inl (result_fail ("Gemini API error. " +:+ error_message env err)))
          else
            let attempt' := (attempt + 1)%nat in
            let base := getRetryMsFromError err 20000 in
            let waitMs := base * 2 ^ (Z.of_nat attempt' - 1) in
            await (EvSleep waitMs) ;;
            generateContent_retry env fuel' attempt'
      end
  end.

Definition persist_composite (env : Env) (dataUrl topId bottomId : string) : T string :=
  file ← sync (dataUrlToFile env dataUrl
                 ("outfit_" +:+ topId +:+ "_" +:+ bottomId +:+ "_"
                    +:+ Z_to_string (date_now env) +:+ ".png"));
  storageUrl ← uploadImage env GENERATED file (file_name file);
  saveCachedComposite env topId bottomId storageUrl ;;
  tret storageUrl.

Definition generateOutfitInternal (env : Env)
    (topPath bottomPath bodyPath : string) (topId bottomId : option string)
  : T OutfitGenerationResult :=
  if negb (str_truthy (apiKey env)) then tret (result_fail NO_API_KEY)
  else
    cachedUrl ← match both_ids topId bottomId with
                 | Some (t, b) => getCachedComposite env t b
                 | None => tret None
                 end;
    match cachedUrl with
    | Some u => tret (result_ok u)
    | None =>
        let prompt := buildPrompt in
        let key := cacheKeyFor topPath bottomPath bodyPath prompt in
        cache ← sync (read outfitCache);
        match cache !! key with
        | Some dataUrl =>
            match both_ids topId bottomId with
            | Some (t, b) =>
                tcatch
                  (storageUrl ← persist_composite env dataUrl t b;
                   tret (result_ok storageUrl))
                  (emit (EvConsoleError "Error saving to Supabase:") ;;
                   ret (result_ok dataUrl))
            | None => tret (result_ok dataUrl)
            end
        | None =>
            toBase64_all env [topPath; bottomPath; bodyPath] ;;
            resp ← generateContent_retry env maxAttempts 0;
            match resp with
            | inl failure => tret failure
            | inr parts =>
                match image_of_parts parts with
                | inl failure => tret failure
                | inr dataUrl =>
                    sync (update (fun w =>
                            set_outfitCache (<[key := dataUrl]> (outfitCache w)) w)) ;;
                    match both_ids topId bottomId with
                    | Some (t, b) =>
                        tcatch
                          (storageUrl ← persist_composite env dataUrl t b;
                           tret (result_ok storageUrl))
                          (emit (EvConsoleError "Error saving to Supabase:") ;;
                           ret (result_ok dataUrl))
                    | None => tret (result_ok dataUrl)
                    end
                end
            end
        end
    end.

Definition generateNanoOutfitInternal (env : Env) (bodyPath customPrompt : string)
  : T OutfitGenerationResult :=
  if negb (str_truthy (apiKey env)) then tret (result_fail NO_API_KEY)
  else
    let key := nanoCacheKey bodyPath customPrompt in
    cache ← sync (read nanoCache);
    match cache !! key with
    | Some dataUrl => tret (result_ok dataUrl)
    | None =>
        toBase64 env bodyPath ;;
        resp ← generateContent_retry env maxAttempts 0;
        match resp with
        | inl failure => tret failure
        | inr parts =>
            match image_of_parts parts with
            | inl failure => tret failure
            | inr dataUrl =>
                sync (update (fun w =>
                        set_nanoCache (<[key := dataUrl]> (nanoCache w)) w)) ;;
                tret (result_ok dataUrl)
            end
        end
    end.

Definition generateOutfitTransferInternal (env : Env)
    (inspirationImagePath bodyPath : string) : T OutfitGenerationResult :=
  if negb (str_truthy (apiKey env)) then tret (result_fail NO_API_KEY)
  else
    let key := transferCacheKey inspirationImagePath bodyPath in
    cache ← sync (read transferCache);
    match cache !! key with
    | Some dataUrl => tret (result_ok dataUrl)
    | None =>
        toBase64_all env [bodyPath; inspirationImagePath] ;;
        resp ← generateContent_retry env maxAttempts 0;
        match resp with
        | inl failure => tret failure
        | inr parts =>
            match image_of_parts parts with
            | inl failure => tret failure
            | inr dataUrl =>
                sync (update (fun w =>
                        set_transferCache (<[key := dataUrl]> (transferCache w)) w)) ;;
                tret (result_ok dataUrl)
            end
        end
    end.

(** *** [hooks/useOutfitGeneration.ts]: the continuations *)

Definition generateOutfit_try (env : Env) (top bottom : ClothingItem) (key : string)
  : T unit :=
  result ← generateOutfitInternal env (itemUrl top) (itemUrl bottom)
             DEFAULT_BODY_PATH (Some (id top)) (Some (id bottom));
  match Hook.usable_url result with
  | Some u =>
      sync (update (setGeneratedImage (Some u)) ;;
            update (setIsComposite false) ;;
            Hook.store key u false)
  | None =>
      await (EvCreateComposite (itemUrl top) (itemUrl bottom)) ;;
      match createComposite env (itemUrl top) (itemUrl bottom) with
      | Throws => sync throw
      | Normal compositeResult =>
          match Hook.usable_url compositeResult with
          | Some c =>
              sync (update (setGeneratedImage (Some c)) ;;
                    update (setIsComposite true) ;;
                    update (setError (Some Hook.COMPOSITE_NOTICE)) ;;
                    Hook.store key c true)
          | None => sync throw
          end
      end
  end.

Definition generateOutfit_async (env : Env) (top bottom : ClothingItem) (key : string)
  : T unit :=
  tfinally
    (tcatch (generateOutfit_try env top bottom key)
       (Hook.show_failure "Failed to generate outfit:"
                          "Failed to generate outfit. Please try again."))
    (fun w => set_inFlight false (setIsGenerating false w)).

Definition persist_generated (env : Env) (u prefix source : string) : T string :=
  finalUrl ← (if String.prefix "data:" u then
                 file ← sync (Hook.dataUrlToFile env u
                                (prefix +:+ Z_to_string (date_now env) +:+ ".png"));
                 uploadImage env GENERATED file (file_name file)
               else tret u);
  saveGeneratedOutfit env finalUrl source ;;
  tret finalUrl.

Definition generateNanoOutfit_try (env : Env) (occasion key : string) : T unit :=
  result ← generateNanoOutfitInternal env DEFAULT_BODY_PATH
             (OutfitGenerator.nanoPrompt occasion);
  match Hook.usable_url result with
  | Some u =>
      finalUrl ← persist_generated env u "nano_" "nano";
      sync (update (setGeneratedImage (Some finalUrl)) ;;
            update (setIsComposite false) ;;
            Hook.store key finalUrl false)
  | None => sync throw
  end.

Definition generateNanoOutfit_async (env : Env) (occasion key : string) : T unit :=
  tfinally
    (tcatch (generateNanoOutfit_try env occasion key)
       (Hook.show_failure "Failed to generate nano outfit:"
                          "Failed to generate nano outfit. Please try again."))
    (fun w => set_inFlight false (setIsGenerating false w)).

Definition generateOutfitTransfer_try (env : Env) (inspirationUrl key : string)
  : T unit :=
  result ← generateOutfitTransferInternal env inspirationUrl DEFAULT_BODY_PATH;
  match Hook.usable_url result with
  | Some u =>
      finalUrl ← persist_generated env u "transfer_" "transfer";
      sync (update (setGeneratedImage (Some finalUrl)) ;;
            update (setIsComposite false) ;;
            Hook.store key finalUrl false)
  | None => sync throw
  end.

Definition generateOutfitTransfer_async (env : Env) (inspirationUrl key : string)
  : T unit :=
  tfinally
    (tcatch (generateOutfitTransfer_try env inspirationUrl key)
       (Hook.show_failure "Failed to transfer outfit:"
                          "Failed to transfer outfit. Please try again."))
    (fun w =>
       log (EvRevokeObjectURL inspirationUrl)
         (set_inFlight false (setIsGenerating false w))).

(** The continuation of a call that left its synchronous prefix. *)
Definition resume (env : Env) (p : Hook.Pending) : T unit :=
  match p with
  | Hook.PendingOutfit top bottom key => generateOutfit_async env top bottom key
  | Hook.PendingNano occasion key => generateNanoOutfit_async env occasion key
  | Hook.PendingTransfer _ inspirationUrl key =>
      generateOutfitTransfer_async env inspirationUrl key
  end.

(** *** The page: calls arriving while another is suspended *)

(** The session state and the operations suspended at an [await], each
    with the segment it runs when resumed. *)
Record System : Type := { world : World; suspended : list (T unit) }.

Definition waiting {A} (r : Res A) : list (T A) :=
  match r with
  | Wait k => [k]
  | Fin _ => []
  end.

(** A call arrives: its synchronous prefix runs and, if it goes on, its
    continuation up to the first [await] that suspends it. *)
Definition arrive (env : Env) (c : Hook.Call) (s : System) : System :=
  match Hook.start env c (world s) with
  | (w0, None) => {| world := w0; suspended := suspended s |}
  | (w0, Some p) =>
      let '(r, w1) := resume env p w0 in
      {| world := w1; suspended := suspended s ++ waiting r |}
  end.

(** One step of the page: a call arrives, or a suspended operation runs
    its next segment, up to its next [await] or to its end. *)
Inductive step : System -> System -> Prop :=
| step_arrive (env : Env) (c : Hook.Call) (s : System) : step s (arrive env c s)
| step_resume (s : System) (before after : list (T unit)) (k : T unit) :
    suspended s = before ++ k :: after ->
    step s {| world := snd (k (world s));
              suspended := before ++ waiting (fst (k (world s))) ++ after |}.

Inductive reachable (s0 : System) : System -> Prop :=
| reach_refl : reachable s0 s0
| reach_step (s s' : System) : reachable s0 s -> step s s' -> reachable s0 s'.

(** What every segment of an operation does: [Rw] relates the worlds
    around a segment that ends at an [await], [Qf] those around the
    segment that ends the operation, with its outcome. *)
Fixpoint res_spec {A} (Rw : World -> World -> Prop)
    (Qf : Outcome A -> World -> World -> Prop) (r : Res A) (w w' : World) : Prop :=
  match r with
  | Fin o => Qf o w w'
  | Wait k => Rw w w' /\ forall w1, res_spec Rw Qf (fst (k w1)) w1 (snd (k w1))
  end.

Definition TSpec {A} (Rw : World -> World -> Prop)
    (Qf : Outcome A -> World -> World -> Prop) (t : T A) : Prop :=
  forall w, res_spec Rw Qf (fst (t w)) w (snd (t w)).

End Stepwise.

(** A fresh page: nothing cached, nothing shown, no call made. *)
Definition fresh_world (c : RateLimiter.Config) : World :=
  {| inFlight := false; cacheRef := ∅;
     ui_generatedImage := None; ui_isGenerating := false;
     ui_error := None; ui_isComposite := false;
     rateLimiter := {| RateLimiter.history := []; RateLimiter.config := c |};
     outfitCache := ∅; nanoCache := ∅; transferCache := ∅;
     trace := [] |}.

(** The configuration [App] installs on mount. *)
Definition app_config : RateLimiter.Config :=
  {| RateLimiter.cooldownMs := 2000; RateLimiter.maxCalls := 10;
     RateLimiter.windowMs := 60000 |}.

(* ===================================================================== *)
(** ** Notions the statements are written in *)
(* ===================================================================== *)

Fixpoint all_digits (s : string) : bool :=
  match s with
  | EmptyString => true
  | String c rest => is_digit c && all_digits rest
  end.

(** A duration in the words of the API: [<seconds>s] or
    [<seconds>.<fractional-seconds>s], both parts non-empty runs of
    decimal digits.  Stated apart from the matcher above, to compare. *)
Definition duration_text (s : string) : Prop :=
  exists sec, all_digits sec = true /\ sec <> "" /\
    (s = sec +:+ "s" \/
     exists frac, all_digits frac = true /\ frac <> "" /\
                  s = sec +:+ "." +:+ frac +:+ "s").

(** An error carries a parseable retry hint when the detail that
    [details.find] selects has a [retryDelay] that prints as a duration. *)
Definition parseable_hint (err : JsVal) : Prop :=
  exists d, find_retry_detail err = Normal d /\
            duration_text (to_string (get d "retryDelay")).

(** Admissible outcomes: an exception only where [total] is off, the loop
    budget never. *)
Definition outcome_ok {A} (total : bool) (r : Outcome A) : Prop :=
  match r with
  | Returned _ => True
  | Thrown => total = false
  | OutOfFuel => False
  end.

(** [Spec total P R m]: from any world, [m] ends admissibly, relates the
    worlds by [R], and appends to the trace only events in [P]. *)
Definition Spec {A} (total : bool) (P : Event -> Prop)
    (R : World -> World -> Prop) (m : M A) : Prop :=
  forall w, exists r w' evs,
    m w = (r, w') /\ outcome_ok total r /\ R w w' /\
    trace w' = trace w ++ evs /\ Forall P evs.

(** What the generator may touch: its own [window.__*Cache] maps and the
    trace.  Everything the hook owns stays as it is. *)
Definition hook_view (w : World) :=
  (inFlight w, cacheRef w, ui_generatedImage w, ui_isGenerating w,
   ui_error w, ui_isComposite w, rateLimiter w).

Definition same_hook (w w' : World) : Prop := hook_view w' = hook_view w.

(** The events of the generator and of the storage layer under it. *)
Definition generator_event (ev : Event) : Prop :=
  match ev with
  | EvConsoleError _ | EvDbSelect _ _ | EvFetch _ | EvGenerateContent _
  | EvSleep _ | EvStorageUpload _ _ | EvDbUpsert _ _ _ => True
  | _ => False
  end.

(** A request to the generator, one constructor per generation mode. *)
Inductive Request : Type :=
| ReqOutfit (topPath bottomPath bodyPath : string) (topId bottomId : option string)
| ReqNano (bodyPath customPrompt : string)
| ReqTransfer (inspirationImagePath bodyPath : string).

Definition generate (env : Env) (req : Request) : M OutfitGenerationResult :=
  match req with
  | ReqOutfit topPath bottomPath bodyPath topId bottomId =>
      generateOutfitInternal env topPath bottomPath bodyPath topId bottomId
  | ReqNano bodyPath customPrompt =>
      generateNanoOutfitInternal env bodyPath customPrompt
  | ReqTransfer inspirationImagePath bodyPath =>
      generateOutfitTransferInternal env inspirationImagePath bodyPath
  end.

(** The attempt numbers of the remote calls in a trace, and the waits. *)
Definition remote_calls (evs : list Event) : list nat :=
  omap (fun ev => match ev with EvGenerateContent n => Some n | _ => None end) evs.

Definition sleeps (evs : list Event) : list Z :=
  omap (fun ev => match ev with EvSleep ms => Some ms | _ => None end) evs.

(** What the continuation of a call leaves alone: the rate limiter, and
    every entry of the session cache but the one under its own key. *)
Definition keeps (key : string) (w w' : World) : Prop :=
  rateLimiter w' = rateLimiter w /\
  forall k, k <> key -> cacheRef w' !! k = cacheRef w !! k.

(** The events of a continuation: no rate limiter call, no object URL. *)
Definition async_event (ev : Event) : Prop :=
  match ev with
  | EvCanMakeCall | EvRecordCall | EvCreateObjectURL _ | EvRevokeObjectURL _
  | EvConsoleWarn _ => False
  | _ => True
  end.

Definition pending_key (p : Hook.Pending) : string :=
  match p with
  | Hook.PendingOutfit _ _ key | Hook.PendingNano _ key
  | Hook.PendingTransfer _ _ key => key
  end.

(** The [finally] block of a continuation. *)
Definition finalizer (p : Hook.Pending) (w : World) : World :=
  match p with
  | Hook.PendingTransfer _ inspirationUrl _ =>
      log (EvRevokeObjectURL inspirationUrl)
        (set_inFlight false (setIsGenerating false w))
  | _ => set_inFlight false (setIsGenerating false w)
  end.

(** The flag is up exactly while a call is suspended, and there is never
    more than one. *)
Definition guard_invariant (s : Stepwise.System) : Prop :=
  (length (Stepwise.suspended s) <= 1)%nat /\
  (inFlight (Stepwise.world s) = true <-> Stepwise.suspended s <> []).

(** How a continuation ends: it returns, and the flag is down. *)
Definition ends_cleared (o : Outcome unit) (w w' : World) : Prop :=
  o = Returned tt /\ inFlight w' = false.

(** The object URL events of a call: only the transfer operation has any. *)
Definition created (env : Env) (c : Hook.Call) : list Event :=
  match c with
  | Hook.CallTransfer f => [EvCreateObjectURL (createObjectURL env f)]
  | _ => []
  end.

Definition released (env : Env) (c : Hook.Call) : list Event :=
  match c with
  | Hook.CallTransfer f => [EvRevokeObjectURL (createObjectURL env f)]
  | _ => []
  end.

(** Whether a cached entry is shown as a composite: the paired selection
    shows what the entry says, the other two modes never do. *)
Definition shown_composite (c : Hook.Call) (e : CacheEntry) : bool :=
  match c with
  | Hook.CallOutfit _ _ => isComposite e
  | _ => false
  end.

Definition created_urls (evs : list Event) : list string :=
  omap (fun ev => match ev with EvCreateObjectURL u => Some u | _ => None end) evs.

Definition released_urls (evs : list Event) : list string :=
  omap (fun ev => match ev with EvRevokeObjectURL u => Some u | _ => None end) evs.

(** Later calls of the session, each run to its end with the answers of
    its own environment. *)
Definition session (calls : list (Env * Hook.Call)) (w : World) : World :=
  fold_left (fun w0 ec => snd (Hook.run (fst ec) (snd ec) w0)) calls w.

Module Sample.

Definition image (data : string) : list Part :=
  [ {| inlineData := None; text := Some "Here is your image." |};
    {| inlineData := Some data; text := None |} ].

(** An outside that answers as told: the clock, the remote generator, the
    composite row, whether uploads and inserts succeed, and the composer. *)
Definition env (now : Z) (remote : nat -> RemoteOutcome)
    (row : option (option string)) (upload_ok insert_ok : bool)
    (composer : Completion OutfitGenerationResult) : Env :=
  {| apiKey := "key";
     date_now := now;
     db_select := fun _ _ => row;
     fetch_base64 := fun _ => Some "AAAA";
     generateContent := remote;
     JSON_stringify := fun _ => "{}";
     atob := fun s => Some (Z.of_nat (String.length s) * 3 / 4);
     storage_upload := fun _ fileName => if upload_ok then Some fileName else None;
     storage_publicUrl := fun bucketName path =>
       "https://store/" +:+ bucketName +:+ "/" +:+ path;
     db_upsert := fun _ _ _ => true;
     db_insert := fun _ _ => insert_ok;
     createComposite := fun _ _ => composer;
     createObjectURL := fun f => "blob:" +:+ file_name f |}.

Definition all_well (now : Z) (data : string) : Env :=
  env now (fun _ => Resolves (image data)) (Some None) true true Throws.

Definition top : ClothingItem :=
  {| id := "t1"; name := "Top 1"; itemUrl := "https://x/t1.png" |}.

Definition bottom : ClothingItem :=
  {| id := "b1"; name := "Bottom 1"; itemUrl := "https://x/b1.png" |}.

Definition photo : File := {| file_name := "look.png"; file_size := 2048 |}.

Definition page : World := fresh_world app_config.

(** A quota error with a retry hint, one without, and another error. *)
Definition quota_hint : JsVal := retry_info_error (JStr "2.5s").
Definition quota_plain : JsVal :=
  JObj [("code", JNum 429); ("message", JStr "Too many requests")].
Definition other_error : JsVal :=
  JObj [("status", JNum 500); ("message", JStr "Internal error")].

End Sample.

Module Scenario.


(** A remote that is down, and a composer that works. *)
Definition down : Env :=
  Sample.env 100000 (fun _ => Rejects Sample.other_error) (Some None) true true
    (Normal (result_ok "data:image/png;base64,Q09NUA==")).

(** A durable store that already has the pair. *)
Definition stored : Env :=
  Sample.env 100000 (fun _ => Rejects Sample.other_error)
    (Some (Some "https://x/img.png")) true true Throws.

Definition nano_request : Request := ReqNano DEFAULT_BODY_PATH "a prompt".

End Scenario.

(* ===================================================================== *)
(** ** More of the sources: cache maintenance and the select handler *)
(* ===================================================================== *)

(** [OutfitGenerator.clearCache()] and [OutfitGenerator.getCacheSize()]
    ([cache?.size || 0] of a map never created is 0, as of the empty map). *)
Module GeneratorCache.

Definition clearCache (w : World) : World :=
  set_transferCache ∅ (set_nanoCache ∅ (set_outfitCache ∅ w)).

Definition getCacheSize (w : World) : nat :=
  (size (outfitCache w) + size (nanoCache w) + size (transferCache w))%nat.

End GeneratorCache.

(** [App.tsx]: the handler of the select button.  [topsList] and
    [bottomsList] are the loaded items, [previewTop] and [previewBottom]
    the selected indices; an index out of range reads [undefined].  The
    progress bar and [debugLog] are left out. *)
Module App.

Definition PLACEHOLDER_KEY : string := "your_google_api_key_here".

(** [Boolean(KEY && KEY !== "your_google_api_key_here")] *)
Definition hasApiKey (env : Env) : bool :=
  str_truthy (apiKey env) && negb (String.eqb (apiKey env) PLACEHOLDER_KEY).

(** [handleSelect()] *)
Definition handleSelect (env : Env) (topsList bottomsList : list ClothingItem)
    (previewTop previewBottom : nat) : M unit :=
  fun w =>
    if negb (hasApiKey env) then (Returned tt, w)
    else
      let '(rateLimitCheck, w) := Hook.canGenerate env w in
      if negb (RateLimiter.allowed rateLimitCheck)
      then (Returned tt, log (EvConsoleWarn "Rate limit check failed:") w)
      else
        match topsList !! previewTop, bottomsList !! previewBottom with
        | Some topItem, Some bottomItem => Hook.generateOutfit env topItem bottomItem w
        | _, _ => (Returned tt, w)
        end.

End App.

(** [lib/supabase.ts]: the file names of clothing images.  [addClothingItem]
    names the uploaded file from the category, the clock and the extension
    of the chosen file; [deleteClothingItem] recovers the name from the
    stored public URL. *)
Module Items.

(** [s.split(c)] for a one-character separator. *)
Fixpoint split_aux (c : ascii) (s cur : string) : list string :=
  match s with
  | EmptyString => [cur]
  | String c' rest =>
      if Ascii.eqb c' c then cur :: split_aux c rest ""
      else split_aux c rest (cur +:+ String c' "")
  end.

Definition split (c : ascii) (s : string) : list string := split_aux c s "".

Inductive Category : Type := tops | bottoms.

Definition category_text (category : Category) : string :=
  match category with tops => "tops" | bottoms => "bottoms" end.

(** [imageFile.name.split(".").pop()] *)
Definition fileExtension (name : string) : string :=
  List.last (split "."%char name) "".

(** [`${category}_${timestamp}.${fileExtension}`] *)
Definition fileName (category : Category) (timestamp : Z) (name : string) : string :=
  category_text category +:+ "_" +:+ Z_to_string timestamp +:+ "."
    +:+ fileExtension name.

(** [urlParts[urlParts.length - 1]] of [item.image_url.split("/")] *)
Definition fileNameOfUrl (image_url : string) : string :=
  List.last (split "/"%char image_url) "".

End Items.

(* ===================================================================== *)
(** ** Notions the further statements are written in *)
(* ===================================================================== *)

(** Whether character [c] occurs in [s]. *)
Fixpoint has_char (c : ascii) (s : string) : bool :=
  match s with
  | EmptyString => false
  | String c' rest => Ascii.eqb c' c || has_char c rest
  end.

(** The three [window.__*Cache] maps. *)
Definition window_caches (w : World) :
  gmap string string * gmap string string * gmap string string :=
  (outfitCache w, nanoCache w, transferCache w).

(** The key a generator request is cached under, and its cache. *)
Definition request_key (req : Request) : string :=
  match req with
  | ReqOutfit topPath bottomPath bodyPath _ _ =>
      cacheKeyFor topPath bottomPath bodyPath buildPrompt
  | ReqNano bodyPath customPrompt => nanoCacheKey bodyPath customPrompt
  | ReqTransfer inspirationImagePath bodyPath =>
      transferCacheKey inspirationImagePath bodyPath
  end.

Definition request_cache (req : Request) (w : World) : gmap string string :=
  match req with
  | ReqOutfit _ _ _ _ _ => outfitCache w
  | ReqNano _ _ => nanoCache w
  | ReqTransfer _ _ => transferCache w
  end.

(** The three maps with the one of [req] replaced by [m]. *)
Definition with_request_cache (req : Request) (m : gmap string string) (w : World) :
  gmap string string * gmap string string * gmap string string :=
  match req with
  | ReqOutfit _ _ _ _ _ => (m, nanoCache w, transferCache w)
  | ReqNano _ _ => (outfitCache w, m, transferCache w)
  | ReqTransfer _ _ => (outfitCache w, nanoCache w, m)
  end.

Definition DATA_URL_PREFIX : string := "data:image/png;base64,".

(** An environment with another answer of the composite query. *)
Definition with_db_select (f : string -> string -> option (option string))
    (env : Env) : Env :=
  {| apiKey := apiKey env; date_now := date_now env; db_select := f;
     fetch_base64 := fetch_base64 env; generateContent := generateContent env;
     JSON_stringify := JSON_stringify env; atob := atob env;
     storage_upload := storage_upload env;
     storage_publicUrl := storage_publicUrl env;
     db_upsert := db_upsert env; db_insert := db_insert env;
     createComposite := createComposite env;
     createObjectURL := createObjectURL env |}.

(** What is shown is coherent: the composite mark is only up with an
    image, and an error is visible either alone or as the notice that goes
    with a composite. *)
Definition ui_coherent (w : World) : Prop :=
  (ui_isComposite w = true -> exists u, ui_generatedImage w = Some u) /\
  (ui_error w = None \/ ui_generatedImage w = None \/
   (ui_error w = Some Hook.COMPOSITE_NOTICE /\ ui_isComposite w = true)).

(** The coherence invariant of the page: the guard's invariant, coherence
    of what is shown, and a clean slate while a call is suspended. *)
Definition page_invariant (s : Stepwise.System) : Prop :=
  guard_invariant s /\ ui_coherent (Stepwise.world s) /\
  (Stepwise.suspended s <> [] ->
   ui_error (Stepwise.world s) = None /\ ui_isComposite (Stepwise.world s) = false).

(** What the segment that ends a continuation leaves on the page: the
    flag and the progress mark down, the rate limiter as it was, and
    either the failure notice without an image and nothing stored, or a
    generated image with the error as it was, or a composite with its
    notice. *)
Definition ends_shown (o : Outcome unit) (w w' : World) : Prop :=
  o = Returned tt /\ inFlight w' = false /\ ui_isGenerating w' = false /\
  rateLimiter w' = rateLimiter w /\
  ((ui_generatedImage w' = None /\ ui_isComposite w' = false /\
    cacheRef w' = cacheRef w /\ exists msg, ui_error w' = Some msg)
   \/ (exists u, ui_generatedImage w' = Some u /\ ui_isComposite w' = false /\
                 ui_error w' = ui_error w)
   \/ (exists u, ui_generatedImage w' = Some u /\ ui_isComposite w' = true /\
                 ui_error w' = Some Hook.COMPOSITE_NOTICE)).

(** [t] run without interruption is [m]. *)
Definition agrees {A} (t : Stepwise.T A) (m : M A) : Prop :=
  forall w, Stepwise.flatten t w = m w.

(** An operation that leaves what the hook owns alone in every segment,
    and does not run out of loop budget. *)
Definition Quiet {A} (t : Stepwise.T A) : Prop :=
  Stepwise.TSpec same_hook (fun o w w' => o <> OutOfFuel /\ same_hook w w') t.

(** How the [try] block of a continuation ends: with an exception and what
    the hook owns as it was, or having shown and stored an image. *)
Definition try_ends (o : Outcome unit) (w w' : World) : Prop :=
  match o with
  | Returned _ =>
      inFlight w' = inFlight w /\ ui_isGenerating w' = ui_isGenerating w /\
      rateLimiter w' = rateLimiter w /\
      ((exists u, ui_generatedImage w' = Some u /\ ui_isComposite w' = false /\
                  ui_error w' = ui_error w)
       \/ (exists u, ui_generatedImage w' = Some u /\ ui_isComposite w' = true /\
                     ui_error w' = Some Hook.COMPOSITE_NOTICE))
  | Thrown => same_hook w w'
  | OutOfFuel => False
  end.

(** The same after the [catch] block. *)
Definition caught_ends (o : Outcome unit) (w w' : World) : Prop :=
  o = Returned tt /\
  inFlight w' = inFlight w /\ ui_isGenerating w' = ui_isGenerating w /\
  rateLimiter w' = rateLimiter w /\
  ((ui_generatedImage w' = None /\ ui_isComposite w' = false /\
    cacheRef w' = cacheRef w /\ exists msg, ui_error w' = Some msg)
   \/ (exists u, ui_generatedImage w' = Some u /\ ui_isComposite w' = false /\
                 ui_error w' = ui_error w)
   \/ (exists u, ui_generatedImage w' = Some u /\ ui_isComposite w' = true /\
                 ui_error w' = Some Hook.COMPOSITE_NOTICE)).

(** The mode of a hook call. *)
Definition mode_of (c : Hook.Call) : nat :=
  match c with
  | Hook.CallOutfit _ _ => 0%nat
  | Hook.CallNano _ => 1%nat
  | Hook.CallTransfer _ => 2%nat
  end.

(** [clearGeneratedImage()] of the hook. *)
Definition clearGeneratedImage (w : World) : World :=
  setError None (setIsComposite false (setGeneratedImage None w)).

(** The moves of the page: a step of the hook, or the preview cleared. *)
Inductive page_step : Stepwise.System -> Stepwise.System -> Prop :=
| page_hook (s s' : Stepwise.System) : Stepwise.step s s' -> page_step s s'
| page_clear (s : Stepwise.System) :
    page_step s {| Stepwise.world := clearGeneratedImage (Stepwise.world s);
                   Stepwise.suspended := Stepwise.suspended s |}.

(** The events a call adds that reach the network or a store. *)
Definition outside_event (ev : Event) : bool :=
  match ev with
  | EvDbSelect _ _ | EvFetch _ | EvGenerateContent _ | EvStorageUpload _ _
  | EvDbUpsert _ _ _ | EvDbInsert _ _ | EvCreateComposite _ _ => true
  | _ => false
  end.

(** An environment with another key, and one with other image fetches. *)
Definition with_apiKey (k : string) (env : Env) : Env :=
  {| apiKey := k; date_now := date_now env; db_select := db_select env;
     fetch_base64 := fetch_base64 env; generateContent := generateContent env;
     JSON_stringify := JSON_stringify env; atob := atob env;
     storage_upload := storage_upload env;
     storage_publicUrl := storage_publicUrl env;
     db_upsert := db_upsert env; db_insert := db_insert env;
     createComposite := createComposite env;
     createObjectURL := createObjectURL env |}.

Definition with_fetch (f : string -> option string) (env : Env) : Env :=
  {| apiKey := apiKey env; date_now := date_now env; db_select := db_select env;
     fetch_base64 := f; generateContent := generateContent env;
     JSON_stringify := JSON_stringify env; atob := atob env;
     storage_upload := storage_upload env;
     storage_publicUrl := storage_publicUrl env;
     db_upsert := db_upsert env; db_insert := db_insert env;
     createComposite := createComposite env;
     createObjectURL := createObjectURL env |}.

(** The shape of a result: success with an image and no error, or failure
    with an error and no image. *)
Definition well_formed (res : OutfitGenerationResult) : Prop :=
  (exists u, res = result_ok u) \/ (exists msg, res = result_fail msg).

(** What the [catch] block of each mode shows. *)
Definition failure_notice (c : Hook.Call) : string :=
  match c with
  | Hook.CallOutfit _ _ => "Failed to generate outfit. Please try again."
  | Hook.CallNano _ => "Failed to generate nano outfit. Please try again."
  | Hook.CallTransfer _ => "Failed to transfer outfit. Please try again."
  end.

(** The generator request a call of the hook makes. *)
Definition request_of (env : Env) (c : Hook.Call) : Request :=
  match c with
  | Hook.CallOutfit top bottom =>
      ReqOutfit (itemUrl top) (itemUrl bottom) DEFAULT_BODY_PATH
        (Some (id top)) (Some (id bottom))
  | Hook.CallNano occasion =>
      ReqNano DEFAULT_BODY_PATH (OutfitGenerator.nanoPrompt occasion)
  | Hook.CallTransfer f => ReqTransfer (createObjectURL env f) DEFAULT_BODY_PATH
  end.

(** The source tag of the append-only record, by mode. *)
Definition source_of (c : Hook.Call) : string :=
  match c with
  | Hook.CallOutfit _ _ => "select"
  | Hook.CallNano _ => "nano"
  | Hook.CallTransfer _ => "transfer"
  end.

(* ===================================================================== *)
(** ** The retry hint: duration strings *)
(* ===================================================================== *)

Example retry_2_5s :
  getRetryMsFromError (retry_info_error (JStr "2.5s")) 20000 = 2500.
Proof. reflexivity. Qed.

Example retry_array_2_5s :
  getRetryMsFromError (retry_info_error (JArr [JStr "17.1234s"])) 20000 = 17123.
Proof. reflexivity. Qed.

Example retry_nohint :
  getRetryMsFromError (JObj [("code", JNum 429)]) 20000 = 20000.
Proof. reflexivity. Qed.

Lemma span_digits_split s ds tl :
  span_digits s = (ds, tl) ->
  s = ds +:+ tl /\ all_digits ds = true.
Proof.
  revert ds tl. induction s as [|c s IH]; intros ds tl H; simpl in H.
  - inversion H; subst. split; reflexivity.
  - destruct (is_digit c) eqn:Hc.
    + destruct (span_digits s) as [ds' tl'] eqn:Hs.
      inversion H; subst. destruct (IH ds' tl eq_refl) as [-> Hd].
      split; [reflexivity | simpl; rewrite Hc; exact Hd].
    + inversion H; subst. split; reflexivity.
Qed.

Lemma span_digits_app ds c tl :
  all_digits ds = true -> is_digit c = false ->
  span_digits (ds +:+ String c tl) = (ds, String c tl).
Proof.
  intros Hd Hc. induction ds as [|d ds IH]; simpl in *.
  - rewrite Hc. reflexivity.
  - apply andb_true_iff in Hd as [Hd1 Hd2].
    rewrite Hd1, (IH Hd2). reflexivity.
Qed.

Lemma eqb_empty_false (s : string) : s <> "" -> String.eqb s "" = false.
Proof. intros H. apply String.eqb_neq. exact H. Qed.

(** The matcher accepts exactly the duration strings. *)
Lemma exec_retry_regex_duration (s : string) :
  (exists m, exec_retry_regex s = Some m) <-> duration_text s.
Proof.
  split.
  - intros [m Hm]. unfold exec_retry_regex in Hm.
    destruct (span_digits s) as [sec rest] eqn:Hs.
    apply span_digits_split in Hs as [-> Hsec].
    destruct (String.eqb sec "") eqn:He; [discriminate|].
    apply String.eqb_neq in He.
    exists sec. split; [exact Hsec|]. split; [exact He|].
    destruct rest as [|c rest]; [discriminate|].
    destruct (Ascii.eqb c "s") eqn:Hcs.
    + apply Ascii.eqb_eq in Hcs; subst c.
      destruct rest; [left; reflexivity | discriminate].
    + destruct (Ascii.eqb c ".") eqn:Hcd.
      * apply Ascii.eqb_eq in Hcd; subst c.
        destruct (span_digits rest) as [frac tl] eqn:Hf.
        apply span_digits_split in Hf as [-> Hfrac].
        destruct (String.eqb frac "") eqn:Hfe; [discriminate|].
        apply String.eqb_neq in Hfe.
        destruct (String.eqb tl "s") eqn:Htl; [|discriminate].
        apply String.eqb_eq in Htl; subst tl.
        right. exists frac. repeat split; assumption.
      * exfalso. apply Ascii.eqb_neq in Hcs, Hcd.
        destruct c as [[] [] [] [] [] [] [] []]; try discriminate; congruence.
  - intros (sec & Hsec & Hne & [-> | (frac & Hfrac & Hfne & ->)]);
      unfold exec_retry_regex.
    + rewrite (span_digits_app sec "s" "" Hsec eq_refl).
      rewrite (eqb_empty_false _ Hne). eexists; reflexivity.
    + change ("." +:+ frac +:+ "s") with (String "." (frac +:+ "s")).
      rewrite (span_digits_app sec "." _ Hsec eq_refl).
      rewrite (eqb_empty_false _ Hne).
      rewrite (span_digits_app frac "s" "" Hfrac eq_refl).
      rewrite (eqb_empty_false _ Hfne). simpl. eexists; reflexivity.
Qed.

Lemma append_nonempty (a b : string) : a <> "" -> String.eqb (a +:+ b) "" = false.
Proof. destruct a; [congruence | reflexivity]. Qed.

(** A hint of whole seconds is that many thousand milliseconds; of a
    fractional hint the first three digits after the point count, padded
    with zeros on the right. *)
Lemma getRetryMsFromError_duration (err d : JsVal) (sec frac : string) (fallbackMs : Z) :
  find_retry_detail err = Normal d ->
  all_digits sec = true -> sec <> "" ->
  all_digits frac = true -> frac <> "" ->
  (get d "retryDelay" = JStr (sec +:+ "s") ->
   getRetryMsFromError err fallbackMs = parseInt_digits sec * 1000)
  /\ (get d "retryDelay" = JStr (sec +:+ "." +:+ frac +:+ "s") ->
      getRetryMsFromError err fallbackMs
      = parseInt_digits sec * 1000 + parseInt_digits (slice3_padEnd frac)).
Proof.
  intros Hfind Hsec Hne Hfrac Hfne.
  unfold getRetryMsFromError, getRetryMs_try. rewrite Hfind.
  split; intros ->; unfold truthy, to_string, exec_retry_regex;
    rewrite (append_nonempty _ _ Hne); simpl negb; cbv iota.
  - rewrite (span_digits_app sec "s" "" Hsec eq_refl).
    rewrite (eqb_empty_false _ Hne). rewrite Z.add_0_r. reflexivity.
  - change ("." +:+ frac +:+ "s") with (String "." (frac +:+ "s")).
    rewrite (span_digits_app sec "." _ Hsec eq_refl).
    rewrite (eqb_empty_false _ Hne).
    rewrite (span_digits_app frac "s" "" Hfrac eq_refl).
    rewrite (eqb_empty_false _ Hfne). reflexivity.
Qed.

(** Without a parseable hint the extraction ends in the fallback, be it
    because the search for the detail threw, found nothing, or found a
    delay that is not a duration. *)
Lemma getRetryMsFromError_fallback (err : JsVal) (fallbackMs : Z) :
  ~ parseable_hint err -> getRetryMsFromError err fallbackMs = fallbackMs.
Proof.
  intros Hno. unfold getRetryMsFromError, getRetryMs_try.
  destruct (find_retry_detail err) as [d|] eqn:Hfind; [|reflexivity].
  destruct (truthy (get d "retryDelay")); [|reflexivity].
  destruct (exec_retry_regex (to_string (get d "retryDelay")))
    as [[m1 m2]|] eqn:Hexec; [|reflexivity].
  exfalso. apply Hno. exists d. split; [exact Hfind|].
  apply exec_retry_regex_duration. eexists; exact Hexec.
Qed.

(** C9. Extracting the base delay from an error whose selected RetryInfo
    detail carries the delay string "2.5s" gives exactly 2500 ms, whatever
    the fallback; and for any error without a parseable retry hint the
    extraction gives the fallback, 20000 ms at every call site.  The
    function is total: an exception inside its [try] ends in the fallback. *)
Theorem getRetryMsFromError_hint_or_fallback :
  (forall (err d : JsVal) (fallbackMs : Z),
      find_retry_detail err = Normal d ->
      get d "retryDelay" = JStr "2.5s" ->
      getRetryMsFromError err fallbackMs = 2500)
  /\ (forall (err : JsVal) (fallbackMs : Z),
         ~ parseable_hint err ->
         getRetryMsFromError err fallbackMs = fallbackMs)
  /\ (forall err : JsVal,
         ~ parseable_hint err -> getRetryMsFromError err 20000 = 20000).
Proof.
  split; [|split].
  - intros err d fb Hfind Hdelay.
    unfold getRetryMsFromError, getRetryMs_try.
    rewrite Hfind, Hdelay. reflexivity.
  - exact getRetryMsFromError_fallback.
  - intros err. apply getRetryMsFromError_fallback.
Qed.

(* ===================================================================== *)
(** ** A small program logic for the operations *)
(* ===================================================================== *)

Section SpecRules.
Context {P : Event -> Prop} {R : World -> World -> Prop}.
Hypothesis R_refl : forall w, R w w.
Hypothesis R_trans : forall a b c, R a b -> R b c -> R a c.
Hypothesis R_log : forall ev w, R w (log ev w).

Lemma spec_ret {A} b (a : A) : Spec b P R (ret a).
Proof using R_refl.
  intros w. exists (Returned a), w, []. rewrite app_nil_r.
  repeat split; auto; try exact I; try (constructor; auto).
Qed.

Lemma spec_throw {A} : Spec false P R (@throw A).
Proof using R_refl.
  intros w. exists Thrown, w, []. rewrite app_nil_r.
  repeat split; auto.
Qed.

Lemma spec_emit b ev : P ev -> Spec b P R (emit ev).
Proof using R_log.
  intros Hev w. exists (Returned tt), (log ev w), [ev].
  repeat split; auto; try exact I; try (constructor; auto).
Qed.

Lemma spec_update b (f : World -> World) :
  (forall w, R w (f w)) -> (forall w, trace (f w) = trace w) ->
  Spec b P R (update f).
Proof using Type.
  intros HR Ht w. exists (Returned tt), (f w), [].
  rewrite app_nil_r. repeat split; auto; try exact I; try (constructor; auto).
Qed.

Lemma spec_read {A} b (f : World -> A) : Spec b P R (read f).
Proof using R_refl.
  intros w. exists (Returned (f w)), w, []. rewrite app_nil_r.
  repeat split; auto; try exact I; try (constructor; auto).
Qed.

Lemma spec_bind {A B} b (m : M A) (k : A -> M B) :
  Spec b P R m -> (forall a, Spec b P R (k a)) -> Spec b P R (m ≫= k).
Proof using R_trans.
  intros Hm Hk w. unfold mbind, M_bind, bind.
  destruct (Hm w) as (r & w1 & evs1 & -> & Hok & HR & Ht & HP).
  destruct r as [a | |]; simpl in Hok.
  - destruct (Hk a w1) as (r2 & w2 & evs2 & -> & Hok2 & HR2 & Ht2 & HP2).
    exists r2, w2, (evs1 ++ evs2). repeat split; eauto.
    + rewrite Ht2, Ht, app_assoc. reflexivity.
    + apply Forall_app; auto.
  - exists Thrown, w1, evs1. repeat split; auto.
  - contradiction.
Qed.

Lemma spec_weaken {A} b (m : M A) : Spec true P R m -> Spec b P R m.
Proof using Type.
  intros Hm w. destruct (Hm w) as (r & w1 & evs & E & Hok & rest).
  exists r, w1, evs. split; [exact E|]. split; [|exact rest].
  destruct r; simpl in *; auto. discriminate.
Qed.

Lemma spec_try_catch {A} b b' (m h : M A) :
  Spec b' P R m -> Spec b P R h -> Spec b P R (try_catch m h).
Proof using R_trans.
  intros Hm Hh w. unfold try_catch.
  destruct (Hm w) as (r & w1 & evs1 & -> & Hok & HR & Ht & HP).
  destruct r as [a | |]; simpl in Hok.
  - exists (Returned a), w1, evs1. repeat split; auto; try exact I; try (constructor; auto).
  - destruct (Hh w1) as (r2 & w2 & evs2 & -> & Hok2 & HR2 & Ht2 & HP2).
    exists r2, w2, (evs1 ++ evs2). repeat split; eauto.
    + rewrite Ht2, Ht, app_assoc. reflexivity.
    + apply Forall_app; auto.
  - contradiction.
Qed.

Lemma spec_try_finally {A} b (m : M A) (f : World -> World) evs :
  Spec b P R m ->
  (forall w, R w (f w)) -> (forall w, trace (f w) = trace w ++ evs) ->
  Forall P evs ->
  Spec b P R (Hook.try_finally m f).
Proof using R_trans.
  intros Hm HR Ht HP w. unfold Hook.try_finally.
  destruct (Hm w) as (r & w1 & evs1 & -> & Hok & HR1 & Ht1 & HP1).
  destruct r as [a | |]; simpl in Hok; try contradiction.
  - exists (Returned a), (f w1), (evs1 ++ evs). repeat split; eauto.
    + rewrite Ht, Ht1, app_assoc. reflexivity.
    + apply Forall_app; auto.
  - exists Thrown, (f w1), (evs1 ++ evs). repeat split; eauto.
    + rewrite Ht, Ht1, app_assoc. reflexivity.
    + apply Forall_app; auto.
Qed.
End SpecRules.

Lemma spec_mono {A} b (P P' : Event -> Prop) (R R' : World -> World -> Prop)
    (m : M A) :
  (forall ev, P ev -> P' ev) -> (forall w w', R w w' -> R' w w') ->
  Spec b P R m -> Spec b P' R' m.
Proof.
  intros HP HR Hm w.
  destruct (Hm w) as (r & w1 & evs & E & Hok & HR1 & Ht & HP1).
  exists r, w1, evs. repeat split; auto.
  eapply Forall_impl; eauto.
Qed.

Lemma same_hook_refl w : same_hook w w.
Proof. reflexivity. Qed.

Lemma same_hook_trans a b c : same_hook a b -> same_hook b c -> same_hook a c.
Proof. unfold same_hook. congruence. Qed.

Lemma same_hook_log ev w : same_hook w (log ev w).
Proof. reflexivity. Qed.

(** Breaks a computation down along its binds and case distinctions. *)
Ltac spec_step RR RT RL :=
  lazymatch goal with
  | |- Spec _ _ _ (_ ≫= _) => apply (spec_bind RT); [|intros]
  | |- Spec _ _ _ (ret _) => apply (spec_ret RR)
  | |- Spec _ _ _ (mret _) => apply (spec_ret RR)
  | |- Spec _ _ _ throw => apply (spec_throw RR)
  | |- Spec _ _ _ (emit _) => apply (spec_emit RL); exact I
  | |- Spec _ _ _ (read _) => apply (spec_read RR)
  | |- Spec _ _ _ (update _) =>
      apply spec_update; [intros; reflexivity | intros; reflexivity]
  | |- Spec _ _ _ (try_catch _ _) => eapply (spec_try_catch RT)
  | |- Spec _ _ _ (match ?x with _ => _ end) => destruct x eqn:?
  | |- Spec _ _ _ (let '(_, _) := ?x in _) => destruct x eqn:?
  end.

Ltac spec_gen :=
  repeat spec_step same_hook_refl same_hook_trans same_hook_log.

Lemma toBase64_spec env path :
  Spec false generator_event same_hook (toBase64 env path).
Proof. unfold toBase64. spec_gen. Qed.

Lemma toBase64_all_spec env paths :
  Spec false generator_event same_hook (toBase64_all env paths).
Proof.
  unfold toBase64_all. spec_gen.
  induction paths as [|p ps IH]; simpl; spec_gen. exact IH.
Qed.

Lemma getCachedComposite_spec b env t bt :
  Spec b generator_event same_hook (getCachedComposite env t bt).
Proof. unfold getCachedComposite. spec_gen. Qed.

Lemma persist_composite_spec env dataUrl t b :
  Spec false generator_event same_hook (persist_composite env dataUrl t b).
Proof.
  unfold persist_composite, dataUrlToFile, uploadImage, saveCachedComposite.
  spec_gen.
Qed.

(** The loop never runs out of budget when started with as many
    iterations as attempts are left, and it never throws. *)
Lemma generateContent_retry_spec env fuel attempt :
  (maxAttempts - 1 - attempt < fuel)%nat ->
  Spec true generator_event same_hook (generateContent_retry env fuel attempt).
Proof.
  revert attempt. induction fuel as [|fuel IH]; intros attempt Hfuel.
  - lia.
  - simpl. spec_gen.
    apply IH. apply orb_false_iff in Heqb as [_ Hlt].
    unfold maxAttempts in *.
    destruct attempt as [|[|?]]; try discriminate; simpl in *; lia.
Qed.

Lemma generateOutfitInternal_spec env topPath bottomPath bodyPath topId bottomId :
  Spec false generator_event same_hook
    (generateOutfitInternal env topPath bottomPath bodyPath topId bottomId).
Proof.
  unfold generateOutfitInternal. spec_gen;
    try apply getCachedComposite_spec;
    try apply persist_composite_spec;
    try apply toBase64_all_spec;
    try (apply spec_weaken, generateContent_retry_spec; unfold maxAttempts; lia).
Qed.

Lemma generateNanoOutfitInternal_spec env bodyPath customPrompt :
  Spec false generator_event same_hook
    (generateNanoOutfitInternal env bodyPath customPrompt).
Proof.
  unfold generateNanoOutfitInternal. spec_gen;
    try apply toBase64_spec;
    try (apply spec_weaken, generateContent_retry_spec; unfold maxAttempts; lia).
Qed.

Lemma generateOutfitTransferInternal_spec env inspirationImagePath bodyPath :
  Spec false generator_event same_hook
    (generateOutfitTransferInternal env inspirationImagePath bodyPath).
Proof.
  unfold generateOutfitTransferInternal. spec_gen;
    try apply toBase64_all_spec;
    try (apply spec_weaken, generateContent_retry_spec; unfold maxAttempts; lia).
Qed.

(* ===================================================================== *)
(** ** The retry policy *)
(* ===================================================================== *)

Arguments cacheKeyFor : simpl never.
Arguments nanoCacheKey : simpl never.
Arguments transferCacheKey : simpl never.
Arguments length_str : simpl never.
Arguments Z_to_string : simpl never.
Arguments isQuotaError : simpl never.
Arguments getRetryMsFromError : simpl never.
Arguments error_message : simpl never.
Arguments image_of_parts : simpl never.
Arguments both_ids : simpl never.
Arguments str_truthy : simpl never.
Arguments opt_truthy : simpl never.
Arguments split_comma : simpl never.
Arguments String.append : simpl never.
Arguments String.prefix : simpl never.
Arguments Z.pow : simpl never.
Arguments Z.mul : simpl never.
Arguments Z.sub : simpl never.

(** Case analysis on the innermost scrutinee of a hypothesis. *)
Ltac break_in H :=
  match type of H with
  | context [match ?x with _ => _ end] =>
      lazymatch x with
      | context [match _ with _ => _ end] => fail
      | _ => destruct x eqn:?
      end
  end.

Ltac unfold_generator H :=
  unfold generate, generateOutfitInternal, generateNanoOutfitInternal,
    generateOutfitTransferInternal, persist_composite, dataUrlToFile,
    uploadImage, saveCachedComposite, getCachedComposite, toBase64_all,
    toBase64, maxAttempts, mbind, M_bind, bind, try_catch, emit, update,
    read, ret, throw, diverge in H.

Lemma ext_nil {A} (l evs : list A) : l = l ++ evs -> [] = evs.
Proof.
  intros H. rewrite <- (app_nil_r l) in H at 1.
  apply app_inv_head in H. exact H.
Qed.

(** Reads the new events off a run that was reduced to nested [log]s. *)
Ltac read_trace Htr evs :=
  simpl in Htr; rewrite <- ?app_assoc in Htr;
  first [apply ext_nil in Htr | apply app_inv_head in Htr];
  simpl in Htr; subst evs.

Ltac all_paths Hrun :=
  simpl in Hrun; repeat (break_in Hrun; simpl in Hrun);
  inversion Hrun; subst; clear Hrun.



(* ===================================================================== *)
(** ** The hook: what a continuation may do *)
(* ===================================================================== *)

Lemma keeps_refl key w : keeps key w w.
Proof. split; auto. Qed.

Lemma keeps_trans key a b c : keeps key a b -> keeps key b c -> keeps key a c.
Proof.
  intros [H1 H2] [H3 H4]. split; [congruence|].
  intros k Hk. rewrite (H4 k Hk). auto.
Qed.

Lemma keeps_log key ev w : keeps key w (log ev w).
Proof. split; auto. Qed.

Lemma same_hook_keeps key w w' : same_hook w w' -> keeps key w w'.
Proof.
  unfold same_hook, hook_view. intros H. inversion H. split; [auto|].
  intros k _. congruence.
Qed.

Lemma generator_async_event ev : generator_event ev -> async_event ev.
Proof. destruct ev; simpl; auto. Qed.

Lemma generator_in_hook {A} key (m : M A) :
  Spec false generator_event same_hook m -> Spec false async_event (keeps key) m.
Proof.
  apply spec_mono; [apply generator_async_event | apply same_hook_keeps].
Qed.

Ltac keeps_update :=
  intros; split; [reflexivity | intros; simpl; try reflexivity;
                                rewrite lookup_insert_ne; auto].

Ltac spec_hook key :=
  repeat first
    [ lazymatch goal with
      | |- Spec _ _ _ (update _) =>
          apply spec_update; [keeps_update | intros; reflexivity]
      | |- Spec _ _ _ (Hook.store _ _ _) =>
          apply spec_update; [keeps_update | intros; reflexivity]
      end
    | spec_step (keeps_refl key) (keeps_trans key) (keeps_log key) ].

Lemma persist_generated_spec key env u prefix source :
  Spec false async_event (keeps key) (Hook.persist_generated env u prefix source).
Proof.
  unfold Hook.persist_generated, Hook.dataUrlToFile, uploadImage,
    saveGeneratedOutfit.
  spec_hook key.
Qed.

Lemma show_failure_spec key logMsg uiMsg :
  Spec true async_event (keeps key) (Hook.show_failure logMsg uiMsg).
Proof. unfold Hook.show_failure. spec_hook key. Qed.

Lemma generateOutfit_try_spec env top bottom key :
  Spec false async_event (keeps key) (Hook.generateOutfit_try env top bottom key).
Proof.
  unfold Hook.generateOutfit_try, OutfitGenerator.generateOutfit.
  spec_hook key.
  apply generator_in_hook, generateOutfitInternal_spec.
Qed.

Lemma generateNanoOutfit_try_spec env occasion key :
  Spec false async_event (keeps key) (Hook.generateNanoOutfit_try env occasion key).
Proof.
  unfold Hook.generateNanoOutfit_try, OutfitGenerator.generateNanoOutfit.
  spec_hook key; try apply persist_generated_spec.
  apply generator_in_hook, generateNanoOutfitInternal_spec.
Qed.

Lemma generateOutfitTransfer_try_spec env inspirationUrl key :
  Spec false async_event (keeps key)
    (Hook.generateOutfitTransfer_try env inspirationUrl key).
Proof.
  unfold Hook.generateOutfitTransfer_try, OutfitGenerator.generateOutfitTransfer.
  spec_hook key; try apply persist_generated_spec.
  apply generator_in_hook, generateOutfitTransferInternal_spec.
Qed.

(** Every continuation runs to its end: it returns, having appended only
    continuation events before its [finally] block. *)
Lemma resume_post env p w :
  exists w1 evs,
    Hook.resume env p w = (Returned tt, finalizer p w1) /\
    keeps (pending_key p) w w1 /\
    trace w1 = trace w ++ evs /\ Forall async_event evs.
Proof.
  assert (Hgen : forall (m h : M unit) f key,
             Spec false async_event (keeps key) m ->
             Spec true async_event (keeps key) h ->
             exists w1 evs,
               Hook.try_finally (try_catch m h) f w = (Returned tt, f w1) /\
               keeps key w w1 /\
               trace w1 = trace w ++ evs /\ Forall async_event evs).
  { intros m h f key Hm Hh.
    destruct (spec_try_catch (keeps_trans key) true false m h Hm Hh w)
      as (r & w1 & evs & E & Hok & HR & Ht & HP).
    exists w1, evs. unfold Hook.try_finally. rewrite E.
    destruct r as [[] | |]; simpl in Hok; try discriminate; try contradiction.
    auto. }
  destruct p as [top bottom key | occasion key | f u key]; simpl.
  - apply Hgen; [apply generateOutfit_try_spec | apply show_failure_spec].
  - apply Hgen; [apply generateNanoOutfit_try_spec | apply show_failure_spec].
  - apply (Hgen _ _ (fun w => log (EvRevokeObjectURL u)
                                (set_inFlight false (setIsGenerating false w))));
      [apply generateOutfitTransfer_try_spec | apply show_failure_spec].
Qed.

(* ===================================================================== *)
(** ** The in-flight guard *)
(* ===================================================================== *)

Lemma start_in_flight env c w :
  inFlight w = true ->
  Hook.start env c w = (log (EvConsoleWarn Hook.IN_FLIGHT_WARNING) w, None).
Proof.
  intros H. destruct c; simpl;
    unfold Hook.generateOutfit_sync, Hook.generateNanoOutfit_sync,
      Hook.generateOutfitTransfer_sync; rewrite H; reflexivity.
Qed.

Ltac unfold_sync H :=
  unfold Hook.start, Hook.generateOutfit_sync, Hook.generateNanoOutfit_sync,
    Hook.generateOutfitTransfer_sync, Hook.canGenerate, Hook.show_cached,
    Hook.show_denied, Hook.begin_generation, Hook.recordCall in H.

Lemma start_idle env c w w' p :
  inFlight w = false ->
  Hook.start env c w = (w', p) ->
  inFlight w' = match p with Some _ => true | None => false end.
Proof.
  intros Hidle Hs. destruct c; unfold_sync Hs; rewrite Hidle in Hs;
    simpl in Hs; repeat (break_in Hs; simpl in Hs);
    inversion Hs; subst; reflexivity.
Qed.

Lemma resume_clears env p w :
  exists w', Hook.resume env p w = (Returned tt, w') /\ inFlight w' = false.
Proof.
  destruct (resume_post env p w) as (w1 & evs & E & _).
  exists (finalizer p w1). split; [exact E|]. destruct p; reflexivity.
Qed.

(* ===================================================================== *)
(** ** Await by await: agreement with the uninterrupted functions *)
(* ===================================================================== *)

Lemma Res_induction {A} (P : Stepwise.Res A -> Prop) :
  (forall o, P (Stepwise.Fin o)) ->
  (forall k, (forall w, P (fst (k w))) -> P (Stepwise.Wait k)) ->
  forall r, P r.
Proof.
  intros Hf Hw. fix IH 1. intros [o|k]; [apply Hf|].
  apply Hw. intros w. destruct (k w) as [r1 w2]. simpl. apply IH.
Qed.

Lemma flat_bind_res {A B} (r : Stepwise.Res A) (f : A -> Stepwise.T B) (w : World) :
  Stepwise.flat_res (fst (Stepwise.bind_res r f w)) (snd (Stepwise.bind_res r f w))
  = bind (Stepwise.flat_res r) (fun a => Stepwise.flatten (f a)) w.
Proof.
  revert w. induction r as [o|k IH] using Res_induction; intros w.
  - unfold bind. destruct o as [a| |]; simpl; try reflexivity.
    unfold Stepwise.flatten. destruct (f a w); reflexivity.
  - simpl. unfold bind in *. specialize (IH w).
    destruct (k w) as [r1 w1]. simpl in *. specialize (IH w1).
    destruct (Stepwise.bind_res r1 f w1). exact IH.
Qed.

Lemma agrees_ret {A} (a : A) : agrees (Stepwise.tret a) (ret a).
Proof. intros w. reflexivity. Qed.

Lemma agrees_sync {A} (m : M A) : agrees (Stepwise.sync m) m.
Proof.
  intros w. unfold Stepwise.flatten, Stepwise.sync.
  destruct (m w); reflexivity.
Qed.

Lemma agrees_bind {A B} (t : Stepwise.T A) (m : M A)
    (f : A -> Stepwise.T B) (g : A -> M B) :
  agrees t m -> (forall a, agrees (f a) (g a)) -> agrees (t ≫= f) (m ≫= g).
Proof.
  intros Ht Hf w. unfold mbind, Stepwise.T_bind, M_bind.
  unfold Stepwise.flatten, Stepwise.tbind.
  specialize (Ht w). unfold Stepwise.flatten in Ht.
  destruct (t w) as [r w1]. 
  pose proof (flat_bind_res r f w1) as E.
  destruct (Stepwise.bind_res r f w1) as [r2 w2]. simpl in E. rewrite E.
  unfold bind. rewrite Ht. destruct (m w) as [[a| |] w3]; try reflexivity.
  apply Hf.
Qed.

Lemma agrees_await (ev : Event) : agrees (Stepwise.await ev) (emit ev).
Proof. intros w. reflexivity. Qed.

Lemma agrees_pause_then {A} (t : Stepwise.T A) (m : M A) :
  agrees t m -> agrees (Stepwise.pause ;; t) m.
Proof.
  intros Ht w. specialize (Ht w).
  unfold mbind, Stepwise.T_bind, Stepwise.flatten, Stepwise.tbind, Stepwise.pause in *.
  simpl. destruct (t w); exact Ht.
Qed.

Lemma flat_catch_res {A} (r : Stepwise.Res A) (h : M A) (w : World) :
  Stepwise.flat_res (fst (Stepwise.catch_res r h w)) (snd (Stepwise.catch_res r h w))
  = try_catch (Stepwise.flat_res r) h w.
Proof.
  revert w. induction r as [o|k IH] using Res_induction; intros w.
  - unfold try_catch. destruct o as [a| |]; simpl; try reflexivity.
    unfold Stepwise.sync. destruct (h w); reflexivity.
  - simpl. unfold try_catch in *. specialize (IH w).
    destruct (k w) as [r1 w1]. simpl in *. specialize (IH w1).
    destruct (Stepwise.catch_res r1 h w1). exact IH.
Qed.

Lemma agrees_catch {A} (t : Stepwise.T A) (m h : M A) :
  agrees t m -> agrees (Stepwise.tcatch t h) (try_catch m h).
Proof.
  intros Ht w. unfold Stepwise.flatten, Stepwise.tcatch.
  specialize (Ht w). unfold Stepwise.flatten in Ht.
  destruct (t w) as [r w1].
  pose proof (flat_catch_res r h w1) as E.
  destruct (Stepwise.catch_res r h w1) as [r2 w2]. simpl in E. rewrite E.
  unfold try_catch. rewrite Ht. reflexivity.
Qed.

Lemma flat_finally_res {A} (r : Stepwise.Res A) (f : World -> World) (w : World) :
  Stepwise.flat_res (fst (Stepwise.finally_res r f w)) (snd (Stepwise.finally_res r f w))
  = Hook.try_finally (Stepwise.flat_res r) f w.
Proof.
  revert w. induction r as [o|k IH] using Res_induction; intros w.
  - unfold Hook.try_finally. destruct o as [a| |]; reflexivity.
  - simpl. unfold Hook.try_finally in *. specialize (IH w).
    destruct (k w) as [r1 w1]. simpl in *. specialize (IH w1).
    destruct (Stepwise.finally_res r1 f w1). exact IH.
Qed.

Lemma agrees_finally {A} (t : Stepwise.T A) (m : M A) (f : World -> World) :
  agrees t m -> agrees (Stepwise.tfinally t f) (Hook.try_finally m f).
Proof.
  intros Ht w. unfold Stepwise.flatten, Stepwise.tfinally.
  specialize (Ht w). unfold Stepwise.flatten in Ht.
  destruct (t w) as [r w1].
  pose proof (flat_finally_res r f w1) as E.
  destruct (Stepwise.finally_res r f w1) as [r2 w2]. simpl in E. rewrite E.
  unfold Hook.try_finally. rewrite Ht. reflexivity.
Qed.

(** Breaks an agreement down along the binds and case distinctions the
    two sides share. *)
Ltac agree_step :=
  lazymatch goal with
  | |- agrees (Stepwise.await _ ≫= _) (emit _ ≫= _) =>
      apply agrees_bind; [apply agrees_await | intros]
  | |- agrees (Stepwise.pause ≫= _) _ => apply agrees_pause_then
  | |- agrees (_ ≫= _) (_ ≫= _) => apply agrees_bind; [|intros]
  | |- agrees (Stepwise.tret _) _ => apply agrees_ret
  | |- agrees (mret _) _ => apply agrees_ret
  | |- agrees (Stepwise.sync _) _ => apply agrees_sync
  | |- agrees (Stepwise.tcatch _ _) (try_catch _ _) => apply agrees_catch
  | |- agrees (Stepwise.tfinally _ _) (Hook.try_finally _ _) => apply agrees_finally
  | |- agrees (match ?x with _ => _ end) _ => destruct x
  | |- agrees (let '(_, _) := ?x in _) _ => destruct x
  end.

Lemma agrees_getCachedComposite env t b :
  agrees (Stepwise.getCachedComposite env t b) (getCachedComposite env t b).
Proof.
  unfold Stepwise.getCachedComposite, getCachedComposite. repeat agree_step.
Qed.

Lemma agrees_saveCachedComposite env t b u :
  agrees (Stepwise.saveCachedComposite env t b u) (saveCachedComposite env t b u).
Proof.
  unfold Stepwise.saveCachedComposite, saveCachedComposite. repeat agree_step.
Qed.

Lemma agrees_saveGeneratedOutfit env u source :
  agrees (Stepwise.saveGeneratedOutfit env u source) (saveGeneratedOutfit env u source).
Proof.
  unfold Stepwise.saveGeneratedOutfit, saveGeneratedOutfit. repeat agree_step.
Qed.

Lemma agrees_uploadImage env bucket file fileName :
  agrees (Stepwise.uploadImage env bucket file fileName)
    (uploadImage env bucket file fileName).
Proof. unfold Stepwise.uploadImage, uploadImage. repeat agree_step. Qed.

Lemma agrees_toBase64 env path :
  agrees (Stepwise.toBase64 env path) (toBase64 env path).
Proof. unfold Stepwise.toBase64, toBase64. repeat agree_step. Qed.

Lemma agrees_toBase64_all env paths :
  agrees (Stepwise.toBase64_all env paths) (toBase64_all env paths).
Proof. unfold Stepwise.toBase64_all, toBase64_all. repeat agree_step. Qed.

Lemma agrees_generateContent_retry env fuel attempt :
  agrees (Stepwise.generateContent_retry env fuel attempt)
    (generateContent_retry env fuel attempt).
Proof.
  revert attempt. induction fuel as [|fuel IH]; intros attempt; simpl.
  - apply agrees_sync.
  - repeat agree_step. apply IH.
Qed.

Lemma agrees_persist_composite env dataUrl t b :
  agrees (Stepwise.persist_composite env dataUrl t b)
    (persist_composite env dataUrl t b).
Proof.
  unfold Stepwise.persist_composite, persist_composite.
  repeat agree_step; first [apply agrees_uploadImage | apply agrees_saveCachedComposite].
Qed.

Ltac agree_gen :=
  repeat first
    [ apply agrees_getCachedComposite
    | apply agrees_persist_composite
    | apply agrees_toBase64
    | apply agrees_toBase64_all
    | apply agrees_generateContent_retry
    | apply agrees_uploadImage
    | apply agrees_saveGeneratedOutfit
    | agree_step ].

Lemma agrees_generateOutfitInternal env topPath bottomPath bodyPath topId bottomId :
  agrees (Stepwise.generateOutfitInternal env topPath bottomPath bodyPath topId bottomId)
    (generateOutfitInternal env topPath bottomPath bodyPath topId bottomId).
Proof.
  unfold Stepwise.generateOutfitInternal, generateOutfitInternal. agree_gen.
Qed.

Lemma agrees_generateNanoOutfitInternal env bodyPath customPrompt :
  agrees (Stepwise.generateNanoOutfitInternal env bodyPath customPrompt)
    (generateNanoOutfitInternal env bodyPath customPrompt).
Proof.
  unfold Stepwise.generateNanoOutfitInternal, generateNanoOutfitInternal. agree_gen.
Qed.

Lemma agrees_generateOutfitTransferInternal env inspirationImagePath bodyPath :
  agrees (Stepwise.generateOutfitTransferInternal env inspirationImagePath bodyPath)
    (generateOutfitTransferInternal env inspirationImagePath bodyPath).
Proof.
  unfold Stepwise.generateOutfitTransferInternal, generateOutfitTransferInternal.
  agree_gen.
Qed.

Lemma agrees_persist_generated env u prefix source :
  agrees (Stepwise.persist_generated env u prefix source)
    (Hook.persist_generated env u prefix source).
Proof.
  unfold Stepwise.persist_generated, Hook.persist_generated. agree_gen.
Qed.

(** Run on without interruption, a continuation is the function that the
    statements about whole calls are about. *)
Lemma agrees_resume env p : agrees (Stepwise.resume env p) (Hook.resume env p).
Proof.
  destruct p; simpl;
    unfold Stepwise.generateOutfit_async, Hook.generateOutfit_async,
      Stepwise.generateNanoOutfit_async, Hook.generateNanoOutfit_async,
      Stepwise.generateOutfitTransfer_async, Hook.generateOutfitTransfer_async,
      Stepwise.generateOutfit_try, Hook.generateOutfit_try,
      Stepwise.generateNanoOutfit_try, Hook.generateNanoOutfit_try,
      Stepwise.generateOutfitTransfer_try, Hook.generateOutfitTransfer_try,
      OutfitGenerator.generateOutfit, OutfitGenerator.generateNanoOutfit,
      OutfitGenerator.generateOutfitTransfer;
    repeat first
      [ apply agrees_generateOutfitInternal
      | apply agrees_generateNanoOutfitInternal
      | apply agrees_generateOutfitTransferInternal
      | apply agrees_persist_generated
      | agree_step ].
Qed.

(* ===================================================================== *)
(** ** Await by await: what each segment does *)
(* ===================================================================== *)

Lemma res_spec_mono {A} (Rw Rw' : World -> World -> Prop)
    (Q Q' : Outcome A -> World -> World -> Prop) (r : Stepwise.Res A) :
  (forall w w', Rw w w' -> Rw' w w') ->
  (forall o w w', Q o w w' -> Q' o w w') ->
  forall w w', Stepwise.res_spec Rw Q r w w' -> Stepwise.res_spec Rw' Q' r w w'.
Proof.
  intros HR HQ. induction r as [o|k IH] using Res_induction; intros w w' H; simpl in *.
  - auto.
  - destruct H as [H1 H2]. split; [auto|]. intros w2. apply IH, H2.
Qed.

Lemma tspec_mono {A} (Rw Rw' : World -> World -> Prop)
    (Q Q' : Outcome A -> World -> World -> Prop) (t : Stepwise.T A) :
  (forall w w', Rw w w' -> Rw' w w') ->
  (forall o w w', Q o w w' -> Q' o w w') ->
  Stepwise.TSpec Rw Q t -> Stepwise.TSpec Rw' Q' t.
Proof.
  intros HR HQ Ht w. eapply res_spec_mono; [exact HR | exact HQ | apply Ht].
Qed.

(** The first segment of what is left may start earlier, after segments
    that left the hook's state alone. *)
Lemma res_spec_pre {A} (Q : Outcome A -> World -> World -> Prop)
    (r : Stepwise.Res A) (w0 w1 w2 : World) :
  (forall o a b c, same_hook a b -> Q o b c -> Q o a c) ->
  same_hook w0 w1 ->
  Stepwise.res_spec same_hook Q r w1 w2 -> Stepwise.res_spec same_hook Q r w0 w2.
Proof.
  intros HQ H01 H. destruct r as [o|k]; simpl in *.
  - eauto.
  - destruct H as [H12 Hk]. split; [eapply same_hook_trans; eauto | exact Hk].
Qed.

Lemma quiet_ret {A} (a : A) : Quiet (Stepwise.tret a).
Proof. intros w. simpl. split; [discriminate | reflexivity]. Qed.

Lemma quiet_sync {A} (P : Event -> Prop) (m : M A) :
  Spec false P same_hook m -> Quiet (Stepwise.sync m).
Proof.
  intros Hm w. destruct (Hm w) as (r & w' & evs & E & Hok & Hsame & _).
  unfold Stepwise.sync. rewrite E. simpl.
  split; [intros ->; exact Hok | exact Hsame].
Qed.

Lemma quiet_pause : Quiet Stepwise.pause.
Proof.
  intros w. simpl. split; [reflexivity|]. intros w1. simpl.
  split; [discriminate | reflexivity].
Qed.

(** After an operation that leaves the hook's state alone. *)
Lemma tspec_bind {A B} (Q : Outcome B -> World -> World -> Prop)
    (t : Stepwise.T A) (f : A -> Stepwise.T B) :
  (forall o a b c, same_hook a b -> Q o b c -> Q o a c) ->
  (forall w w', same_hook w w' -> Q Thrown w w') ->
  Quiet t -> (forall a, Stepwise.TSpec same_hook Q (f a)) ->
  Stepwise.TSpec same_hook Q (t ≫= f).
Proof.
  intros Hpre Hthrown Ht Hf w.
  unfold mbind, Stepwise.T_bind, Stepwise.tbind.
  specialize (Ht w). destruct (t w) as [r w1]. simpl in Ht.
  revert w w1 Ht. induction r as [o|k IH] using Res_induction; intros w w1 Ht.
  - simpl in Ht. destruct Ht as [Hfuel Hsame].
    destruct o as [a| |]; simpl.
    + eapply res_spec_pre; [exact Hpre | exact Hsame | apply Hf].
    + apply Hthrown, Hsame.
    + congruence.
  - simpl in *. destruct Ht as [Hsame Hk]. split; [exact Hsame|].
    intros w2. specialize (Hk w2). specialize (IH w2 w2).
    destruct (k w2) as [r2 w3]. simpl in *. apply IH, Hk.
Qed.

Lemma quiet_bind {A B} (t : Stepwise.T A) (f : A -> Stepwise.T B) :
  Quiet t -> (forall a, Quiet (f a)) -> Quiet (t ≫= f).
Proof.
  apply tspec_bind.
  - intros o a b c Hab [Hfuel Hbc]. split; [exact Hfuel|].
    eapply same_hook_trans; eauto.
  - intros w w' H. split; [discriminate | exact H].
Qed.

Lemma tspec_catch {A} (Q Q' : Outcome A -> World -> World -> Prop)
    (t : Stepwise.T A) (h : M A) :
  (forall o w w', o <> Thrown -> Q o w w' -> Q' o w w') ->
  (forall w w1, Q Thrown w w1 -> Q' (fst (h w1)) w (snd (h w1))) ->
  Stepwise.TSpec same_hook Q t ->
  Stepwise.TSpec same_hook Q' (Stepwise.tcatch t h).
Proof.
  intros Hkeep Hcatch Ht w. unfold Stepwise.tcatch.
  specialize (Ht w). destruct (t w) as [r w1]. simpl in Ht.
  revert w w1 Ht. induction r as [o|k IH] using Res_induction; intros w w1 Ht.
  - simpl in Ht. destruct o as [a| |]; simpl.
    + apply Hkeep; [discriminate | exact Ht].
    + unfold Stepwise.sync. specialize (Hcatch w w1 Ht).
      destruct (h w1) as [o w2]. exact Hcatch.
    + apply Hkeep; [discriminate | exact Ht].
  - simpl in *. destruct Ht as [Hsame Hk]. split; [exact Hsame|].
    intros w2. specialize (Hk w2). specialize (IH w2 w2).
    destruct (k w2) as [r2 w3]. simpl in *. apply IH, Hk.
Qed.

Lemma quiet_catch {A} (P : Event -> Prop) (t : Stepwise.T A) (h : M A) :
  Quiet t -> Spec false P same_hook h -> Quiet (Stepwise.tcatch t h).
Proof.
  intros Ht Hh. eapply tspec_catch; [| |exact Ht].
  - intros o w w' _ H. exact H.
  - intros w w1 [_ Hsame].
    destruct (Hh w1) as (r & w' & evs & E & Hok & Hsame' & _).
    rewrite E. simpl. split; [intros ->; exact Hok|].
    eapply same_hook_trans; eauto.
Qed.

Lemma tspec_finally {A} (Q Q' : Outcome A -> World -> World -> Prop)
    (t : Stepwise.T A) (f : World -> World) :
  (forall o w w', Q o w w' -> o <> OutOfFuel /\ Q' o w (f w')) ->
  Stepwise.TSpec same_hook Q t ->
  Stepwise.TSpec same_hook Q' (Stepwise.tfinally t f).
Proof.
  intros Hfin Ht w. unfold Stepwise.tfinally.
  specialize (Ht w). destruct (t w) as [r w1]. simpl in Ht.
  revert w w1 Ht. induction r as [o|k IH] using Res_induction; intros w w1 Ht.
  - simpl in Ht. destruct (Hfin _ _ _ Ht) as [Hfuel HQ].
    destruct o as [a| |]; simpl; try exact HQ. congruence.
  - simpl in *. destruct Ht as [Hsame Hk]. split; [exact Hsame|].
    intros w2. specialize (Hk w2). specialize (IH w2 w2).
    destruct (k w2) as [r2 w3]. simpl in *. apply IH, Hk.
Qed.

Lemma spec_true_event {A} (m : M A) :
  Spec false generator_event same_hook m -> Spec false (fun _ => True) same_hook m.
Proof. apply spec_mono; auto. Qed.

Lemma quiet_await (ev : Event) : Quiet (Stepwise.await ev).
Proof.
  unfold Stepwise.await. apply quiet_bind; [|intros; apply quiet_pause].
  apply (quiet_sync (fun _ => True)).
  apply (spec_emit same_hook_log). exact I.
Qed.

(** Code without an [await] that leaves the hook's state alone. *)
Ltac quiet_sync_code :=
  apply (quiet_sync (fun _ => True));
  repeat spec_step same_hook_refl same_hook_trans same_hook_log.

Ltac quiet_step :=
  lazymatch goal with
  | |- Quiet (_ ≫= _) => apply quiet_bind; [|intros]
  | |- Quiet (Stepwise.tret _) => apply quiet_ret
  | |- Quiet (mret _) => apply quiet_ret
  | |- Quiet (Stepwise.await _) => apply quiet_await
  | |- Quiet Stepwise.pause => apply quiet_pause
  | |- Quiet (Stepwise.sync _) => quiet_sync_code
  | |- Quiet (Stepwise.tcatch _ _) =>
      apply (quiet_catch (fun _ => True));
      [|repeat spec_step same_hook_refl same_hook_trans same_hook_log]
  | |- Quiet (match ?x with _ => _ end) => destruct x eqn:?
  | |- Quiet (let '(_, _) := ?x in _) => destruct x eqn:?
  end.

Lemma quiet_getCachedComposite env t b : Quiet (Stepwise.getCachedComposite env t b).
Proof. unfold Stepwise.getCachedComposite. repeat quiet_step. Qed.

Lemma quiet_saveCachedComposite env t b u :
  Quiet (Stepwise.saveCachedComposite env t b u).
Proof. unfold Stepwise.saveCachedComposite. repeat quiet_step. Qed.

Lemma quiet_saveGeneratedOutfit env u source :
  Quiet (Stepwise.saveGeneratedOutfit env u source).
Proof. unfold Stepwise.saveGeneratedOutfit. repeat quiet_step. Qed.

Lemma quiet_uploadImage env bucket file fileName :
  Quiet (Stepwise.uploadImage env bucket file fileName).
Proof. unfold Stepwise.uploadImage. repeat quiet_step. Qed.

Lemma quiet_toBase64 env path : Quiet (Stepwise.toBase64 env path).
Proof. unfold Stepwise.toBase64. repeat quiet_step. Qed.

Lemma quiet_toBase64_all env paths : Quiet (Stepwise.toBase64_all env paths).
Proof.
  unfold Stepwise.toBase64_all. repeat quiet_step.
  induction paths as [|p ps IH]; simpl;
    repeat spec_step same_hook_refl same_hook_trans same_hook_log. exact IH.
Qed.

Lemma quiet_generateContent_retry env fuel attempt :
  (maxAttempts - 1 - attempt < fuel)%nat ->
  Quiet (Stepwise.generateContent_retry env fuel attempt).
Proof.
  revert attempt. induction fuel as [|fuel IH]; intros attempt Hfuel.
  - lia.
  - simpl. repeat quiet_step.
    apply IH. apply orb_false_iff in Heqb as [_ Hlt].
    unfold maxAttempts in *.
    destruct attempt as [|[|?]]; try discriminate; simpl in *; lia.
Qed.

Lemma quiet_persist_composite env dataUrl t b :
  Quiet (Stepwise.persist_composite env dataUrl t b).
Proof.
  unfold Stepwise.persist_composite, dataUrlToFile.
  repeat first [apply quiet_uploadImage | apply quiet_saveCachedComposite | quiet_step].
Qed.

Ltac quiet_gen :=
  repeat first
    [ apply quiet_getCachedComposite
    | apply quiet_persist_composite
    | apply quiet_toBase64
    | apply quiet_toBase64_all
    | apply quiet_uploadImage
    | apply quiet_saveGeneratedOutfit
    | apply quiet_generateContent_retry; unfold maxAttempts; lia
    | quiet_step ].

Lemma quiet_generateOutfitInternal env topPath bottomPath bodyPath topId bottomId :
  Quiet (Stepwise.generateOutfitInternal env topPath bottomPath bodyPath topId bottomId).
Proof. unfold Stepwise.generateOutfitInternal. quiet_gen. Qed.

Lemma quiet_generateNanoOutfitInternal env bodyPath customPrompt :
  Quiet (Stepwise.generateNanoOutfitInternal env bodyPath customPrompt).
Proof. unfold Stepwise.generateNanoOutfitInternal. quiet_gen. Qed.

Lemma quiet_generateOutfitTransferInternal env inspirationImagePath bodyPath :
  Quiet (Stepwise.generateOutfitTransferInternal env inspirationImagePath bodyPath).
Proof. unfold Stepwise.generateOutfitTransferInternal. quiet_gen. Qed.

Lemma quiet_persist_generated env u prefix source :
  Quiet (Stepwise.persist_generated env u prefix source).
Proof.
  unfold Stepwise.persist_generated, Hook.dataUrlToFile. quiet_gen.
Qed.

(* ===================================================================== *)
(** ** Await by await: the continuations of the hook *)
(* ===================================================================== *)

Lemma try_ends_pre o a b c : same_hook a b -> try_ends o b c -> try_ends o a c.
Proof.
  intros Hab H. destruct o as [[]| |]; [|eapply same_hook_trans; eauto|exact H].
  unfold same_hook, hook_view, try_ends in *.
  injection Hab as E1 E2 E3 E4 E5 E6 E7.
  rewrite <- E1, <- E4, <- E5, <- E7. exact H.
Qed.

Lemma try_ends_thrown w w' : same_hook w w' -> try_ends Thrown w w'.
Proof. intros H. exact H. Qed.

(** The last segment of a [try] block: code without an [await]. *)
Ltac last_segment :=
  intros w; unfold Stepwise.sync, Hook.store, mbind, M_bind, bind, update, throw;
  simpl; unfold try_ends; simpl;
  first [ reflexivity
        | repeat split; solve [reflexivity | left; eexists; repeat split; reflexivity
                               | right; eexists; repeat split; reflexivity] ].

Ltac try_step :=
  lazymatch goal with
  | |- Stepwise.TSpec same_hook try_ends (Stepwise.sync _) => last_segment
  | |- Stepwise.TSpec same_hook try_ends (_ ≫= _) =>
      apply (tspec_bind try_ends); [exact try_ends_pre | exact try_ends_thrown | |intros]
  | |- Stepwise.TSpec same_hook try_ends (match ?x with _ => _ end) => destruct x eqn:?
  | |- Quiet (Stepwise.await _) => apply quiet_await
  | |- Quiet (Stepwise.persist_generated _ _ _ _) => apply quiet_persist_generated
  | |- Quiet (Stepwise.generateOutfitInternal _ _ _ _ _ _) =>
      apply quiet_generateOutfitInternal
  | |- Quiet (Stepwise.generateNanoOutfitInternal _ _ _) =>
      apply quiet_generateNanoOutfitInternal
  | |- Quiet (Stepwise.generateOutfitTransferInternal _ _ _) =>
      apply quiet_generateOutfitTransferInternal
  end.

Lemma generateOutfit_try_segments env top bottom key :
  Stepwise.TSpec same_hook try_ends (Stepwise.generateOutfit_try env top bottom key).
Proof. unfold Stepwise.generateOutfit_try. repeat try_step. Qed.

Lemma generateNanoOutfit_try_segments env occasion key :
  Stepwise.TSpec same_hook try_ends (Stepwise.generateNanoOutfit_try env occasion key).
Proof. unfold Stepwise.generateNanoOutfit_try. repeat try_step. Qed.

Lemma generateOutfitTransfer_try_segments env inspirationUrl key :
  Stepwise.TSpec same_hook try_ends
    (Stepwise.generateOutfitTransfer_try env inspirationUrl key).
Proof. unfold Stepwise.generateOutfitTransfer_try. repeat try_step. Qed.

Lemma caught_segments (t : Stepwise.T unit) (logMsg uiMsg : string) :
  Stepwise.TSpec same_hook try_ends t ->
  Stepwise.TSpec same_hook caught_ends
    (Stepwise.tcatch t (Hook.show_failure logMsg uiMsg)).
Proof.
  apply tspec_catch.
  - intros [[]| |] w w' Hne H; try congruence; try contradiction.
    destruct H as (H1 & H2 & H3 & H4).
    split; [reflexivity|]. split; [exact H1|]. split; [exact H2|].
    split; [exact H3|]. right. exact H4.
  - intros w w1 H. unfold same_hook, hook_view in H.
    injection H as E1 E2 E3 E4 E5 E6 E7.
    unfold caught_ends. simpl.
    split; [reflexivity|]. split; [exact E1|]. split; [exact E4|].
    split; [exact E7|]. left. split; [reflexivity|]. split; [reflexivity|].
    split; [exact E2|]. eexists. reflexivity.
Qed.

Lemma finished_segments (t : Stepwise.T unit) (f : World -> World) :
  (forall w, hook_view (f w)
             = (false, cacheRef w, ui_generatedImage w, false, ui_error w,
                ui_isComposite w, rateLimiter w)) ->
  Stepwise.TSpec same_hook caught_ends t ->
  Stepwise.TSpec same_hook ends_shown (Stepwise.tfinally t f).
Proof.
  intros Hf. apply tspec_finally.
  intros o w w' (-> & _ & _ & Hrl & Hshown).
  split; [discriminate|]. specialize (Hf w'). unfold hook_view in Hf.
  injection Hf as E1 E2 E3 E4 E5 E6 E7.
  unfold ends_shown. rewrite E1, E2, E3, E4, E5, E6, E7.
  split; [reflexivity|]. split; [reflexivity|]. split; [reflexivity|].
  split; [exact Hrl | exact Hshown].
Qed.

(** Every continuation, segment by segment: a segment that ends at an
    [await] leaves what the hook owns (the flag, the session cache, what
    is shown, the rate limiter) as it found it; the segment that ends the
    continuation returns, lowers the flag and shows the outcome. *)
Lemma resume_segments env p :
  Stepwise.TSpec same_hook ends_shown (Stepwise.resume env p).
Proof.
  destruct p as [top bottom key | occasion key | f u key]; simpl;
    unfold Stepwise.generateOutfit_async, Stepwise.generateNanoOutfit_async,
      Stepwise.generateOutfitTransfer_async;
    (apply finished_segments; [intros; reflexivity|]); apply caught_segments.
  - apply generateOutfit_try_segments.
  - apply generateNanoOutfit_try_segments.
  - apply generateOutfitTransfer_try_segments.
Qed.

(* ===================================================================== *)
(** ** The in-flight guard, await by await *)
(* ===================================================================== *)

Lemma ends_shown_cleared o w w' : ends_shown o w w' -> ends_cleared o w w'.
Proof. intros (Ho & Hfl & _). split; assumption. Qed.

Lemma resume_flag env p :
  Stepwise.TSpec same_hook ends_cleared (Stepwise.resume env p).
Proof.
  eapply tspec_mono; [| |apply resume_segments]; [auto|].
  apply ends_shown_cleared.
Qed.

Lemma same_hook_inFlight w w' : same_hook w w' -> inFlight w' = inFlight w.
Proof. unfold same_hook, hook_view. intros H. injection H. auto. Qed.

Lemma guard_idle_none s :
  guard_invariant s -> inFlight (Stepwise.world s) = false -> Stepwise.suspended s = [].
Proof.
  intros [_ Hflag] Hin. destruct (Stepwise.suspended s) eqn:E; [reflexivity|].
  exfalso. assert (inFlight (Stepwise.world s) = true) by (apply Hflag; discriminate).
  congruence.
Qed.

Lemma guard_busy_one s :
  guard_invariant s -> Stepwise.suspended s <> [] ->
  inFlight (Stepwise.world s) = true /\ exists k, Stepwise.suspended s = [k].
Proof.
  intros [Hlen Hflag] Hne. split; [apply Hflag, Hne|].
  destruct (Stepwise.suspended s) as [|k [|k' rest]]; simpl in *;
    [congruence | eauto | lia].
Qed.

(** The state after one segment of an operation that keeps to [Q]. *)
Lemma guard_after_segment (Q : Outcome unit -> World -> World -> Prop)
    (r : Stepwise.Res unit) (w w' : World) :
  (forall o a b, Q o a b -> ends_cleared o a b) ->
  inFlight w = true ->
  Stepwise.res_spec same_hook Q r w w' ->
  guard_invariant {| Stepwise.world := w'; Stepwise.suspended := Stepwise.waiting r |}
  /\ Forall (Stepwise.TSpec same_hook Q) (Stepwise.waiting r).
Proof.
  intros HQ Hin H. destruct r as [o|k]; simpl in *.
  - apply HQ in H as [_ Hfl]. split; [|constructor].
    split; simpl; [lia|]. rewrite Hfl. split; intros; congruence.
  - destruct H as [Hsame Hk]. apply same_hook_inFlight in Hsame.
    split; [|constructor; [exact Hk | constructor]].
    split; simpl; [lia|]. rewrite Hsame, Hin. split; intros; congruence.
Qed.

Lemma arrive_in_flight env c s :
  inFlight (Stepwise.world s) = true ->
  Stepwise.arrive env c s
  = {| Stepwise.world := log (EvConsoleWarn Hook.IN_FLIGHT_WARNING) (Stepwise.world s);
       Stepwise.suspended := Stepwise.suspended s |}.
Proof.
  intros Hin. unfold Stepwise.arrive. rewrite (start_in_flight env c _ Hin).
  reflexivity.
Qed.

Lemma guard_invariant_step (Q : Outcome unit -> World -> World -> Prop) s s' :
  (forall o a b, Q o a b -> ends_cleared o a b) ->
  (forall env p, Stepwise.TSpec same_hook Q (Stepwise.resume env p)) ->
  guard_invariant s -> Forall (Stepwise.TSpec same_hook Q) (Stepwise.suspended s) ->
  Stepwise.step s s' ->
  guard_invariant s' /\ Forall (Stepwise.TSpec same_hook Q) (Stepwise.suspended s').
Proof.
  intros HQ Hres Hguard Htasks Hstep.
  destruct Hstep as [env c s | s before after k Hsusp].
  - destruct (inFlight (Stepwise.world s)) eqn:Hin.
    + rewrite (arrive_in_flight env c s Hin). split; [|exact Htasks].
      destruct Hguard as [Hlen Hflag]. split; simpl; [exact Hlen|].
      rewrite Hin in *. exact Hflag.
    + pose proof (guard_idle_none s Hguard Hin) as Hnil.
      unfold Stepwise.arrive.
      destruct (Hook.start env c (Stepwise.world s)) as [w0 [p|]] eqn:Hs;
        pose proof (start_idle env c _ _ _ Hin Hs) as Hw0; simpl in Hw0.
      * pose proof (Hres env p w0) as Hseg.
        destruct (Stepwise.resume env p w0) as [r w1]. simpl in Hseg.
        rewrite Hnil. simpl.
        apply (guard_after_segment Q r w0 w1 HQ Hw0 Hseg).
      * rewrite Hnil. split; [|constructor].
        split; simpl; [lia|]. rewrite Hw0. split; intros; congruence.
  - assert (Hne : Stepwise.suspended s <> [])
      by (rewrite Hsusp; destruct before; discriminate).
    destruct (guard_busy_one s Hguard Hne) as (Hin & k0 & Hone).
    rewrite Hone in Hsusp.
    assert (before = [] /\ after = [] /\ k0 = k) as (-> & -> & ->).
    { destruct before as [|x before]; simpl in Hsusp.
      - inversion Hsusp; subst. auto.
      - inversion Hsusp as [[E1 E2]]. destruct before; discriminate E2. }
    rewrite Hone in Htasks. inversion Htasks as [|? ? Hk _]; subst.
    specialize (Hk (Stepwise.world s)). simpl. rewrite app_nil_r.
    apply (guard_after_segment Q _ _ _ HQ Hin Hk).
Qed.

(** C5. One flag guards all three operations, whatever goes on between
    the awaits of a running one.  A call that arrives while the flag is
    up returns at once: it only logs a warning, so the rate limiter, the
    session cache, the generator's caches and what is shown stay as they
    were, and nothing is suspended for it.  A call that arrives while the
    flag is down leaves its synchronous prefix with the flag up exactly
    when it goes on.  Every segment of a continuation that ends at an
    [await] leaves the flag (and all the hook owns) as it found it, and
    the segment that ends the continuation, on success or failure,
    returns with the flag down: the flag is cleared only when the
    operation has fully completed.  Run without interruption the
    continuation is the one of the whole call, which ends with the flag
    down.  Hence, from a page with no call in flight, whatever calls
    arrive and however the segments of the running operation interleave
    with them: at most one operation is suspended, and the flag is up
    exactly while one is. *)
Theorem in_flight_guard :
  (forall env c w, inFlight w = true ->
     Hook.start env c w = (log (EvConsoleWarn Hook.IN_FLIGHT_WARNING) w, None)
     /\ rateLimiter (fst (Hook.start env c w)) = rateLimiter w
     /\ cacheRef (fst (Hook.start env c w)) = cacheRef w
     /\ outfitCache (fst (Hook.start env c w)) = outfitCache w
     /\ nanoCache (fst (Hook.start env c w)) = nanoCache w
     /\ transferCache (fst (Hook.start env c w)) = transferCache w)
  /\ (forall env c s, inFlight (Stepwise.world s) = true ->
        Stepwise.arrive env c s
        = {| Stepwise.world :=
               log (EvConsoleWarn Hook.IN_FLIGHT_WARNING) (Stepwise.world s);
             Stepwise.suspended := Stepwise.suspended s |})
  /\ (forall env c w w' p, inFlight w = false -> Hook.start env c w = (w', p) ->
        inFlight w' = match p with Some _ => true | None => false end)
  /\ (forall env p, Stepwise.TSpec same_hook ends_cleared (Stepwise.resume env p))
  /\ (forall env p w, Stepwise.flatten (Stepwise.resume env p) w = Hook.resume env p w)
  /\ (forall env p w,
        exists w', Hook.resume env p w = (Returned tt, w') /\ inFlight w' = false)
  /\ (forall s0 s,
        inFlight (Stepwise.world s0) = false -> Stepwise.suspended s0 = [] ->
        Stepwise.reachable s0 s ->
        (length (Stepwise.suspended s) <= 1)%nat /\
        (inFlight (Stepwise.world s) = true <-> Stepwise.suspended s <> [])).
Proof.
  split; [|split; [|split; [|split; [|split; [|split]]]]].
  - intros env c w H. rewrite (start_in_flight env c w H). simpl. auto 10.
  - apply arrive_in_flight.
  - apply start_idle.
  - apply resume_flag.
  - intros env p. apply agrees_resume.
  - apply resume_clears.
  - intros s0 s Hidle Hnone Hreach. change (guard_invariant s).
    assert (H : guard_invariant s /\
                Forall (Stepwise.TSpec same_hook ends_cleared) (Stepwise.suspended s)).
    { induction Hreach as [|s s' _ IH Hstep].
      - rewrite Hnone. split; [|constructor].
        unfold guard_invariant. rewrite Hidle, Hnone. simpl.
        split; [lia|]. split; intros; congruence.
      - destruct IH as [Hg Ht].
        apply (guard_invariant_step ends_cleared s s'); auto using resume_flag. }
    apply H.
Qed.

(* ===================================================================== *)
(** ** The three exits of a call that passes the guard *)
(* ===================================================================== *)

Lemma run_hit env c w e :
  inFlight w = false ->
  cacheRef w !! Hook.key_of c = Some e ->
  exists w',
    Hook.start env c w = (w', None) /\
    Hook.run env c w = (Returned tt, w') /\
    ui_generatedImage w' = Some (url e) /\
    ui_isComposite w' = shown_composite c e /\
    ui_error w' = None /\
    inFlight w' = false /\
    rateLimiter w' = rateLimiter w /\
    cacheRef w' = cacheRef w /\
    trace w' = trace w ++ created env c ++ released env c.
Proof.
  intros Hidle Hhit. unfold Hook.run.
  destruct c; simpl in *;
    unfold Hook.generateOutfit_sync, Hook.generateNanoOutfit_sync,
      Hook.generateOutfitTransfer_sync; rewrite Hidle; simpl; rewrite Hhit;
    eexists; repeat split; simpl; rewrite ?app_nil_r, <- ?app_assoc; reflexivity.
Qed.

Lemma run_denied env c w :
  inFlight w = false ->
  cacheRef w !! Hook.key_of c = None ->
  RateLimiter.allowed (RateLimiter.canMakeCall (date_now env) (rateLimiter w)) = false ->
  exists w',
    Hook.start env c w = (w', None) /\
    Hook.run env c w = (Returned tt, w') /\
    ui_error w' =
      Some (or_default
              (RateLimiter.reason (RateLimiter.canMakeCall (date_now env) (rateLimiter w)))
              "Rate limit exceeded") /\
    ui_generatedImage w' = None /\
    ui_isComposite w' = false /\
    inFlight w' = false /\
    rateLimiter w' = rateLimiter w /\
    cacheRef w' = cacheRef w /\
    trace w' = trace w ++ created env c
                 ++ [EvCanMakeCall; EvConsoleWarn "Rate limit exceeded:"]
                 ++ released env c.
Proof.
  intros Hidle Hmiss Hdeny. unfold Hook.run.
  destruct c; simpl in *;
    unfold Hook.generateOutfit_sync, Hook.generateNanoOutfit_sync,
      Hook.generateOutfitTransfer_sync, Hook.canGenerate;
    rewrite Hidle; simpl; rewrite Hmiss; simpl; rewrite Hdeny; simpl;
    eexists; repeat split; simpl; rewrite ?app_nil_r, <- ?app_assoc; reflexivity.
Qed.

Lemma run_allowed env c w :
  inFlight w = false ->
  cacheRef w !! Hook.key_of c = None ->
  RateLimiter.allowed (RateLimiter.canMakeCall (date_now env) (rateLimiter w)) = true ->
  exists w0 p w1 evs,
    Hook.start env c w = (w0, Some p) /\
    Hook.resume env p w0 = (Returned tt, finalizer p w1) /\
    Hook.run env c w = (Returned tt, finalizer p w1) /\
    pending_key p = Hook.key_of c /\
    hook_view w0 =
      (true, cacheRef w, ui_generatedImage w, true, None, false,
       RateLimiter.recordCall (date_now env) (rateLimiter w)) /\
    trace w0 = trace w ++ created env c ++ [EvCanMakeCall; EvRecordCall] /\
    keeps (Hook.key_of c) w0 w1 /\
    trace w1 = trace w0 ++ evs /\ Forall async_event evs /\
    trace (finalizer p w1) = trace w1 ++ released env c.
Proof.
  intros Hidle Hmiss Hallow. unfold Hook.run.
  destruct c as [top bottom | occasion | f]; simpl in *;
    unfold Hook.generateOutfit_sync, Hook.generateNanoOutfit_sync,
      Hook.generateOutfitTransfer_sync, Hook.canGenerate;
    rewrite Hidle; simpl; rewrite Hmiss; simpl; rewrite Hallow; simpl.
  all: match goal with
       | |- context [(?w0, Some ?p)] =>
           destruct (resume_post env p w0) as (w1 & evs & E & Hk & Ht & HP);
           exists w0, p, w1, evs
       end.
  all: simpl in E; rewrite E.
  all: repeat split; try assumption; try apply Hk;
       simpl; rewrite ?app_nil_r, <- ?app_assoc; reflexivity.
Qed.

Lemma async_event_facts evs :
  Forall async_event evs ->
  ~ In EvRecordCall evs /\ ~ In EvCanMakeCall evs /\
  omap (fun ev => match ev with EvCreateObjectURL u => Some u | _ => None end) evs = [] /\
  omap (fun ev => match ev with EvRevokeObjectURL u => Some u | _ => None end) evs = [].
Proof.
  induction 1 as [|ev evs Hev Hrest IH]; simpl.
  - repeat split; auto.
  - destruct IH as (IH1 & IH2 & IH3 & IH4).
    destruct ev; simpl in *; try contradiction;
      rewrite ?IH3, ?IH4; repeat split; auto; intros [?|?]; try discriminate; auto.
Qed.

(** Modelled from the spec: a denial always names its reason. *)
Lemma canMakeCall_denied_reason now rl :
  RateLimiter.allowed (RateLimiter.canMakeCall now rl) = false ->
  exists why, RateLimiter.reason (RateLimiter.canMakeCall now rl) = Some why /\
              why <> "" /\
              or_default (RateLimiter.reason (RateLimiter.canMakeCall now rl))
                "Rate limit exceeded" = why.
Proof.
  unfold RateLimiter.canMakeCall.
  repeat match goal with
         | |- context [if ?b then _ else _] => destruct b
         end; simpl; intros H; try discriminate;
    eexists; (split; [reflexivity|]); (split; [discriminate | reflexivity]).
Qed.

(* ===================================================================== *)
(** ** The rate limiter gate *)
(* ===================================================================== *)

Lemma remote_calls_app a b : remote_calls (a ++ b) = remote_calls a ++ remote_calls b.
Proof. unfold remote_calls. apply omap_app. Qed.

Lemma remote_calls_created env c : remote_calls (created env c) = [].
Proof. destruct c; reflexivity. Qed.

Lemma not_in_created env c : ~ In EvRecordCall (created env c).
Proof. destruct c; simpl; intuition discriminate. Qed.

Lemma not_in_released env c : ~ In EvRecordCall (released env c).
Proof. destruct c; simpl; intuition discriminate. Qed.

Lemma finalizer_limiter p w : rateLimiter (finalizer p w) = rateLimiter w.
Proof. destruct p; reflexivity. Qed.

Lemma finalizer_cacheRef p w : cacheRef (finalizer p w) = cacheRef w.
Proof. destruct p; reflexivity. Qed.

Lemma finalizer_inFlight p w : inFlight (finalizer p w) = false.
Proof. destruct p; reflexivity. Qed.

Lemma finalizer_ui p w :
  ui_generatedImage (finalizer p w) = ui_generatedImage w /\
  ui_error (finalizer p w) = ui_error w /\
  ui_isComposite (finalizer p w) = ui_isComposite w.
Proof. destruct p; auto. Qed.

(** C7. For each generation mode, on a call that passes the guard and
    misses the session cache: when the rate limiter denies, the call ends
    in its synchronous prefix, the decision's reason is the visible error,
    no image is shown, the limiter is as before and no call is recorded
    (nor the remote caller invoked); when the limiter allows, exactly one
    call is recorded, and no remote call precedes the recording. *)
Theorem rate_limit_gate env c w :
  inFlight w = false ->
  cacheRef w !! Hook.key_of c = None ->
  let check := RateLimiter.canMakeCall (date_now env) (rateLimiter w) in
  (RateLimiter.allowed check = false ->
     exists w' why evs,
       Hook.start env c w = (w', None) /\
       Hook.run env c w = (Returned tt, w') /\
       RateLimiter.reason check = Some why /\
       ui_error w' = Some (or_default (RateLimiter.reason check) "Rate limit exceeded") /\
       ui_error w' = Some why /\
       ui_generatedImage w' = None /\
       rateLimiter w' = rateLimiter w /\
       trace w' = trace w ++ evs /\
       ~ In EvRecordCall evs /\ remote_calls evs = [])
  /\ (RateLimiter.allowed check = true ->
      exists w' pre post,
        Hook.run env c w = (Returned tt, w') /\
        trace w' = trace w ++ pre ++ EvRecordCall :: post /\
        ~ In EvRecordCall pre /\ ~ In EvRecordCall post /\
        remote_calls pre = [] /\
        rateLimiter w' = RateLimiter.recordCall (date_now env) (rateLimiter w)).
Proof.
  intros Hidle Hmiss check. split; intros Hcheck.
  - destruct (run_denied env c w Hidle Hmiss Hcheck)
      as (w' & Hs & Hr & Herr & Himg & _ & _ & Hrl & _ & Ht).
    destruct (canMakeCall_denied_reason _ _ Hcheck) as (why & Hwhy & _ & Hor).
    exists w', why, (created env c
                       ++ [EvCanMakeCall; EvConsoleWarn "Rate limit exceeded:"]
                       ++ released env c).
    repeat split; auto.
    + rewrite Herr. f_equal. exact Hor.
    + destruct c; simpl; intuition discriminate.
    + destruct c; reflexivity.
  - destruct (run_allowed env c w Hidle Hmiss Hcheck)
      as (w0 & p & w1 & evs & _ & _ & Hr & _ & Hview & Ht0 & Hk & Ht1 & HP & Htf).
    destruct (async_event_facts evs HP) as (Hnr & _ & _ & _).
    exists (finalizer p w1), (created env c ++ [EvCanMakeCall]), (evs ++ released env c).
    split; [exact Hr|]. split; [|split; [|split; [|split]]].
    + rewrite Htf, Ht1, Ht0, <- !app_assoc. reflexivity.
    + intros Hin. apply in_app_or in Hin as [Hin|Hin].
      * exact (not_in_created env c Hin).
      * simpl in Hin. intuition discriminate.
    + intros Hin. apply in_app_or in Hin as [Hin|Hin]; [auto|].
      exact (not_in_released env c Hin).
    + rewrite remote_calls_app, remote_calls_created. reflexivity.
    + rewrite finalizer_limiter. destruct Hk as [Hk _]. rewrite Hk.
      unfold hook_view in Hview. inversion Hview. reflexivity.
Qed.

(* ===================================================================== *)
(** ** The object URL of the transfer operation *)
(* ===================================================================== *)

(** C10. Whatever the outside answers and whatever the session state, a
    transfer call ends with every object URL it created released: a call
    stopped by the guard creates none; any other call creates exactly the
    URL of the inspiration file and revokes exactly that URL, as its last
    act, on the memory-hit exit, on the rate-limit exit and at the end of
    the continuation (success or failure). *)
Theorem object_url_released env f w :
  exists w' evs,
    Hook.generateOutfitTransfer env f w = (Returned tt, w') /\
    trace w' = trace w ++ evs /\
    created_urls evs = (if inFlight w then [] else [createObjectURL env f]) /\
    released_urls evs = created_urls evs /\
    last evs = Some (if inFlight w
                     then EvConsoleWarn Hook.IN_FLIGHT_WARNING
                     else EvRevokeObjectURL (createObjectURL env f)).
Proof.
  unfold Hook.generateOutfitTransfer.
  destruct (inFlight w) eqn:Hidle.
  - exists (log (EvConsoleWarn Hook.IN_FLIGHT_WARNING) w),
      [EvConsoleWarn Hook.IN_FLIGHT_WARNING].
    unfold Hook.run. rewrite (start_in_flight env _ w Hidle).
    repeat split; reflexivity.
  - destruct (cacheRef w !! Hook.key_of (Hook.CallTransfer f)) as [e|] eqn:Hlook.
    + destruct (run_hit env _ w e Hidle Hlook)
        as (w' & _ & Hr & _ & _ & _ & _ & _ & _ & Ht).
      exists w'. eexists. split; [exact Hr|]. split; [exact Ht|].
      repeat split; reflexivity.
    + destruct (RateLimiter.allowed
                  (RateLimiter.canMakeCall (date_now env) (rateLimiter w))) eqn:Hcheck.
      * destruct (run_allowed env _ w Hidle Hlook Hcheck)
          as (w0 & p & w1 & evs & _ & _ & Hr & _ & _ & Ht0 & _ & Ht1 & HP & Htf).
        destruct (async_event_facts evs HP) as (_ & _ & Hc & Hrel).
        exists (finalizer p w1).
        exists (([EvCreateObjectURL (createObjectURL env f);
                  EvCanMakeCall; EvRecordCall] ++ evs)
                  ++ [EvRevokeObjectURL (createObjectURL env f)]).
        split; [exact Hr|]. split; [|split; [|split]].
        -- rewrite Htf, Ht1, Ht0. simpl. rewrite <- !app_assoc. reflexivity.
        -- unfold created_urls. rewrite !omap_app, Hc. reflexivity.
        -- unfold released_urls, created_urls. rewrite !omap_app, Hc, Hrel.
           reflexivity.
        -- apply last_snoc.
      * destruct (run_denied env _ w Hidle Hlook Hcheck)
          as (w' & _ & Hr & _ & _ & _ & _ & _ & _ & Ht).
        exists w'. eexists. split; [exact Hr|]. split; [exact Ht|].
        repeat split; reflexivity.
Qed.

(* ===================================================================== *)
(** ** The session cache *)
(* ===================================================================== *)

Arguments generateOutfitInternal : simpl never.
Arguments generateNanoOutfitInternal : simpl never.
Arguments generateOutfitTransferInternal : simpl never.

Ltac unfold_async H :=
  unfold Hook.resume, Hook.generateOutfit_async, Hook.generateNanoOutfit_async,
    Hook.generateOutfitTransfer_async, Hook.try_finally, try_catch,
    Hook.generateOutfit_try, Hook.generateNanoOutfit_try,
    Hook.generateOutfitTransfer_try, Hook.persist_generated,
    Hook.dataUrlToFile, uploadImage, saveGeneratedOutfit, Hook.show_failure,
    Hook.store, OutfitGenerator.generateOutfit,
    OutfitGenerator.generateNanoOutfit, OutfitGenerator.generateOutfitTransfer,
    mbind, M_bind, bind, emit, update, read, ret, throw in H.

(** A continuation ends either showing nothing, or showing an image that
    it has stored under its key. *)
Lemma resume_shows env p w w' :
  Hook.resume env p w = (Returned tt, w') ->
  ui_generatedImage w' = None \/
  exists e, cacheRef w' !! pending_key p = Some e /\
            ui_generatedImage w' = Some (url e) /\
            ui_isComposite w' = isComposite e.
Proof.
  intros H. destruct p; unfold_async H; simpl in H;
    repeat (break_in H; simpl in H); inversion H; subst; clear H; simpl;
    first [ left; reflexivity
          | right; eexists; split; [apply lookup_insert_eq | split; reflexivity] ].
Qed.

Lemma run_total env c w : exists w', Hook.run env c w = (Returned tt, w').
Proof.
  unfold Hook.run. destruct (Hook.start env c w) as [w1 [p|]] eqn:Hs.
  - destruct (resume_post env p w1) as (w2 & evs & E & _). eauto.
  - eauto.
Qed.

(** A call that passes the guard leaves the flag down and every entry of
    the session cache in place. *)
Lemma run_preserves env c w w' :
  inFlight w = false ->
  Hook.run env c w = (Returned tt, w') ->
  inFlight w' = false /\
  forall k e, cacheRef w !! k = Some e -> cacheRef w' !! k = Some e.
Proof.
  intros Hidle Hrun.
  destruct (cacheRef w !! Hook.key_of c) as [e0|] eqn:Hlook.
  - destruct (run_hit env c w e0 Hidle Hlook)
      as (w2 & _ & Hr & _ & _ & _ & Hfl & _ & Hc & _).
    rewrite Hrun in Hr. inversion Hr; subst w2. split; [exact Hfl|].
    intros k e. rewrite Hc. auto.
  - destruct (RateLimiter.allowed
                (RateLimiter.canMakeCall (date_now env) (rateLimiter w))) eqn:Hcheck.
    + destruct (run_allowed env c w Hidle Hlook Hcheck)
        as (w0 & p & w1 & evs & _ & _ & Hr & _ & Hview & _ & [_ Hk] & _).
      rewrite Hrun in Hr. inversion Hr; subst w'.
      split; [apply finalizer_inFlight|].
      intros k e Hke. rewrite finalizer_cacheRef.
      assert (k <> Hook.key_of c) by congruence.
      rewrite (Hk k H). unfold hook_view in Hview. inversion Hview. congruence.
    + destruct (run_denied env c w Hidle Hlook Hcheck)
        as (w2 & _ & Hr & _ & _ & _ & Hfl & _ & Hc & _).
      rewrite Hrun in Hr. inversion Hr; subst w2. split; [exact Hfl|].
      intros k e. rewrite Hc. auto.
Qed.

Lemma session_preserves calls w :
  inFlight w = false ->
  inFlight (session calls w) = false /\
  forall k e, cacheRef w !! k = Some e -> cacheRef (session calls w) !! k = Some e.
Proof.
  revert w. induction calls as [|[env c] calls IH]; intros w Hidle; simpl.
  - auto.
  - destruct (run_total env c w) as (w1 & Hr). rewrite Hr. simpl.
    destruct (run_preserves env c w w1 Hidle Hr) as (Hidle1 & Hkeep).
    destruct (IH w1 Hidle1) as (Hfl & Hk). split; [exact Hfl|]. auto.
Qed.

(** A call that passes the guard and ends showing an image has that image
    in the session cache under its key. *)
Lemma run_shows_cached env c w w' u :
  inFlight w = false ->
  Hook.run env c w = (Returned tt, w') ->
  ui_generatedImage w' = Some u ->
  exists e, cacheRef w' !! Hook.key_of c = Some e /\ url e = u.
Proof.
  intros Hidle Hrun Hshow.
  destruct (cacheRef w !! Hook.key_of c) as [e0|] eqn:Hlook.
  - destruct (run_hit env c w e0 Hidle Hlook)
      as (w2 & _ & Hr & Himg & _ & _ & _ & _ & Hc & _).
    rewrite Hrun in Hr. inversion Hr; subst w2.
    exists e0. rewrite Hc. split; [exact Hlook | congruence].
  - destruct (RateLimiter.allowed
                (RateLimiter.canMakeCall (date_now env) (rateLimiter w))) eqn:Hcheck.
    + destruct (run_allowed env c w Hidle Hlook Hcheck)
        as (w0 & p & w1 & evs & _ & Hres & Hr & Hkey & _).
      rewrite Hrun in Hr. inversion Hr; subst w'.
      destruct (resume_shows env p w0 _ Hres) as [Hnone | (e & He & Himg & _)].
      * congruence.
      * exists e. rewrite <- Hkey. split; [exact He | congruence].
    + destruct (run_denied env c w Hidle Hlook Hcheck)
        as (w2 & _ & Hr & _ & Himg & _).
      rewrite Hrun in Hr. inversion Hr; subst w2. congruence.
Qed.

(** C6. In each generation mode: after a call that passed the guard and
    ended showing image [u], and after whatever further calls of the
    session, a request with the same cache key shows the same [u] from the
    session cache.  It ends in its synchronous prefix, the rate limiter is
    neither asked nor changed, and nothing reaches the remote caller: the
    only events are the object URL of a transfer call, created and
    revoked. *)
Theorem cache_idempotence env1 env2 c1 c2 later w w1 u :
  inFlight w = false ->
  Hook.run env1 c1 w = (Returned tt, w1) ->
  ui_generatedImage w1 = Some u ->
  Hook.key_of c2 = Hook.key_of c1 ->
  exists w2 evs,
    Hook.start env2 c2 (session later w1) = (w2, None) /\
    Hook.run env2 c2 (session later w1) = (Returned tt, w2) /\
    ui_generatedImage w2 = Some u /\
    ui_error w2 = None /\
    rateLimiter w2 = rateLimiter (session later w1) /\
    trace w2 = trace (session later w1) ++ evs /\
    evs = created env2 c2 ++ released env2 c2 /\
    remote_calls evs = [] /\
    ~ In EvCanMakeCall evs /\ ~ In EvRecordCall evs.
Proof.
  intros Hidle Hrun Hshow Hkey.
  destruct (run_shows_cached env1 c1 w w1 u Hidle Hrun Hshow) as (e & He & Hu).
  destruct (run_preserves env1 c1 w w1 Hidle Hrun) as (Hidle1 & _).
  destruct (session_preserves later w1 Hidle1) as (Hidle2 & Hkeep).
  apply Hkeep in He. rewrite <- Hkey in He.
  destruct (run_hit env2 c2 _ e Hidle2 He)
    as (w2 & Hs & Hr & Himg & _ & Herr & _ & Hrl & _ & Ht).
  exists w2, (created env2 c2 ++ released env2 c2).
  repeat split; auto.
  - congruence.
  - destruct c2; reflexivity.
  - destruct c2; simpl; intuition discriminate.
  - destruct c2; simpl; intuition discriminate.
Qed.

(* ===================================================================== *)
(** ** The durable composite lookup *)
(* ===================================================================== *)

Lemma generateOutfitInternal_durable_hit env topPath bottomPath bodyPath t b u w0 :
  str_truthy (apiKey env) = true ->
  str_truthy t = true -> str_truthy b = true ->
  db_select env t b = Some (Some u) -> str_truthy u = true ->
  generateOutfitInternal env topPath bottomPath bodyPath (Some t) (Some b) w0
  = (Returned (result_ok u), log (EvDbSelect t b) w0).
Proof.
  intros Hkey Ht Hb Hrow Hu.
  unfold generateOutfitInternal, both_ids, getCachedComposite,
    mbind, M_bind, bind, emit, ret.
  rewrite Hkey, Ht, Hb. simpl. rewrite Hrow. simpl.
  unfold opt_truthy. rewrite Hu. reflexivity.
Qed.

Lemma usable_url_ok u : str_truthy u = true -> Hook.usable_url (result_ok u) = Some u.
Proof. intros H. unfold Hook.usable_url, opt_truthy. simpl. rewrite H. reflexivity. Qed.

(** C3. [generateOutfit] with known identifiers, on a call that passes the
    guard, misses the session cache and is allowed by the rate limiter,
    with the API key configured: when the durable composite lookup returns
    the stored URL [u], the generator returns [{success: true, imageUrl: u}]
    having done nothing but that lookup; the hook shows [u], its trace has
    no remote generation call, and the session cache holds [u] under the
    key of the pair, so that the same request repeated in the session is
    answered from memory without another lookup. *)
Theorem durable_hit_fills_memory env top bottom w u :
  inFlight w = false ->
  cacheRef w !! Hook.key_of (Hook.CallOutfit top bottom) = None ->
  RateLimiter.allowed (RateLimiter.canMakeCall (date_now env) (rateLimiter w)) = true ->
  str_truthy (apiKey env) = true ->
  str_truthy (id top) = true -> str_truthy (id bottom) = true ->
  db_select env (id top) (id bottom) = Some (Some u) -> str_truthy u = true ->
  (forall w0,
      OutfitGenerator.generateOutfit env (itemUrl top) (itemUrl bottom)
        DEFAULT_BODY_PATH (Some (id top)) (Some (id bottom)) w0
      = (Returned {| success := true; imageUrl := Some u; error := None |},
         log (EvDbSelect (id top) (id bottom)) w0))
  /\ exists w1,
      Hook.generateOutfit env top bottom w = (Returned tt, w1) /\
      ui_generatedImage w1 = Some u /\
      ui_error w1 = None /\
      cacheRef w1 = <[Hook.key_of (Hook.CallOutfit top bottom) :=
                        {| url := u; isComposite := false |}]> (cacheRef w) /\
      trace w1 = trace w ++ [EvCanMakeCall; EvRecordCall;
                             EvDbSelect (id top) (id bottom)] /\
      remote_calls [EvCanMakeCall; EvRecordCall;
                    EvDbSelect (id top) (id bottom)] = [] /\
      forall env' later,
        exists w2,
          Hook.generateOutfit env' top bottom (session later w1) = (Returned tt, w2) /\
          ui_generatedImage w2 = Some u /\
          trace w2 = trace (session later w1).
Proof.
  intros Hidle Hmiss Hallow Hkey Ht Hb Hrow Hu.
  pose proof (fun w0 =>
                generateOutfitInternal_durable_hit env (itemUrl top) (itemUrl bottom)
                  DEFAULT_BODY_PATH (id top) (id bottom) u w0 Hkey Ht Hb Hrow Hu)
    as Hgen.
  split; [exact Hgen|].
  assert (Hrun : exists w1,
             Hook.generateOutfit env top bottom w = (Returned tt, w1) /\
             ui_generatedImage w1 = Some u /\ ui_error w1 = None /\
             cacheRef w1 = <[Hook.key_of (Hook.CallOutfit top bottom) :=
                               {| url := u; isComposite := false |}]> (cacheRef w) /\
             trace w1 = trace w ++ [EvCanMakeCall; EvRecordCall;
                                    EvDbSelect (id top) (id bottom)]).
  { unfold Hook.generateOutfit, Hook.run. simpl in Hmiss |- *.
    unfold Hook.generateOutfit_sync, Hook.canGenerate.
    rewrite Hidle. simpl. rewrite Hmiss. simpl. rewrite Hallow. simpl.
    unfold Hook.generateOutfit_async, Hook.try_finally, try_catch,
      Hook.generateOutfit_try, OutfitGenerator.generateOutfit,
      mbind, M_bind, bind.
    rewrite Hgen, (usable_url_ok u Hu).
    unfold Hook.store, update. simpl.
    eexists. repeat split. simpl. rewrite <- !app_assoc. reflexivity. }
  destruct Hrun as (w1 & Hr & Himg & Herr & Hc & Htr).
  exists w1. repeat split; auto.
  intros env' later.
  destruct (run_preserves env _ w w1 Hidle Hr) as (Hidle1 & _).
  destruct (session_preserves later w1 Hidle1) as (Hidle2 & Hkeep).
  assert (He : cacheRef w1 !! Hook.key_of (Hook.CallOutfit top bottom)
               = Some {| url := u; isComposite := false |}).
  { rewrite Hc. apply lookup_insert_eq. }
  apply Hkeep in He.
  destruct (run_hit env' _ _ _ Hidle2 He)
    as (w2 & _ & Hr2 & Himg2 & _ & _ & _ & _ & _ & Ht2).
  exists w2. repeat split; auto. rewrite Ht2. simpl. apply app_nil_r.
Qed.

(* ===================================================================== *)
(** ** The composite fallback *)
(* ===================================================================== *)

(** C8. Paired selection, on a call that passes the guard, misses the
    session cache and is allowed by the rate limiter: when the generator
    returns without a usable image and the local composer returns the
    image [c], the hook shows [c] as a composite and stores it under the
    key an AI result would have been stored under, marked composite; and
    after whatever further calls of the session, [generateOutfit] with the
    same two identifiers shows [c] again, as a composite, without a single
    event: no lookup, no rate limiter, no remote call. *)
Theorem composite_fallback_cached env top bottom w r wg cres c :
  inFlight w = false ->
  cacheRef w !! Hook.key_of (Hook.CallOutfit top bottom) = None ->
  RateLimiter.allowed (RateLimiter.canMakeCall (date_now env) (rateLimiter w)) = true ->
  OutfitGenerator.generateOutfit env (itemUrl top) (itemUrl bottom)
    DEFAULT_BODY_PATH (Some (id top)) (Some (id bottom))
    (fst (Hook.start env (Hook.CallOutfit top bottom) w)) = (Returned r, wg) ->
  Hook.usable_url r = None ->
  createComposite env (itemUrl top) (itemUrl bottom) = Normal cres ->
  Hook.usable_url cres = Some c ->
  exists w1,
    Hook.generateOutfit env top bottom w = (Returned tt, w1) /\
    cacheRef w1 !! Hook.key_of (Hook.CallOutfit top bottom)
      = Some {| url := c; isComposite := true |} /\
    ui_generatedImage w1 = Some c /\
    ui_isComposite w1 = true /\
    ui_error w1 = Some Hook.COMPOSITE_NOTICE /\
    forall later env' top' bottom',
      id top' = id top -> id bottom' = id bottom ->
      exists w3,
        Hook.generateOutfit env' top' bottom' (session later w1) = (Returned tt, w3) /\
        ui_generatedImage w3 = Some c /\
        ui_isComposite w3 = true /\
        trace w3 = trace (session later w1).
Proof.
  intros Hidle Hmiss Hallow Hgen Hfail Hcomp Hc.
  assert (Hrun : exists w1,
             Hook.generateOutfit env top bottom w = (Returned tt, w1) /\
             cacheRef w1 !! Hook.key_of (Hook.CallOutfit top bottom)
               = Some {| url := c; isComposite := true |} /\
             ui_generatedImage w1 = Some c /\ ui_isComposite w1 = true /\
             ui_error w1 = Some Hook.COMPOSITE_NOTICE).
  { revert Hgen. unfold Hook.generateOutfit, Hook.run. simpl in Hmiss |- *.
    unfold Hook.generateOutfit_sync, Hook.canGenerate.
    rewrite Hidle. simpl. rewrite Hmiss. simpl. rewrite Hallow. simpl.
    intros Hgen.
    unfold Hook.generateOutfit_async, Hook.try_finally, try_catch,
      Hook.generateOutfit_try, mbind, M_bind, bind.
    rewrite Hgen, Hfail. unfold emit. simpl. rewrite Hcomp, Hc.
    unfold Hook.store, update. simpl.
    eexists. split; [reflexivity|]. simpl.
    split; [apply lookup_insert_eq|]. repeat split. }
  destruct Hrun as (w1 & Hr & He & Himg & Hic & Herr).
  exists w1. repeat split; auto.
  intros later env' top' bottom' Htop Hbottom.
  destruct (run_preserves env _ w w1 Hidle Hr) as (Hidle1 & _).
  destruct (session_preserves later w1 Hidle1) as (Hidle2 & Hkeep).
  apply Hkeep in He.
  assert (Hk : Hook.key_of (Hook.CallOutfit top' bottom')
               = Hook.key_of (Hook.CallOutfit top bottom)).
  { simpl. rewrite Htop, Hbottom. reflexivity. }
  rewrite <- Hk in He.
  destruct (run_hit env' _ _ _ Hidle2 He)
    as (w3 & _ & Hr3 & Himg3 & Hic3 & _ & _ & _ & _ & Ht3).
  exists w3. repeat split; auto. rewrite Ht3. simpl. apply app_nil_r.
Qed.

(* ===================================================================== *)
(** ** Sample runs *)
(* ===================================================================== *)

Example quota_classification :
  isQuotaError Sample.quota_hint = true /\
  isQuotaError Sample.quota_plain = true /\
  isQuotaError Sample.other_error = false /\
  isQuotaError (JObj [("statusMessage", JStr "RESOURCE_EXHAUSTED")]) = true.
Proof. repeat split; reflexivity. Qed.

(* ===================================================================== *)
(** ** Persistence failures *)
(* ===================================================================== *)

(** Paired selection: once the remote call produced an image, the
    generator returns success whatever the storage layer does; and when
    the storage layer failed (the failure is logged), what it returns is
    the transient data URL. *)
Lemma paired_persistence_failure_swallowed
    env topPath bottomPath bodyPath topId bottomId w r w' evs n parts dataUrl :
  generateOutfitInternal env topPath bottomPath bodyPath topId bottomId w = (r, w') ->
  trace w' = trace w ++ evs ->
  last (remote_calls evs) = Some n ->
  generateContent env n = Resolves parts ->
  image_of_parts parts = inr dataUrl ->
  exists u, r = Returned (result_ok u) /\
            (In (EvConsoleError "Error saving to Supabase:") evs -> u = dataUrl).
Proof.
  intros Hrun Htr Hlast Hres Himg.
  unfold_generator Hrun; all_paths Hrun; read_trace Htr evs;
    simpl in Hlast; simplify_eq; try congruence;
    repeat match goal with
           | H1 : ?x = _, H2 : ?x = _ |- _ => rewrite H1 in H2
           end; simplify_eq;
    eexists; (split; [reflexivity|]); intros Hin; simpl in Hin;
    try reflexivity; try congruence; exfalso; intuition discriminate.
Qed.

(** Nano and transfer: a failure of the upload or of the record insert
    after a successful generation reaches the [catch] block, which shows
    the failure and no image. *)
Lemma nano_persistence_failure_visible env occasion w r wg u wp :
  inFlight w = false ->
  cacheRef w !! Hook.key_of (Hook.CallNano occasion) = None ->
  RateLimiter.allowed (RateLimiter.canMakeCall (date_now env) (rateLimiter w)) = true ->
  OutfitGenerator.generateNanoOutfit env occasion DEFAULT_BODY_PATH
    (fst (Hook.start env (Hook.CallNano occasion) w)) = (Returned r, wg) ->
  Hook.usable_url r = Some u ->
  Hook.persist_generated env u "nano_" "nano" wg = (Thrown, wp) ->
  exists w1,
    Hook.generateNanoOutfit env occasion w = (Returned tt, w1) /\
    ui_generatedImage w1 = None /\
    ui_error w1 = Some "Failed to generate nano outfit. Please try again.".
Proof.
  intros Hidle Hmiss Hallow Hgen Hu Hpersist.
  revert Hgen. unfold Hook.generateNanoOutfit, Hook.run. simpl in Hmiss |- *.
  unfold Hook.generateNanoOutfit_sync, Hook.canGenerate.
  rewrite Hidle. simpl. rewrite Hmiss. simpl. rewrite Hallow. simpl.
  intros Hgen.
  unfold Hook.generateNanoOutfit_async, Hook.try_finally, try_catch,
    Hook.generateNanoOutfit_try, mbind, M_bind, bind.
  rewrite Hgen, Hu, Hpersist.
  eexists. split; [reflexivity|]. split; reflexivity.
Qed.

Lemma transfer_persistence_failure_visible env f w r wg u wp :
  inFlight w = false ->
  cacheRef w !! Hook.key_of (Hook.CallTransfer f) = None ->
  RateLimiter.allowed (RateLimiter.canMakeCall (date_now env) (rateLimiter w)) = true ->
  OutfitGenerator.generateOutfitTransfer env (createObjectURL env f) DEFAULT_BODY_PATH
    (fst (Hook.start env (Hook.CallTransfer f) w)) = (Returned r, wg) ->
  Hook.usable_url r = Some u ->
  Hook.persist_generated env u "transfer_" "transfer" wg = (Thrown, wp) ->
  exists w1,
    Hook.generateOutfitTransfer env f w = (Returned tt, w1) /\
    ui_generatedImage w1 = None /\
    ui_error w1 = Some "Failed to transfer outfit. Please try again.".
Proof.
  intros Hidle Hmiss Hallow Hgen Hu Hpersist.
  revert Hgen. unfold Hook.generateOutfitTransfer, Hook.run. simpl in Hmiss |- *.
  unfold Hook.generateOutfitTransfer_sync, Hook.canGenerate.
  rewrite Hidle. simpl. rewrite Hmiss. simpl. rewrite Hallow. simpl.
  intros Hgen.
  unfold Hook.generateOutfitTransfer_async, Hook.try_finally, try_catch,
    Hook.generateOutfitTransfer_try, mbind, M_bind, bind.
  rewrite Hgen, Hu, Hpersist.
  eexists. split; [reflexivity|]. split; reflexivity.
Qed.

(** C2, where the code departs from it.  With the remote generation
    succeeding and the blob upload (or the record insert) failing: the
    paired selection still shows the transient data URL and no error; the
    nano and the transfer operation show no image and a visible error. *)
Theorem persistence_failure_by_mode :
  let upload_fails :=
    Sample.env 100000 (fun _ => Resolves (Sample.image "QUJD")) (Some None)
      false true Throws in
  let insert_fails :=
    Sample.env 100000 (fun _ => Resolves (Sample.image "QUJD")) (Some None)
      true false Throws in
  let shown (r : Outcome unit * World) :=
    (fst r, ui_generatedImage (snd r), ui_error (snd r), remote_calls (trace (snd r))) in
  shown (Hook.generateOutfit upload_fails Sample.top Sample.bottom Sample.page)
    = (Returned tt, Some "data:image/png;base64,QUJD", None, [0%nat])
  /\ shown (Hook.generateNanoOutfit upload_fails "gym" Sample.page)
    = (Returned tt, None, Some "Failed to generate nano outfit. Please try again.", [0%nat])
  /\ shown (Hook.generateNanoOutfit insert_fails "gym" Sample.page)
    = (Returned tt, None, Some "Failed to generate nano outfit. Please try again.", [0%nat])
  /\ shown (Hook.generateOutfitTransfer upload_fails Sample.photo Sample.page)
    = (Returned tt, None, Some "Failed to transfer outfit. Please try again.", [0%nat])
  /\ shown (Hook.generateOutfitTransfer insert_fails Sample.photo Sample.page)
    = (Returned tt, None, Some "Failed to transfer outfit. Please try again.", [0%nat]).
Proof. vm_compute. repeat split; reflexivity. Qed.

(* ===================================================================== *)
(** ** The keys of the nano operation *)
(* ===================================================================== *)

Lemma nanoCacheKey_length bodyPath p1 p2 :
  String.length p1 = String.length p2 ->
  nanoCacheKey bodyPath p1 = nanoCacheKey bodyPath p2.
Proof. intros H. unfold nanoCacheKey, length_str. rewrite H. reflexivity. Qed.

Lemma append_cancel_l (p a b : string) : p +:+ a = p +:+ b -> a = b.
Proof.
  induction p as [|ch p IH]; intros H.
  - exact H.
  - apply IH. change (String ch (p +:+ a) = String ch (p +:+ b)) in H.
    congruence.
Qed.

Lemma key_of_nano_injective o1 o2 :
  Hook.key_of (Hook.CallNano o1) = Hook.key_of (Hook.CallNano o2) -> o1 = o2.
Proof. apply append_cancel_l. Qed.

(** C4, where the code departs from it.  The hook's key is the occasion
    text itself, so it tells any two texts apart; the generator's own
    cache, consulted next, is keyed by the length of the prompt only.
    Two occasions of equal length therefore share that key: after "gym"
    was generated, the generator answers "spa" with the image made for
    "gym", from its cache, without a remote call, although the session
    cache missed. *)
Theorem nano_generator_key_collides :
  let first := Sample.all_well 100000 "QUJD" in
  let second := Sample.all_well 200000 "WFla" in
  let after_gym := snd (Hook.generateNanoOutfit first "gym" Sample.page) in
  Hook.key_of (Hook.CallNano "gym") <> Hook.key_of (Hook.CallNano "spa")
  /\ OutfitGenerator.nanoPrompt "gym" <> OutfitGenerator.nanoPrompt "spa"
  /\ nanoCacheKey DEFAULT_BODY_PATH (OutfitGenerator.nanoPrompt "gym")
     = nanoCacheKey DEFAULT_BODY_PATH (OutfitGenerator.nanoPrompt "spa")
  /\ cacheRef after_gym !! Hook.key_of (Hook.CallNano "spa") = None
  /\ fst (OutfitGenerator.generateNanoOutfit second "spa" DEFAULT_BODY_PATH after_gym)
     = Returned (result_ok "data:image/png;base64,QUJD")
  /\ remote_calls (trace after_gym) = [0%nat]
  /\ remote_calls (trace (snd (Hook.generateNanoOutfit second "spa" after_gym)))
     = [0%nat]
  /\ map fst (map_to_list
                (cacheRef (snd (Hook.generateNanoOutfit second "spa" after_gym))))
     ≡ₚ ["nano::gym"; "nano::spa"].
Proof.
  split; [intros H; vm_compute in H; discriminate|].
  split; [intros H; vm_compute in H; discriminate|].
  vm_compute. repeat split; try reflexivity.
Qed.

(* ===================================================================== *)
(** ** The statements at sample inputs *)
(* ===================================================================== *)

Lemma getRetryMsFromError_hint_or_fallback_witness :
  (find_retry_detail Sample.quota_hint
   = Normal (JObj [("@type", JStr "type.googleapis.com/google.rpc.RetryInfo");
                   ("retryDelay", JStr "2.5s")])
   /\ getRetryMsFromError Sample.quota_hint 20000 = 2500)
  /\ (~ parseable_hint Sample.quota_plain
      /\ getRetryMsFromError Sample.quota_plain 20000 = 20000).
Proof.
  assert (Hno : ~ parseable_hint Sample.quota_plain).
  { intros (d & Hf & Hd). vm_compute in Hf. inversion Hf; subst d.
    apply exec_retry_regex_duration in Hd as [m Hm].
    vm_compute in Hm. discriminate. }
  split; split.
  - reflexivity.
  - apply (proj1 getRetryMsFromError_hint_or_fallback Sample.quota_hint
             (JObj [("@type", JStr "type.googleapis.com/google.rpc.RetryInfo");
                    ("retryDelay", JStr "2.5s")]) 20000);
      reflexivity.
  - exact Hno.
  - apply (proj2 (proj2 getRetryMsFromError_hint_or_fallback)). exact Hno.
Defined.


Lemma durable_hit_fills_memory_witness :
  let u := "https://x/img.png" in
  inFlight Sample.page = false
  /\ db_select Scenario.stored (id Sample.top) (id Sample.bottom) = Some (Some u)
  /\ exists w1,
      Hook.generateOutfit Scenario.stored Sample.top Sample.bottom Sample.page
      = (Returned tt, w1) /\
      ui_generatedImage w1 = Some u /\
      ui_error w1 = None /\
      cacheRef w1 = <[Hook.key_of (Hook.CallOutfit Sample.top Sample.bottom) :=
                        {| url := u; isComposite := false |}]> (cacheRef Sample.page) /\
      trace w1 = trace Sample.page ++ [EvCanMakeCall; EvRecordCall;
                                       EvDbSelect (id Sample.top) (id Sample.bottom)].
Proof.
  intros u.
  destruct (durable_hit_fills_memory Scenario.stored Sample.top Sample.bottom
              Sample.page u eq_refl eq_refl eq_refl eq_refl eq_refl eq_refl
              eq_refl eq_refl)
    as (_ & w1 & Hr & Himg & Herr & Hc & Ht & _).
  split; [reflexivity|]. split; [reflexivity|].
  exists w1. auto.
Defined.

Lemma in_flight_guard_witness :
  let s0 := {| Stepwise.world := Sample.page; Stepwise.suspended := [] |} in
  let s1 := Stepwise.arrive (Sample.all_well 100000 "QUJD") (Hook.CallNano "gym") s0 in
  let s2 := Stepwise.arrive Scenario.down (Hook.CallOutfit Sample.top Sample.bottom) s1 in
  inFlight (Stepwise.world s1) = true
  /\ s2 = {| Stepwise.world :=
               log (EvConsoleWarn Hook.IN_FLIGHT_WARNING) (Stepwise.world s1);
             Stepwise.suspended := Stepwise.suspended s1 |}
  /\ (length (Stepwise.suspended s2) <= 1)%nat
  /\ (inFlight (Stepwise.world s2) = true <-> Stepwise.suspended s2 <> []).
Proof.
  intros s0 s1 s2.
  assert (Hbusy : inFlight (Stepwise.world s1) = true) by (vm_compute; reflexivity).
  pose proof (proj1 (proj2 in_flight_guard) Scenario.down
                (Hook.CallOutfit Sample.top Sample.bottom) s1 Hbusy) as Hs2.
  pose proof (proj2 (proj2 (proj2 (proj2 (proj2 (proj2 in_flight_guard))))) s0 s2
                eq_refl eq_refl
                (Stepwise.reach_step s0 s1 s2
                   (Stepwise.reach_step s0 s0 s1 (Stepwise.reach_refl s0)
                      (Stepwise.step_arrive (Sample.all_well 100000 "QUJD")
                         (Hook.CallNano "gym") s0))
                   (Stepwise.step_arrive Scenario.down
                      (Hook.CallOutfit Sample.top Sample.bottom) s1))) as Hinv.
  exact (conj Hbusy (conj Hs2 Hinv)).
Defined.

Lemma rate_limit_gate_witness :
  let env := Sample.all_well 100000 "QUJD" in
  let soon := Sample.all_well 100500 "WFla" in
  let after_gym := snd (Hook.generateNanoOutfit env "gym" Sample.page) in
  (RateLimiter.allowed
     (RateLimiter.canMakeCall (date_now soon) (rateLimiter after_gym)) = false
   /\ exists w',
       Hook.run soon (Hook.CallNano "spa") after_gym = (Returned tt, w') /\
       ui_error w' = Some "cooldown" /\
       ui_generatedImage w' = None /\
       rateLimiter w' = rateLimiter after_gym)
  /\ (RateLimiter.allowed
        (RateLimiter.canMakeCall (date_now env) (rateLimiter Sample.page)) = true
      /\ exists w' pre post,
          Hook.run env (Hook.CallNano "gym") Sample.page = (Returned tt, w') /\
          trace w' = trace Sample.page ++ pre ++ EvRecordCall :: post /\
          ~ In EvRecordCall pre /\ ~ In EvRecordCall post /\
          remote_calls pre = []).
Proof.
  intros env soon after_gym. split.
  - assert (Hdeny : RateLimiter.allowed
                      (RateLimiter.canMakeCall (date_now soon) (rateLimiter after_gym))
                    = false) by reflexivity.
    split; [exact Hdeny|].
    destruct (proj1 (rate_limit_gate soon (Hook.CallNano "spa") after_gym
                       eq_refl eq_refl) Hdeny)
      as (w' & why & evs & _ & Hr & Hwhy & _ & Herr & Himg & Hrl & _).
    exists w'. repeat split; auto.
    rewrite Herr. rewrite <- Hwhy. reflexivity.
  - assert (Hallow : RateLimiter.allowed
                       (RateLimiter.canMakeCall (date_now env) (rateLimiter Sample.page))
                     = true) by reflexivity.
    split; [exact Hallow|].
    destruct (proj2 (rate_limit_gate env (Hook.CallNano "gym") Sample.page
                       eq_refl eq_refl) Hallow)
      as (w' & pre & post & Hr & Ht & Hpre & Hpost & Hcalls & _).
    exists w', pre, post. auto.
Defined.

Lemma cache_idempotence_witness :
  let env1 := Sample.all_well 100000 "QUJD" in
  let later := [(Sample.all_well 200000 "WFla", Hook.CallNano "gym")] in
  let u := "https://store/generated-outfits/outfit_t1_b1_100000.png" in
  let w1 := snd (Hook.run env1 (Hook.CallOutfit Sample.top Sample.bottom) Sample.page) in
  ui_generatedImage w1 = Some u
  /\ exists w2 evs,
      Hook.run Scenario.down (Hook.CallOutfit Sample.top Sample.bottom)
        (session later w1) = (Returned tt, w2) /\
      ui_generatedImage w2 = Some u /\
      rateLimiter w2 = rateLimiter (session later w1) /\
      trace w2 = trace (session later w1) ++ evs /\
      remote_calls evs = [] /\
      ~ In EvCanMakeCall evs /\ ~ In EvRecordCall evs.
Proof.
  intros env1 later u w1.
  assert (Hrun : Hook.run env1 (Hook.CallOutfit Sample.top Sample.bottom) Sample.page
                 = (Returned tt, w1)) by (vm_compute; reflexivity).
  assert (Hshow : ui_generatedImage w1 = Some u) by (vm_compute; reflexivity).
  split; [exact Hshow|].
  destruct (cache_idempotence env1 Scenario.down
              (Hook.CallOutfit Sample.top Sample.bottom)
              (Hook.CallOutfit Sample.top Sample.bottom)
              later Sample.page w1 u eq_refl Hrun Hshow eq_refl)
    as (w2 & evs & _ & Hr & Himg & _ & Hrl & Ht & _ & Hcalls & Hcan & Hrec).
  exists w2, evs. auto 10.
Defined.

Lemma composite_fallback_cached_witness :
  let c := "data:image/png;base64,Q09NUA==" in
  let started := fst (Hook.start Scenario.down
                        (Hook.CallOutfit Sample.top Sample.bottom) Sample.page) in
  let gen := OutfitGenerator.generateOutfit Scenario.down
               (itemUrl Sample.top) (itemUrl Sample.bottom) DEFAULT_BODY_PATH
               (Some (id Sample.top)) (Some (id Sample.bottom)) started in
  fst gen = Returned (result_fail "Gemini API error. Internal error")
  /\ exists w1,
      Hook.generateOutfit Scenario.down Sample.top Sample.bottom Sample.page
      = (Returned tt, w1) /\
      cacheRef w1 !! Hook.key_of (Hook.CallOutfit Sample.top Sample.bottom)
      = Some {| url := c; isComposite := true |} /\
      ui_generatedImage w1 = Some c /\
      ui_isComposite w1 = true /\
      exists w3,
        Hook.generateOutfit (Sample.all_well 300000 "WFla") Sample.top Sample.bottom
          (session [(Sample.all_well 200000 "WFla", Hook.CallNano "gym")] w1)
        = (Returned tt, w3) /\
        ui_generatedImage w3 = Some c /\
        ui_isComposite w3 = true.
Proof.
  intros c started gen.
  assert (Hgen : gen = (Returned (result_fail "Gemini API error. Internal error"),
                        snd gen)) by (vm_compute; reflexivity).
  assert (Hmiss : cacheRef Sample.page
                    !! Hook.key_of (Hook.CallOutfit Sample.top Sample.bottom) = None)
    by (vm_compute; reflexivity).
  assert (Hallow : RateLimiter.allowed
                     (RateLimiter.canMakeCall (date_now Scenario.down)
                        (rateLimiter Sample.page)) = true)
    by (vm_compute; reflexivity).
  assert (Hfail : Hook.usable_url (result_fail "Gemini API error. Internal error")
                  = None) by (vm_compute; reflexivity).
  assert (Hc : Hook.usable_url (result_ok c) = Some c) by (vm_compute; reflexivity).
  split; [rewrite Hgen; reflexivity|].
  destruct (composite_fallback_cached Scenario.down Sample.top Sample.bottom
              Sample.page (result_fail "Gemini API error. Internal error")
              (snd gen) (result_ok c) c
              eq_refl Hmiss Hallow Hgen Hfail eq_refl Hc)
    as (w1 & Hr & He & Himg & Hic & _ & Hlater).
  exists w1. repeat split; auto.
  destruct (Hlater [(Sample.all_well 200000 "WFla", Hook.CallNano "gym")]
              (Sample.all_well 300000 "WFla") Sample.top Sample.bottom
              eq_refl eq_refl)
    as (w3 & Hr3 & Himg3 & Hic3 & _).
  exists w3. auto.
Defined.

(* ===================================================================== *)
(** ** Further properties: the error probes *)
(* ===================================================================== *)

(** X1. Which field decides the quota classification: [error.code] equal to
    429 or [error.status] equal to the exhaustion marker always make a
    quota error; and a truthy [error.code] other than 429 takes the place
    of the top-level [status] and [code], which are then not looked at:
    only the status marker can still make it a quota error. *)
Theorem isQuotaError_precedence (err : JsVal) :
  (get (get err "error") "code" = JNum 429 -> isQuotaError err = true)
  /\ (get (get err "error") "status" = JStr "RESOURCE_EXHAUSTED" ->
      isQuotaError err = true)
  /\ (truthy (get (get err "error") "code") = true ->
      get (get err "error") "code" <> JNum 429 ->
      isQuotaError err
      = strict_eq_str
          (Js.or (get (get err "error") "status") (get err "statusMessage"))
          "RESOURCE_EXHAUSTED").
Proof.
  unfold isQuotaError. split; [|split].
  - intros ->. reflexivity.
  - intros ->. simpl.
    destruct (strict_eq_num _ 429); reflexivity.
  - intros Htruthy Hne. unfold Js.or at 2. rewrite Htruthy.
    unfold Js.or at 1. rewrite Htruthy.
    destruct (get (get err "error") "code") as [| | | n | | |]; simpl;
      try reflexivity.
    destruct (n =? 429) eqn:E; [|reflexivity].
    apply Z.eqb_eq in E. congruence.
Qed.

Lemma isQuotaError_precedence_witness :
  let masked := JObj [("error", JObj [("code", JNum 503)]); ("status", JNum 429)] in
  isQuotaError (JObj [("error", JObj [("code", JNum 429)])]) = true
  /\ isQuotaError (JObj [("error", JObj [("code", JNum 503);
                                         ("status", JStr "RESOURCE_EXHAUSTED")])]) = true
  /\ isQuotaError masked = false
  /\ isQuotaError (JObj [("status", JNum 429)]) = true.
Proof.
  intros masked. split; [|split; [|split]].
  - apply (proj1 (isQuotaError_precedence _)). reflexivity.
  - apply (proj1 (proj2 (isQuotaError_precedence _))). reflexivity.
  - rewrite (proj2 (proj2 (isQuotaError_precedence masked)) eq_refl);
      [reflexivity | discriminate].
  - reflexivity.
Defined.

Lemma digit_value (c : ascii) :
  is_digit c = true -> 0 <= Z.of_N (Ascii.N_of_ascii c) - 48 <= 9.
Proof.
  unfold is_digit. intros H. apply andb_true_iff in H as [H1 H2].
  apply N.leb_le in H1, H2. lia.
Qed.

Lemma parseInt_fold_bounds (s : string) (acc : Z) :
  all_digits s = true -> 0 <= acc ->
  0 <= fold_left (fun a c => 10 * a + (Z.of_N (Ascii.N_of_ascii c) - 48))
         (String.list_ascii_of_string s) acc
    <= (acc + 1) * 10 ^ Z.of_nat (String.length s) - 1.
Proof.
  revert acc. induction s as [|c s IH]; intros acc Hd Hacc.
  - cbn [String.list_ascii_of_string fold_left String.length].
    change (Z.of_nat 0) with 0. rewrite Z.pow_0_r. lia.
  - cbn [all_digits] in Hd. apply andb_true_iff in Hd as [Hc Hs].
    pose proof (digit_value c Hc) as Hv.
    cbn [String.list_ascii_of_string fold_left String.length].
    assert (Hacc' : 0 <= 10 * acc + (Z.of_N (Ascii.N_of_ascii c) - 48)) by lia.
    specialize (IH _ Hs Hacc').
    rewrite Nat2Z.inj_succ, Z.pow_succ_r by lia.
    assert (0 < 10 ^ Z.of_nat (String.length s)) by (apply Z.pow_pos_nonneg; lia).
    split; [lia|]. nia.
Qed.

Lemma parseInt_digits_nonneg (s : string) : all_digits s = true -> 0 <= parseInt_digits s.
Proof. intros H. apply (parseInt_fold_bounds s 0 H). lia. Qed.

Lemma slice3_padEnd_digits (s : string) :
  all_digits s = true ->
  all_digits (slice3_padEnd s) = true /\ String.length (slice3_padEnd s) = 3%nat.
Proof.
  destruct s as [|a [|b [|c rest]]]; intros H.
  - split; reflexivity.
  - cbn [all_digits] in H. apply andb_true_iff in H as [Ha _].
    split; [|reflexivity].
    change (slice3_padEnd (String a "")) with (String a "00").
    cbn [all_digits]. rewrite Ha. reflexivity.
  - cbn [all_digits] in H. apply andb_true_iff in H as [Ha H].
    apply andb_true_iff in H as [Hb _].
    split; [|reflexivity].
    change (slice3_padEnd (String a (String b ""))) with (String a (String b "0")).
    cbn [all_digits]. rewrite Ha, Hb. reflexivity.
  - cbn [all_digits] in H. apply andb_true_iff in H as [Ha H].
    apply andb_true_iff in H as [Hb H]. apply andb_true_iff in H as [Hc _].
    assert (E : slice3_padEnd (String a (String b (String c rest)))
                = String a (String b (String c ""))) by (destruct rest; reflexivity).
    rewrite E. split; [|reflexivity].
    cbn [all_digits]. rewrite Ha, Hb, Hc. reflexivity.
Qed.

Lemma exec_retry_regex_digits (s m1 : string) (m2 : option string) :
  exec_retry_regex s = Some (m1, m2) ->
  all_digits m1 = true /\
  match m2 with Some f => all_digits f = true | None => True end.
Proof.
  unfold exec_retry_regex. intros H.
  destruct (span_digits s) as [sec rest] eqn:Hs.
  apply span_digits_split in Hs as [_ Hsec].
  destruct (String.eqb sec ""); [discriminate|].
  destruct rest as [|c rest]; [discriminate|].
  destruct (Ascii.eqb c "s") eqn:Hcs.
  - apply Ascii.eqb_eq in Hcs; subst c.
    destruct rest; [|discriminate]. inversion H; subst. auto.
  - destruct (Ascii.eqb c ".") eqn:Hcd.
    + apply Ascii.eqb_eq in Hcd; subst c.
      destruct (span_digits rest) as [frac tl] eqn:Hf.
      apply span_digits_split in Hf as [_ Hfrac].
      destruct (String.eqb frac ""); [discriminate|].
      destruct (String.eqb tl "s"); [|discriminate].
      inversion H; subst. auto.
    + exfalso. apply Ascii.eqb_neq in Hcs, Hcd.
      destruct c as [[] [] [] [] [] [] [] []]; try discriminate; congruence.
Qed.

Lemma getRetryMsFromError_nonneg (err : JsVal) (fallbackMs : Z) :
  0 <= fallbackMs -> 0 <= getRetryMsFromError err fallbackMs.
Proof.
  intros Hfb. unfold getRetryMsFromError, getRetryMs_try.
  destruct (find_retry_detail err) as [d|]; [|exact Hfb].
  destruct (truthy (get d "retryDelay")); [|exact Hfb].
  destruct (exec_retry_regex (to_string (get d "retryDelay")))
    as [[m1 m2]|] eqn:Hexec; [|exact Hfb].
  apply exec_retry_regex_digits in Hexec as [H1 H2].
  pose proof (parseInt_digits_nonneg m1 H1).
  destruct m2 as [f|].
  - destruct (slice3_padEnd_digits f H2) as [Hd _].
    pose proof (parseInt_digits_nonneg _ Hd). lia.
  - lia.
Qed.

(** X2. The extracted delay is never negative when the fallback is not;
    and a fractional hint is cut to whole milliseconds, never rounded up:
    with [sec] seconds before the point, and as long as the milliseconds
    stay below 2^53, where the code's doubles are exact, the delay lies
    from [sec * 1000] to [sec * 1000 + 999]. *)
Theorem getRetryMsFromError_bounds :
  (forall (err : JsVal) (fallbackMs : Z),
      0 <= fallbackMs -> 0 <= getRetryMsFromError err fallbackMs)
  /\ (forall (err d : JsVal) (sec frac : string) (fallbackMs : Z),
         find_retry_detail err = Normal d ->
         get d "retryDelay" = JStr (sec +:+ "." +:+ frac +:+ "s") ->
         all_digits sec = true -> sec <> "" ->
         all_digits frac = true -> frac <> "" ->
         exact_in_double (parseInt_digits sec * 1000 + 999) ->
         parseInt_digits sec * 1000 <= getRetryMsFromError err fallbackMs
           <= parseInt_digits sec * 1000 + 999
         /\ exact_in_double (getRetryMsFromError err fallbackMs)).
Proof.
  split.
  - exact getRetryMsFromError_nonneg.
  - intros err d sec frac fb Hfind Hdelay Hsec Hne Hfrac Hfne Hexact.
    assert (Hin : parseInt_digits sec * 1000 <= getRetryMsFromError err fb
                    <= parseInt_digits sec * 1000 + 999);
      [|split; [exact Hin|];
        destruct Hexact as [Hlo Hhi]; pose proof (parseInt_digits_nonneg sec Hsec);
        split; lia].
    rewrite (proj2 (getRetryMsFromError_duration err d sec frac fb
                      Hfind Hsec Hne Hfrac Hfne) Hdelay).
    destruct (slice3_padEnd_digits frac Hfrac) as [Hd Hlen].
    pose proof (parseInt_fold_bounds (slice3_padEnd frac) 0 Hd ltac:(lia)) as Hb.
    rewrite Hlen in Hb.
    change ((0 + 1) * 10 ^ Z.of_nat 3 - 1) with 999 in Hb.
    unfold parseInt_digits. lia.
Qed.

Lemma getRetryMsFromError_bounds_witness :
  0 <= getRetryMsFromError (retry_info_error (JNum 7)) 20000
  /\ 1000 <= getRetryMsFromError (retry_info_error (JStr "1.9999s")) 20000 <= 1999.
Proof.
  split.
  - apply (proj1 getRetryMsFromError_bounds). lia.
  - apply (proj2 getRetryMsFromError_bounds (retry_info_error (JStr "1.9999s"))
             (JObj [("@type", JStr "type.googleapis.com/google.rpc.RetryInfo");
                    ("retryDelay", JStr "1.9999s")]) "1" "9999" 20000);
      try reflexivity; try discriminate.
    split; vm_compute; [discriminate | reflexivity].
Defined.

(* ===================================================================== *)
(** ** Further properties: the response and the data URL *)
(* ===================================================================== *)

Lemma find_skips {A} (f : A -> bool) (pre : list A) (x : A) (post : list A) :
  Forall (fun y => f y = false) pre -> f x = true ->
  List.find f (pre ++ x :: post) = Some x.
Proof.
  induction 1 as [|y pre Hy _ IH]; intros Hx; simpl.
  - rewrite Hx. reflexivity.
  - rewrite Hy. auto.
Qed.

Lemma find_none_all {A} (f : A -> bool) (l : list A) :
  Forall (fun y => f y = false) l -> List.find f l = None.
Proof.
  induction 1 as [|y l Hy _ IH]; simpl; [reflexivity|]. rewrite Hy. exact IH.
Qed.

Lemma image_of_parts_inr (parts : list Part) (dataUrl : string) :
  image_of_parts parts = inr dataUrl ->
  exists p data, In p parts /\ inlineData p = Some data /\
                 str_truthy data = true /\ dataUrl = DATA_URL_PREFIX +:+ data.
Proof.
  unfold image_of_parts. intros H.
  destruct (List.find part_data parts) as [p|] eqn:Hfind; [|discriminate].
  apply find_some in Hfind as [Hin Hdata].
  destruct (inlineData p) as [data|] eqn:Hp; [|discriminate].
  destruct (str_truthy data) eqn:Ht; [|discriminate].
  inversion H. exists p, data. auto.
Qed.

(** X3. What the generator makes of a response: without a part carrying
    inline data the result is the failure "Gemini did not return an
    image." followed by the text parts; otherwise it is the PNG data URL
    of the first part that carries data, whatever follows it; and the
    fallback failure "No image data in response" is never produced. *)
Theorem image_of_parts_cases (parts : list Part) :
  (Forall (fun p => part_data p = false) parts ->
   image_of_parts parts
   = inl (result_fail ("Gemini did not return an image. " +:+ parts_text parts)))
  /\ (forall pre p post data,
         parts = pre ++ p :: post ->
         Forall (fun q => part_data q = false) pre ->
         inlineData p = Some data -> str_truthy data = true ->
         image_of_parts parts = inr (DATA_URL_PREFIX +:+ data))
  /\ image_of_parts parts <> inl (result_fail "No image data in response").
Proof.
  split; [|split].
  - intros Hnone. unfold image_of_parts. rewrite (find_none_all _ _ Hnone).
    reflexivity.
  - intros pre p post data -> Hpre Hp Ht. unfold image_of_parts.
    rewrite (find_skips part_data pre p post Hpre).
    + rewrite Hp, Ht. reflexivity.
    + unfold part_data, opt_truthy. rewrite Hp. exact Ht.
  - unfold image_of_parts.
    destruct (List.find part_data parts) as [p|] eqn:Hfind.
    + apply find_some in Hfind as [_ Hdata].
      unfold part_data, opt_truthy in Hdata.
      destruct (inlineData p) as [data|]; [|discriminate].
      rewrite Hdata. discriminate.
    + intros H. inversion H.
Qed.

Lemma image_of_parts_cases_witness :
  let blocked := [ {| inlineData := None; text := Some "blocked by safety filter" |} ] in
  let two := [ {| inlineData := Some ""; text := Some "first" |};
               {| inlineData := Some "QUJD"; text := None |};
               {| inlineData := Some "WFla"; text := None |} ] in
  image_of_parts blocked
  = inl (result_fail "Gemini did not return an image. blocked by safety filter")
  /\ image_of_parts two = inr "data:image/png;base64,QUJD".
Proof.
  intros blocked two. split.
  - rewrite (proj1 (image_of_parts_cases blocked)); [reflexivity|].
    repeat constructor.
  - apply (proj1 (proj2 (image_of_parts_cases two))
             [ {| inlineData := Some ""; text := Some "first" |} ]
             {| inlineData := Some "QUJD"; text := None |}
             [ {| inlineData := Some "WFla"; text := None |} ] "QUJD");
      try reflexivity.
    repeat constructor.
Defined.

Lemma split_comma_aux_free (s cur : string) :
  has_char "," s = false -> split_comma_aux s cur = [cur +:+ s].
Proof.
  revert cur. induction s as [|c s IH]; intros cur H.
  - cbn [split_comma_aux]. f_equal.
    induction cur as [|d cur IHc]; [reflexivity|].
    change (String d cur +:+ "") with (String d (cur +:+ "")). congruence.
  - cbn [has_char] in H. apply orb_false_iff in H as [Hc Hs].
    cbn [split_comma_aux]. rewrite Hc. rewrite (IH _ Hs). f_equal.
    clear. induction cur as [|d cur IHc]; [reflexivity|].
    change ((String d cur +:+ String c "") +:+ s)
      with (String d ((cur +:+ String c "") +:+ s)).
    change (String d cur +:+ String c s) with (String d (cur +:+ String c s)).
    congruence.
Qed.

Lemma split_comma_aux_head (pre rest cur : string) :
  has_char "," pre = false ->
  split_comma_aux (pre +:+ String "," rest) cur
  = (cur +:+ pre) :: split_comma_aux rest "".
Proof.
  revert cur. induction pre as [|c pre IH]; intros cur H.
  - change ("" +:+ String "," rest) with (String "," rest).
    cbn [split_comma_aux]. change (Ascii.eqb "," ",") with true. cbv iota.
    f_equal. induction cur as [|d cur IHc]; [reflexivity|].
    change (String d cur +:+ "") with (String d (cur +:+ "")). congruence.
  - cbn [has_char] in H. apply orb_false_iff in H as [Hc Hs].
    change (String c pre +:+ String "," rest) with (String c (pre +:+ String "," rest)).
    cbn [split_comma_aux]. rewrite Hc. rewrite (IH _ Hs). f_equal.
    clear. induction cur as [|d cur IHc]; [reflexivity|].
    change ((String d cur +:+ String c "") +:+ pre)
      with (String d ((cur +:+ String c "") +:+ pre)).
    change (String d cur +:+ String c pre) with (String d (cur +:+ String c pre)).
    congruence.
Qed.

Lemma data_url_payload (data dflt : string) :
  has_char "," data = false ->
  nth 1 (split_comma (DATA_URL_PREFIX +:+ data)) dflt = data.
Proof.
  intros H. unfold split_comma.
  change (DATA_URL_PREFIX +:+ data)
    with ("data:image/png;base64" +:+ String "," data).
  rewrite split_comma_aux_head by reflexivity.
  rewrite (split_comma_aux_free _ _ H). reflexivity.
Qed.

Lemma data_url_payload_cut (a b dflt : string) :
  has_char "," a = false ->
  nth 1 (split_comma (DATA_URL_PREFIX +:+ a +:+ String "," b)) dflt = a.
Proof.
  intros H. unfold split_comma.
  change (DATA_URL_PREFIX +:+ a +:+ String "," b)
    with ("data:image/png;base64" +:+ String "," (a +:+ String "," b)).
  rewrite split_comma_aux_head by reflexivity.
  rewrite (split_comma_aux_head a b "" H). reflexivity.
Qed.

(** X4. The data URL the generator builds and the file it makes of it
    again: for base64 text without a comma both [dataUrlToFile] functions
    decode exactly that text, so they succeed exactly when [atob] accepts
    it; if the text had a comma, only what is before the first comma would
    be decoded. *)
Theorem data_url_round_trip (env : Env) (filename : string) (w : World) :
  (forall data,
      has_char "," data = false ->
      dataUrlToFile env (DATA_URL_PREFIX +:+ data) filename w
      = match atob env data with
        | Some n => (Returned {| file_name := filename; file_size := n |}, w)
        | None => (Thrown, w)
        end
      /\ Hook.dataUrlToFile env (DATA_URL_PREFIX +:+ data) filename w
         = dataUrlToFile env (DATA_URL_PREFIX +:+ data) filename w)
  /\ (forall a b,
         has_char "," a = false ->
         dataUrlToFile env (DATA_URL_PREFIX +:+ a +:+ String "," b) filename w
         = dataUrlToFile env (DATA_URL_PREFIX +:+ a) filename w).
Proof.
  split.
  - intros data H. unfold dataUrlToFile, Hook.dataUrlToFile.
    rewrite !(data_url_payload data _ H).
    destruct (atob env data); split; reflexivity.
  - intros a b H. unfold dataUrlToFile.
    rewrite (data_url_payload_cut a b _ H), (data_url_payload a _ H).
    reflexivity.
Qed.

Lemma data_url_round_trip_witness :
  let env := Sample.all_well 100000 "QUJD" in
  has_char "," "QUJD" = false
  /\ dataUrlToFile env "data:image/png;base64,QUJD" "f.png" Sample.page
     = (Returned {| file_name := "f.png"; file_size := 3 |}, Sample.page).
Proof.
  intros env. split; [reflexivity|].
  exact (proj1 (proj1 (data_url_round_trip env "f.png" Sample.page) "QUJD" eq_refl)).
Defined.

(* ===================================================================== *)
(** ** Further properties: the keys of the session cache *)
(* ===================================================================== *)

Lemma split_at_char_unique (c : ascii) (a a' b b' : string) :
  has_char c a = false -> has_char c a' = false ->
  a +:+ String c b = a' +:+ String c b' -> a = a' /\ b = b'.
Proof.
  revert a'. induction a as [|x a IH]; intros a' Ha Ha' H.
  - destruct a' as [|y a'].
    + change (String c b = String c b') in H. split; congruence.
    + change (String c b = String y (a' +:+ String c b')) in H.
      cbn [has_char] in Ha'. apply orb_false_iff in Ha' as [Hy _].
      apply Ascii.eqb_neq in Hy. congruence.
  - cbn [has_char] in Ha. apply orb_false_iff in Ha as [Hx Ha].
    destruct a' as [|y a'].
    + change (String x (a +:+ String c b) = String c b') in H.
      apply Ascii.eqb_neq in Hx. congruence.
    + change (String x (a +:+ String c b) = String y (a' +:+ String c b')) in H.
      cbn [has_char] in Ha'. apply orb_false_iff in Ha' as [_ Ha'].
      inversion H; subst y.
      destruct (IH a' Ha Ha' ltac:(assumption)) as [-> ->]. auto.
Qed.

Lemma Z_to_string_injective (a b : Z) : Z_to_string a = Z_to_string b -> a = b.
Proof.
  unfold Z_to_string. intros H.
  apply (f_equal NilEmpty.int_of_string) in H.
  rewrite !NilEmpty.isi in H. inversion H as [H'].
  rewrite <- (DecimalZ.of_to a), <- (DecimalZ.of_to b), H'. reflexivity.
Qed.

(** X5. The keys of the session cache keep requests apart: keys of
    different modes never coincide; nano keys coincide only for the same
    occasion text; and for identifiers (file names) without a colon the
    paired-selection key determines both identifiers, the transfer key the
    file's name and size. *)
Theorem session_keys_separate :
  (forall c1 c2, Hook.key_of c1 = Hook.key_of c2 -> mode_of c1 = mode_of c2)
  /\ (forall o1 o2,
         Hook.key_of (Hook.CallNano o1) = Hook.key_of (Hook.CallNano o2) -> o1 = o2)
  /\ (forall t1 b1 t2 b2,
         has_char ":" (id t1) = false -> has_char ":" (id t2) = false ->
         Hook.key_of (Hook.CallOutfit t1 b1) = Hook.key_of (Hook.CallOutfit t2 b2) ->
         id t1 = id t2 /\ id b1 = id b2)
  /\ (forall f1 f2,
         has_char ":" (file_name f1) = false -> has_char ":" (file_name f2) = false ->
         Hook.key_of (Hook.CallTransfer f1) = Hook.key_of (Hook.CallTransfer f2) ->
         f1 = f2).
Proof.
  split; [|split; [|split]].
  - intros [t1 b1|o1|f1] [t2 b2|o2|f2] H; try reflexivity; exfalso;
      unfold Hook.key_of in H;
      match type of H with
      | String ?x ?s +:+ ?a = String ?y ?t +:+ ?b =>
          change (String x (s +:+ a) = String y (t +:+ b)) in H
      end; discriminate.
  - exact key_of_nano_injective.
  - intros t1 b1 t2 b2 H1 H2 H. unfold Hook.key_of in H.
    apply append_cancel_l in H.
    change (id t1 +:+ String ":" (String ":" (id b1))
            = id t2 +:+ String ":" (String ":" (id b2))) in H.
    apply split_at_char_unique in H as [Ht Hb]; auto.
    split; congruence.
  - intros [n1 s1] [n2 s2] H1 H2 H. unfold Hook.key_of in H. simpl in *.
    apply append_cancel_l in H.
    change (n1 +:+ String ":" (String ":" (Z_to_string s1))
            = n2 +:+ String ":" (String ":" (Z_to_string s2))) in H.
    apply split_at_char_unique in H as [Hn Hs]; auto.
    inversion Hs as [Hs']. apply Z_to_string_injective in Hs'. congruence.
Qed.

Lemma session_keys_separate_witness :
  let tricky := {| id := "a::b"; name := "x"; itemUrl := "u" |} in
  let plain := {| id := "a"; name := "x"; itemUrl := "u" |} in
  let rest1 := {| id := "c"; name := "y"; itemUrl := "v" |} in
  let rest2 := {| id := "b::c"; name := "y"; itemUrl := "v" |} in
  Hook.key_of (Hook.CallOutfit tricky rest1) = Hook.key_of (Hook.CallOutfit plain rest2)
  /\ (Hook.key_of (Hook.CallOutfit Sample.top Sample.bottom)
      = Hook.key_of (Hook.CallOutfit Sample.top Sample.bottom) ->
      id Sample.top = id Sample.top /\ id Sample.bottom = id Sample.bottom).
Proof.
  intros tricky plain rest1 rest2. split; [reflexivity|].
  apply (proj1 (proj2 (proj2 session_keys_separate))); reflexivity.
Defined.

(* ===================================================================== *)
(** ** Further properties: the generator and its caches *)
(* ===================================================================== *)

(** A generator call leaves the three maps alone, or adds the data URL of
    a fresh image under the request's key, which was free. *)
Lemma generate_caches_step env req w r w' :
  generate env req w = (r, w') ->
  window_caches w' = window_caches w
  \/ exists data u,
      request_cache req w !! request_key req = None /\
      str_truthy data = true /\
      window_caches w'
      = with_request_cache req
          (<[request_key req := DATA_URL_PREFIX +:+ data]> (request_cache req w)) w /\
      r = Returned (result_ok u).
Proof.
  intros Hrun.
  destruct req; unfold_generator Hrun; all_paths Hrun;
    first
      [ left; reflexivity
      | right;
        match goal with
        | H : image_of_parts _ = inr _ |- _ =>
            destruct (image_of_parts_inr _ _ H) as (p & data & _ & _ & Ht & ->)
        end;
        exists data; eexists; repeat split; try eassumption; reflexivity ].
Qed.

(** X6. The generator's caches change in one way only: every call, in
    every mode, leaves what the hook owns untouched and the three
    [window.__*Cache] maps as they were, unless it returns success having
    added the data URL of a freshly generated image under the key of the
    request, in the map of its mode, where that key was free.  A call
    that fails or throws changes no map, and no entry is ever overwritten
    or removed. *)
Theorem generator_cache_discipline env req w r w' :
  generate env req w = (r, w') ->
  hook_view w' = hook_view w
  /\ (window_caches w' = window_caches w
      \/ exists data u,
          request_cache req w !! request_key req = None /\
          str_truthy data = true /\
          window_caches w'
          = with_request_cache req
              (<[request_key req := DATA_URL_PREFIX +:+ data]> (request_cache req w)) w /\
          r = Returned (result_ok u))
  /\ ((forall u, r <> Returned (result_ok u)) -> window_caches w' = window_caches w)
  /\ (forall k v, request_cache req w !! k = Some v -> request_cache req w' !! k = Some v).
Proof.
  intros Hrun.
  assert (Hview : hook_view w' = hook_view w).
  { assert (Hspec : Spec false generator_event same_hook (generate env req)).
    { destruct req; simpl;
        [ apply generateOutfitInternal_spec
        | apply generateNanoOutfitInternal_spec
        | apply generateOutfitTransferInternal_spec ]. }
    destruct (Hspec w) as (r0 & w0 & evs & E & _ & Hsame & _).
    rewrite Hrun in E. inversion E; subst. exact Hsame. }
  pose proof (generate_caches_step env req w r w' Hrun) as Hstep.
  split; [exact Hview|]. split; [exact Hstep|]. split.
  - intros Hfail. destruct Hstep as [H | (data & u & _ & _ & _ & Hr)]; [exact H|].
    exfalso. exact (Hfail u Hr).
  - intros k v Hk.
    destruct Hstep as [H | (data & u & Hfree & _ & Hc & _)].
    + destruct req; unfold window_caches in H; simpl in *; inversion H; congruence.
    + assert (k <> request_key req) by congruence.
      destruct req; unfold window_caches in Hc; simpl in *;
        injection Hc as E1 E2 E3; rewrite ?E1, ?E2, ?E3;
        rewrite lookup_insert_ne; auto.
Qed.

Lemma generator_cache_discipline_witness :
  let env := Sample.all_well 100000 "QUJD" in
  let req := ReqNano DEFAULT_BODY_PATH "a prompt" in
  let run := generate env req Sample.page in
  fst run = Returned (result_ok "data:image/png;base64,QUJD")
  /\ hook_view (snd run) = hook_view Sample.page
  /\ nanoCache (snd run) !! request_key req = Some "data:image/png;base64,QUJD".
Proof.
  intros env req run.
  destruct (generator_cache_discipline env req Sample.page (fst run) (snd run)
              (surjective_pairing run)) as (Hview & _).
  split; [reflexivity|]. split; [exact Hview|]. vm_compute. reflexivity.
Defined.

(** X7. [getCacheSize] counts generated images: a generator call raises it
    by at most one and never lowers it, and a call that fails or throws
    leaves it as it was; [clearCache] brings it to zero without touching
    what the hook owns. *)
Theorem getCacheSize_steps :
  (forall env req w r w',
      generate env req w = (r, w') ->
      (GeneratorCache.getCacheSize w <= GeneratorCache.getCacheSize w'
       <= GeneratorCache.getCacheSize w + 1)%nat
      /\ ((forall u, r <> Returned (result_ok u)) ->
          GeneratorCache.getCacheSize w' = GeneratorCache.getCacheSize w))
  /\ (forall w,
         GeneratorCache.getCacheSize (GeneratorCache.clearCache w) = 0%nat
         /\ hook_view (GeneratorCache.clearCache w) = hook_view w
         /\ trace (GeneratorCache.clearCache w) = trace w).
Proof.
  split.
  - intros env req w r w' Hrun.
    destruct (generate_caches_step env req w r w' Hrun)
      as [H | (data & u & Hfree & _ & Hc & Hr)].
    + assert (GeneratorCache.getCacheSize w' = GeneratorCache.getCacheSize w).
      { unfold GeneratorCache.getCacheSize, window_caches in *.
        inversion H. congruence. }
      split; [lia | auto].
    + assert (GeneratorCache.getCacheSize w' = S (GeneratorCache.getCacheSize w)).
      { unfold GeneratorCache.getCacheSize, window_caches in *.
        destruct req; simpl in *; injection Hc as E1 E2 E3;
          rewrite ?E1, ?E2, ?E3;
          rewrite map_size_insert_None by assumption; lia. }
      split; [lia|]. intros Hfail. exfalso. exact (Hfail u Hr).
  - intros w. unfold GeneratorCache.getCacheSize, GeneratorCache.clearCache.
    simpl. rewrite map_size_empty. auto.
Qed.

Lemma getCacheSize_steps_witness :
  let env := Sample.all_well 100000 "QUJD" in
  let after := snd (generate env (ReqNano DEFAULT_BODY_PATH "a prompt") Sample.page) in
  GeneratorCache.getCacheSize Sample.page = 0%nat
  /\ (GeneratorCache.getCacheSize Sample.page <= GeneratorCache.getCacheSize after
      <= GeneratorCache.getCacheSize Sample.page + 1)%nat
  /\ GeneratorCache.getCacheSize after = 1%nat.
Proof.
  intros env after. split; [reflexivity|]. split.
  - apply (proj1 getCacheSize_steps env (ReqNano DEFAULT_BODY_PATH "a prompt")
             Sample.page
             (fst (generate env (ReqNano DEFAULT_BODY_PATH "a prompt") Sample.page))
             after).
    apply surjective_pairing.
  - vm_compute. reflexivity.
Defined.

(** X8. [clearCache] empties the generator's maps only.  An image in the
    hook's session cache is still shown after it, with no remote call;
    while a nano or transfer request put to the generator after it loads
    its reference image again, whatever had been cached before. *)
Theorem clearCache_scope :
  (forall env c w e,
      inFlight w = false ->
      cacheRef w !! Hook.key_of c = Some e ->
      exists w' evs,
        Hook.run env c (GeneratorCache.clearCache w) = (Returned tt, w') /\
        ui_generatedImage w' = Some (url e) /\
        trace w' = trace w ++ evs /\ remote_calls evs = [])
  /\ (forall env req w r w' evs,
         str_truthy (apiKey env) = true ->
         generate env req (GeneratorCache.clearCache w) = (r, w') ->
         trace w' = trace w ++ evs ->
         match req with
         | ReqOutfit _ _ _ _ _ => True
         | ReqNano bodyPath _ | ReqTransfer _ bodyPath => In (EvFetch bodyPath) evs
         end).
Proof.
  split.
  - intros env c w e Hidle Hhit.
    destruct (run_hit env c (GeneratorCache.clearCache w) e Hidle Hhit)
      as (w' & _ & Hr & Himg & _ & _ & _ & _ & _ & Ht).
    exists w', (created env c ++ released env c).
    split; [exact Hr|]. split; [exact Himg|]. split; [exact Ht|].
    destruct c; reflexivity.
  - intros env req w r w' evs Hkey Hrun Htr.
    destruct req; [exact I| |];
      unfold_generator Hrun; rewrite Hkey in Hrun; simpl in Hrun;
      rewrite lookup_empty in Hrun;
      all_paths Hrun; read_trace Htr evs; simpl; auto.
Qed.

Lemma clearCache_scope_witness :
  let env := Sample.all_well 100000 "QUJD" in
  let w := snd (Hook.generateNanoOutfit env "gym" Sample.page) in
  GeneratorCache.getCacheSize w = 1%nat
  /\ (exists w' evs,
         Hook.run Scenario.down (Hook.CallNano "gym") (GeneratorCache.clearCache w)
         = (Returned tt, w') /\
         ui_generatedImage w' = Some "https://store/generated-outfits/nano_100000.png" /\
         trace w' = trace w ++ evs /\ remote_calls evs = []).
Proof.
  intros env w.
  split; [vm_compute; reflexivity|].
  assert (Hidle : inFlight w = false) by (vm_compute; reflexivity).
  assert (Hhit : cacheRef w !! Hook.key_of (Hook.CallNano "gym")
                 = Some {| url := "https://store/generated-outfits/nano_100000.png";
                           isComposite := false |}) by (vm_compute; reflexivity).
  exact (proj1 clearCache_scope Scenario.down (Hook.CallNano "gym") w _ Hidle Hhit).
Defined.

(** X9. A request found in the generator's memory cache is answered
    without the remote caller and without loading a reference image, it
    succeeds, and it changes no map.  The nano and the transfer generator
    answer with the cached data URL and do nothing else; the paired
    generator may upload it again. *)
Theorem generator_memory_hit env req w r w' evs d :
  str_truthy (apiKey env) = true ->
  request_cache req w !! request_key req = Some d ->
  generate env req w = (r, w') ->
  trace w' = trace w ++ evs ->
  remote_calls evs = []
  /\ (forall path, ~ In (EvFetch path) evs)
  /\ window_caches w' = window_caches w
  /\ (exists u, r = Returned (result_ok u))
  /\ match req with
     | ReqOutfit _ _ _ _ _ => True
     | _ => r = Returned (result_ok d) /\ evs = []
     end.
Proof.
  intros Hkey Hhit Hrun Htr.
  destruct req; simpl in Hhit; unfold_generator Hrun; rewrite Hkey in Hrun;
    all_paths Hrun; read_trace Htr evs; try congruence;
    (split; [reflexivity|]);
    (split; [intros path Hin; simpl in Hin; intuition discriminate|]);
    (split; [reflexivity|]);
    (split; [eexists; reflexivity|]);
    try exact I; (split; [congruence | reflexivity]).
Qed.

Lemma generator_memory_hit_witness :
  let env := Sample.all_well 100000 "QUJD" in
  let req := ReqNano DEFAULT_BODY_PATH "a prompt" in
  let w := snd (generate env req Sample.page) in
  let again := generate Scenario.down req w in
  request_cache req w !! request_key req = Some "data:image/png;base64,QUJD"
  /\ fst again = Returned (result_ok "data:image/png;base64,QUJD")
  /\ trace (snd again) = trace w.
Proof.
  intros env req w again.
  assert (Hhit : request_cache req w !! request_key req
                 = Some "data:image/png;base64,QUJD") by (vm_compute; reflexivity).
  assert (Htr : trace (snd again) = trace w ++ []) by (vm_compute; reflexivity).
  destruct (generator_memory_hit Scenario.down req w (fst again) (snd again) []
              "data:image/png;base64,QUJD" eq_refl Hhit (surjective_pairing again) Htr)
    as (_ & _ & _ & _ & Hr & _).
  split; [exact Hhit|]. split; [exact Hr|]. rewrite Htr. apply app_nil_r.
Defined.

(** X10. How long one operation can wait between attempts: it sleeps at
    most twice, never for a negative time, and when no failure carries a
    parseable retry hint the waits add up to at most 60000 ms (20000 ms
    before the second attempt, 40000 ms before the third). *)
Theorem retry_total_wait env req w r w' evs :
  generate env req w = (r, w') ->
  trace w' = trace w ++ evs ->
  (length (sleeps evs) <= 2)%nat
  /\ Forall (fun ms => 0 <= ms) (sleeps evs)
  /\ ((forall k e, generateContent env k = Rejects e -> ~ parseable_hint e) ->
      (sleeps evs = [] \/ sleeps evs = [20000] \/ sleeps evs = [20000; 40000])
      /\ foldr Z.add 0 (sleeps evs) <= 60000).
Proof.
  intros Hrun Htr.
  destruct req; unfold_generator Hrun; all_paths Hrun; read_trace Htr evs.
  all: split; [simpl; lia|].
  all: split.
  all: try (simpl; solve [repeat first
         [ apply List.Forall_nil
         | apply List.Forall_cons;
           [apply Z.mul_nonneg_nonneg;
            [apply getRetryMsFromError_nonneg; lia | apply Z.pow_nonneg; lia]|] ] ]).
  all: intros Hno; simpl;
       repeat match goal with
              | H : generateContent _ _ = Rejects ?e |- _ =>
                  rewrite (getRetryMsFromError_fallback e 20000 (Hno _ _ H));
                  clear H
              end.
  all: try match goal with
            | H : _ || true = false |- _ => rewrite orb_true_r in H; discriminate H
            end.
  all: split;
       [ first [ left; reflexivity
               | right; left; reflexivity
               | right; right; reflexivity ]
       | vm_compute; discriminate ].
Qed.

Lemma retry_total_wait_witness :
  let env := Sample.env 100000 (fun _ => Rejects Sample.quota_plain) (Some None)
               true true Throws in
  let run := generate env Scenario.nano_request Sample.page in
  sleeps (trace (snd run)) = [20000; 40000]
  /\ (length (sleeps (trace (snd run))) <= 2)%nat
  /\ Forall (fun ms => 0 <= ms) (sleeps (trace (snd run))).
Proof.
  intros env run.
  destruct (retry_total_wait env Scenario.nano_request Sample.page
              (fst run) (snd run) (trace (snd run))
              (surjective_pairing run) eq_refl) as (Hlen & Hpos & _).
  split; [vm_compute; reflexivity|]. split; [exact Hlen | exact Hpos].
Defined.

(** X11. A failing composite query is a miss: whether the durable lookup
    ends in an error or finds no row, the paired generator returns the
    same result, leaves the same maps and makes the same remote calls; the
    only difference is the logged query error. *)
Theorem durable_lookup_error_is_miss
    env topPath bottomPath bodyPath topId bottomId w r1 w1 r2 w2 evs1 evs2 :
  generateOutfitInternal (with_db_select (fun _ _ => None) env)
    topPath bottomPath bodyPath topId bottomId w = (r1, w1) ->
  generateOutfitInternal (with_db_select (fun _ _ => Some None) env)
    topPath bottomPath bodyPath topId bottomId w = (r2, w2) ->
  trace w1 = trace w ++ evs1 ->
  trace w2 = trace w ++ evs2 ->
  r1 = r2
  /\ window_caches w1 = window_caches w2
  /\ hook_view w1 = hook_view w2
  /\ remote_calls evs1 = remote_calls evs2
  /\ (evs1 = evs2
      \/ exists t b rest,
          evs1 = EvDbSelect t b
                   :: EvConsoleError "Error fetching cached composite:" :: rest /\
          evs2 = EvDbSelect t b :: rest).
Proof.
  intros H1 H2 Ht1 Ht2.
  unfold_generator H1; unfold with_db_select in H1; simpl in H1.
  unfold_generator H2; unfold with_db_select in H2; simpl in H2.
  repeat (break_in H1; simpl in H1).
  all: inversion H1; subst; clear H1.
  all: unfold_generator H2; simpl in H2.
  all: repeat (break_in H2; unfold_generator H2; simpl in H2).
  all: inversion H2; subst; clear H2.
  all: simpl in *; try congruence.
  all: read_trace Ht1 evs1; read_trace Ht2 evs2.
  all: simplify_eq.
  all: repeat split; try reflexivity.
  all: first [left; reflexivity | right; do 3 eexists; split; reflexivity].
Qed.

Lemma durable_lookup_error_is_miss_witness :
  let env := Sample.all_well 100000 "QUJD" in
  let failing := generateOutfitInternal (with_db_select (fun _ _ => None) env)
                   "t.png" "b.png" DEFAULT_BODY_PATH (Some "t1") (Some "b1") Sample.page in
  let missing := generateOutfitInternal (with_db_select (fun _ _ => Some None) env)
                   "t.png" "b.png" DEFAULT_BODY_PATH (Some "t1") (Some "b1") Sample.page in
  fst failing = fst missing
  /\ remote_calls (trace (snd failing)) = remote_calls (trace (snd missing))
  /\ length (trace (snd failing)) = S (length (trace (snd missing))).
Proof.
  intros env failing missing.
  destruct (durable_lookup_error_is_miss env "t.png" "b.png" DEFAULT_BODY_PATH
              (Some "t1") (Some "b1") Sample.page
              (fst failing) (snd failing) (fst missing) (snd missing)
              (trace (snd failing)) (trace (snd missing))
              (surjective_pairing failing) (surjective_pairing missing)
              eq_refl eq_refl) as (Hr & _ & _ & Hcalls & _).
  split; [exact Hr|]. split; [exact Hcalls|]. vm_compute. reflexivity.
Defined.

(* ===================================================================== *)
(** ** Further properties: how a generator call can end *)
(* ===================================================================== *)

Lemma image_of_parts_inl (parts : list Part) (o : OutfitGenerationResult) :
  image_of_parts parts = inl o -> exists msg, o = result_fail msg.
Proof.
  unfold image_of_parts. intros H.
  destruct (List.find part_data parts) as [p|]; [|inversion H; eauto].
  destruct (inlineData p) as [data|]; [|inversion H; eauto].
  destruct (str_truthy data); inversion H; eauto.
Qed.

(** Which of the fetches started by [Promise.all] failed. *)
Ltac failed_fetch :=
  repeat match goal with
         | H : context [mbind _ (fetch_base64 ?env ?p)] |- _ =>
             destruct (fetch_base64 env p) eqn:?; simpl in H
         end.

(** X12. How a generator call can end, in every mode: it never runs out of
    loop budget; what it returns is either a success with an image URL and
    no error, or a failure with an error message and no image; and it
    throws only when a reference image could not be fetched, in which case
    the remote generator was never called and no map has changed. *)
Theorem generator_endings env req w r w' evs :
  generate env req w = (r, w') ->
  trace w' = trace w ++ evs ->
  r <> OutOfFuel
  /\ (forall res, r = Returned res -> well_formed res)
  /\ (r = Thrown ->
      (exists path, In (EvFetch path) evs /\ fetch_base64 env path = None)
      /\ remote_calls evs = []
      /\ window_caches w' = window_caches w).
Proof.
  intros Hrun Htr.
  destruct req; unfold_generator Hrun; all_paths Hrun; read_trace Htr evs.
  all: try match goal with
            | H : _ || true = false |- _ => rewrite orb_true_r in H; discriminate H
            end.
  all: split; [discriminate|].
  all: split;
       [ intros res Hres; inversion Hres; subst; clear Hres;
         first [ left; eexists; reflexivity
               | right; eexists; reflexivity
               | right; eapply image_of_parts_inl; eassumption ]
       | intros Hthrown; try discriminate Hthrown ].
  all: failed_fetch; try discriminate.
  all: (split; [|split; reflexivity]).
  all: match goal with
       | E : fetch_base64 _ ?p = None |- _ =>
           exists p; split; [simpl; auto 10 | exact E]
       end.
Qed.

Lemma generator_endings_witness :
  let env := with_fetch (fun _ => None) (Sample.all_well 100000 "QUJD") in
  let run := generate env Scenario.nano_request Sample.page in
  fst run = Thrown
  /\ (exists path, In (EvFetch path) (trace (snd run)) /\ fetch_base64 env path = None)
  /\ remote_calls (trace (snd run)) = [].
Proof.
  intros env run.
  assert (Hthrown : fst run = Thrown) by (vm_compute; reflexivity).
  destruct (generator_endings env Scenario.nano_request Sample.page
              (fst run) (snd run) (trace (snd run))
              (surjective_pairing run) eq_refl) as (_ & _ & Hends).
  destruct (Hends Hthrown) as (Hpath & Hcalls & _).
  split; [exact Hthrown|]. split; [exact Hpath | exact Hcalls].
Defined.

(* ===================================================================== *)
(** ** Further properties: how a continuation ends, and what is shown *)
(* ===================================================================== *)

Lemma generate_same_hook env req w r w' :
  generate env req w = (r, w') -> hook_view w' = hook_view w.
Proof.
  intros Hrun.
  assert (Hspec : Spec false generator_event same_hook (generate env req)).
  { destruct req; simpl;
      [ apply generateOutfitInternal_spec
      | apply generateNanoOutfitInternal_spec
      | apply generateOutfitTransferInternal_spec ]. }
  destruct (Hspec w) as (r0 & w0 & evs & E & _ & Hsame & _).
  rewrite Hrun in E. inversion E; subst. exact Hsame.
Qed.

(** What the hook owns is as before the generator ran. *)
Ltac generator_frame :=
  repeat match goal with
         | H : generateOutfitInternal ?env ?a ?b ?c ?d ?e ?w = (_, _) |- _ =>
             apply (generate_same_hook env (ReqOutfit a b c d e)) in H
         | H : generateNanoOutfitInternal ?env ?a ?b ?w = (_, _) |- _ =>
             apply (generate_same_hook env (ReqNano a b)) in H
         | H : generateOutfitTransferInternal ?env ?a ?b ?w = (_, _) |- _ =>
             apply (generate_same_hook env (ReqTransfer a b)) in H
         end;
  repeat match goal with
         | H : hook_view _ = hook_view _ |- _ =>
             unfold hook_view in H; injection H as ? ? ? ? ? ? ?
         end.

(** The three ways a continuation ends: with the failure notice and the
    session cache as it was; with a generated image shown and stored; or,
    in the paired mode only, with a composite shown and stored as one. *)
Lemma resume_outcomes env p w w' :
  Hook.resume env p w = (Returned tt, w') ->
  ui_isGenerating w' = false /\ rateLimiter w' = rateLimiter w /\
  ((cacheRef w' = cacheRef w /\ ui_generatedImage w' = None /\
    ui_isComposite w' = false /\
    ui_error w' = Some (match p with
                        | Hook.PendingOutfit _ _ _ =>
                            "Failed to generate outfit. Please try again."
                        | Hook.PendingNano _ _ =>
                            "Failed to generate nano outfit. Please try again."
                        | Hook.PendingTransfer _ _ _ =>
                            "Failed to transfer outfit. Please try again."
                        end))
   \/ (exists u, cacheRef w' = <[pending_key p := {| url := u; isComposite := false |}]> (cacheRef w) /\
                 ui_generatedImage w' = Some u /\ ui_isComposite w' = false /\
                 ui_error w' = ui_error w)
   \/ (exists u top bottom key,
         p = Hook.PendingOutfit top bottom key /\
         cacheRef w' = <[key := {| url := u; isComposite := true |}]> (cacheRef w) /\
         ui_generatedImage w' = Some u /\ ui_isComposite w' = true /\
         ui_error w' = Some Hook.COMPOSITE_NOTICE)).
Proof.
  intros H. destruct p; unfold_async H; simpl in H;
    repeat (break_in H; simpl in H); inversion H; subst; clear H; simpl;
    generator_frame.
  all: split; [reflexivity|]. 
  all: split; [congruence|].
  all: first
         [ left; repeat split; solve [reflexivity | congruence]
         | right; left; eexists; repeat split; simpl;
           solve [reflexivity | congruence | f_equal; congruence]
         | right; right; do 4 eexists; repeat split; simpl;
           solve [reflexivity | congruence | f_equal; congruence] ].
Qed.

Lemma ui_after_segment (r : Stepwise.Res unit) (w w' : World) :
  ui_error w = None -> ui_isComposite w = false ->
  Stepwise.res_spec same_hook ends_shown r w w' ->
  ui_coherent w' /\
  (Stepwise.waiting r <> [] -> ui_error w' = None /\ ui_isComposite w' = false).
Proof.
  intros Herr Hcomp H. destruct r as [o|k]; simpl in *.
  - split; [|intros Hne; exfalso; apply Hne; reflexivity].
    destruct H as (_ & _ & _ & _ & [(Hi & Hc & _ & _)
                                  | [(u & Hi & Hc & He) | (u & Hi & Hc & He)]]).
    + split; [rewrite Hc; discriminate | right; left; exact Hi].
    + split; [eauto | left; congruence].
    + split; [eauto | right; right; auto].
  - destruct H as [Hsame _]. unfold same_hook, hook_view in Hsame.
    injection Hsame as _ _ _ _ E5 E6 _.
    assert (He : ui_error w' = None) by congruence.
    assert (Hc : ui_isComposite w' = false) by congruence.
    split; [|auto]. split; [rewrite Hc; discriminate | left; exact He].
Qed.

Lemma page_invariant_step s s' :
  page_invariant s ->
  Forall (Stepwise.TSpec same_hook ends_shown) (Stepwise.suspended s) ->
  page_step s s' ->
  page_invariant s' /\
  Forall (Stepwise.TSpec same_hook ends_shown) (Stepwise.suspended s').
Proof.
  intros (Hguard & Hui & Hclean) Htasks Hstep.
  destruct Hstep as [s s' Hstep | s].
  - destruct (guard_invariant_step ends_shown s s' ends_shown_cleared
                resume_segments Hguard Htasks Hstep) as [Hguard' Htasks'].
    split; [|exact Htasks']. split; [exact Hguard'|].
    destruct Hstep as [env c s | s before after k Hsusp].
    + destruct (inFlight (Stepwise.world s)) eqn:Hin.
      * rewrite (arrive_in_flight env c s Hin). simpl. split; [exact Hui | exact Hclean].
      * pose proof (guard_idle_none s Hguard Hin) as Hnil.
        unfold Stepwise.arrive.
        destruct (Hook.start env c (Stepwise.world s)) as [w0 [p|]] eqn:Hs.
        -- assert (Hw0 : ui_error w0 = None /\ ui_isComposite w0 = false).
           { destruct c; unfold_sync Hs; rewrite Hin in Hs; simpl in Hs;
               repeat (break_in Hs; simpl in Hs); inversion Hs; subst;
               split; reflexivity. }
           destruct Hw0 as [Herr Hcomp].
           pose proof (resume_segments env p w0) as Hseg.
           destruct (Stepwise.resume env p w0) as [r w1]. simpl in Hseg.
           rewrite Hnil. simpl.
           apply (ui_after_segment r w0 w1 Herr Hcomp Hseg).
        -- rewrite Hnil. simpl.
           split; [|intros Hne; exfalso; apply Hne; reflexivity].
           destruct c; unfold_sync Hs; rewrite Hin in Hs; simpl in Hs;
             repeat (break_in Hs; simpl in Hs); inversion Hs; subst;
             unfold ui_coherent; simpl;
             (split; [first [discriminate | eauto] | auto]).
    + assert (Hne : Stepwise.suspended s <> [])
        by (rewrite Hsusp; destruct before; discriminate).
      destruct (Hclean Hne) as [Herr Hcomp].
      destruct (guard_busy_one s Hguard Hne) as (Hin & k0 & Hone).
      rewrite Hone in Hsusp.
      assert (before = [] /\ after = [] /\ k0 = k) as (-> & -> & ->).
      { destruct before as [|x before]; simpl in Hsusp.
        - inversion Hsusp; subst. auto.
        - inversion Hsusp as [[E1 E2]]. destruct before; discriminate E2. }
      rewrite Hone in Htasks. inversion Htasks as [|? ? Hk _]; subst.
      specialize (Hk (Stepwise.world s)). simpl. rewrite app_nil_r.
      apply (ui_after_segment _ _ _ Herr Hcomp Hk).
  - split; [|exact Htasks]. destruct Hguard as [Hlen Hflag].
    split; [split; [exact Hlen | exact Hflag]|]. simpl.
    split; [split; [discriminate | left; reflexivity] | auto].
Qed.

(** X13. What the page shows stays coherent, await by await.  From a page
    with no call in flight that shows something coherent, whatever calls
    arrive, however the segments of the running operation interleave with
    them and whenever the preview is cleared: at most one operation is
    suspended and the flag is up exactly then; the composite mark is only
    up together with an image; an error is visible either without an
    image or as the notice that goes with a composite; and while an
    operation is suspended, at any of its awaits, no error and no
    composite mark is up. *)
Theorem page_stays_coherent (s0 s : Stepwise.System) :
  Stepwise.suspended s0 = [] ->
  inFlight (Stepwise.world s0) = false ->
  ui_coherent (Stepwise.world s0) ->
  rtc page_step s0 s -> page_invariant s.
Proof.
  intros Hnone Hidle Hui Hreach.
  assert (H0 : page_invariant s0 /\
               Forall (Stepwise.TSpec same_hook ends_shown) (Stepwise.suspended s0)).
  { rewrite Hnone. split; [|constructor].
    split; [|split; [exact Hui | intros Hne; exfalso; apply Hne; exact Hnone]].
    unfold guard_invariant. rewrite Hidle, Hnone. simpl.
    split; [lia|]. split; intros; congruence. }
  clear Hnone Hidle Hui. revert H0.
  induction Hreach as [|a b c Hstep _ IH]; intros [Hinv Htasks]; [exact Hinv|].
  apply IH. apply (page_invariant_step a b Hinv Htasks Hstep).
Qed.

Lemma page_stays_coherent_witness :
  let env := Scenario.down in
  let s0 := {| Stepwise.world := Sample.page; Stepwise.suspended := [] |} in
  let s1 := Stepwise.arrive env (Hook.CallOutfit Sample.top Sample.bottom) s0 in
  let s2 := {| Stepwise.world := clearGeneratedImage (Stepwise.world s1);
               Stepwise.suspended := Stepwise.suspended s1 |} in
  inFlight (Stepwise.world s1) = true /\ page_invariant s2.
Proof.
  intros env s0 s1 s2.
  assert (Hbusy : inFlight (Stepwise.world s1) = true) by (vm_compute; reflexivity).
  assert (Hui : ui_coherent (Stepwise.world s0)).
  { split; [discriminate | left; reflexivity]. }
  exact (conj Hbusy
           (page_stays_coherent s0 s2 eq_refl eq_refl Hui
              (rtc_l page_step s0 s1 s2
                 (page_hook s0 s1
                    (Stepwise.step_arrive env
                       (Hook.CallOutfit Sample.top Sample.bottom) s0))
                 (rtc_once s1 s2 (page_clear s1))))).
Defined.

(** X14. What a call does to the session cache.  A call that passes the
    guard either leaves the cache as it was, or adds exactly one entry:
    under its own key, which was free, holding the image it ends up
    showing and the composite mark it shows it with.  Only the paired mode
    stores a composite, and then the notice is up.  A call that ends
    showing no image has stored nothing: failures and denials are never
    cached. *)
Theorem session_cache_discipline env c w w' :
  inFlight w = false ->
  Hook.run env c w = (Returned tt, w') ->
  (cacheRef w' = cacheRef w \/
   exists u b,
     cacheRef w !! Hook.key_of c = None /\
     cacheRef w' = <[Hook.key_of c := {| url := u; isComposite := b |}]> (cacheRef w) /\
     ui_generatedImage w' = Some u /\ ui_isComposite w' = b /\
     (b = true -> mode_of c = 0%nat /\ ui_error w' = Some Hook.COMPOSITE_NOTICE))
  /\ (ui_generatedImage w' = None -> cacheRef w' = cacheRef w).
Proof.
  intros Hidle Hrun.
  assert (Hcases :
    cacheRef w' = cacheRef w \/
    exists u b,
      cacheRef w !! Hook.key_of c = None /\
      cacheRef w' = <[Hook.key_of c := {| url := u; isComposite := b |}]> (cacheRef w) /\
      ui_generatedImage w' = Some u /\ ui_isComposite w' = b /\
      (b = true -> mode_of c = 0%nat /\ ui_error w' = Some Hook.COMPOSITE_NOTICE)).
  { destruct (cacheRef w !! Hook.key_of c) as [e0|] eqn:Hlook.
    - destruct (run_hit env c w e0 Hidle Hlook)
        as (w2 & _ & Hr & _ & _ & _ & _ & _ & Hc & _).
      rewrite Hrun in Hr. inversion Hr; subst w2. left. exact Hc.
    - destruct (RateLimiter.allowed
                  (RateLimiter.canMakeCall (date_now env) (rateLimiter w))) eqn:Hcheck.
      + destruct (run_allowed env c w Hidle Hlook Hcheck)
          as (w0 & p & w1 & evs & Hs & Hres & Hr & Hkey & Hview & _).
        assert (Hw' : finalizer p w1 = w') by congruence.
        rewrite Hw' in Hres. clear Hr.
        unfold hook_view in Hview. injection Hview as _ Hc0 _ _ _ _ _.
        destruct (resume_outcomes env p w0 w' Hres)
          as (_ & _ & [(Hc & _)
                      | [(u & Hc & Hi & Hcomp & _)
                        | (u & top & bottom & key & Hp & Hc & Hi & Hcomp & He)]]).
        * left. congruence.
        * right. exists u, false. rewrite Hkey, Hc0 in Hc.
          split; [reflexivity|]. split; [exact Hc|]. split; [exact Hi|].
          split; [exact Hcomp|]. intros; discriminate.
        * right. exists u, true.
          assert (Hk : key = Hook.key_of c) by (rewrite <- Hkey, Hp; reflexivity).
          rewrite Hk, Hc0 in Hc.
          split; [reflexivity|]. split; [exact Hc|]. split; [exact Hi|].
          split; [exact Hcomp|]. intros _. split; [|exact He].
          destruct c; simpl in Hs; unfold_sync Hs; rewrite Hidle in Hs;
            simpl in Hs; repeat (break_in Hs; simpl in Hs);
            inversion Hs; subst; try discriminate; reflexivity.
      + destruct (run_denied env c w Hidle Hlook Hcheck)
          as (w2 & _ & Hr & _ & _ & _ & _ & _ & Hc & _).
        rewrite Hrun in Hr. inversion Hr; subst w2. left. exact Hc. }
  split; [exact Hcases|].
  intros Hnone. destruct Hcases as [Hc | (u & b & _ & _ & Hi & _)]; [exact Hc|].
  congruence.
Qed.

Lemma session_cache_discipline_witness :
  let run := Hook.run Scenario.down (Hook.CallOutfit Sample.top Sample.bottom)
               Sample.page in
  cacheRef (snd run) !! "outfit::t1::b1"
    = Some {| url := "data:image/png;base64,Q09NUA=="; isComposite := true |}
  /\ (ui_generatedImage (snd run) = None -> cacheRef (snd run) = cacheRef Sample.page).
Proof.
  intros run.
  assert (Hr : run = (Returned tt, snd run)) by (vm_compute; reflexivity).
  destruct (session_cache_discipline Scenario.down
              (Hook.CallOutfit Sample.top Sample.bottom) Sample.page (snd run)
              eq_refl Hr) as (_ & Hnone).
  split; [vm_compute; reflexivity | exact Hnone].
Defined.

(* ===================================================================== *)
(** ** Further properties: calls of the hook that cannot succeed *)
(* ===================================================================== *)

Ltac unfold_run H :=
  unfold Hook.run in H; unfold_sync H; simpl in H.

(** X15. The hook does not look at the API key: without one, a call that
    misses the session cache still asks the rate limiter and records a
    call, and only then learns from the generator that the key is
    missing.  Nothing reaches the network or a store.  The nano and the
    transfer mode end with their failure notice and nothing cached; the
    paired mode goes on to the local composer. *)
Theorem missing_key_spends_a_call env c w :
  str_truthy (apiKey env) = false ->
  inFlight w = false ->
  cacheRef w !! Hook.key_of c = None ->
  RateLimiter.allowed (RateLimiter.canMakeCall (date_now env) (rateLimiter w)) = true ->
  exists w' evs,
    Hook.run env c w = (Returned tt, w') /\
    trace w' = trace w ++ created env c ++ [EvCanMakeCall; EvRecordCall]
                 ++ evs ++ released env c /\
    rateLimiter w' = RateLimiter.recordCall (date_now env) (rateLimiter w) /\
    match c with
    | Hook.CallOutfit top bottom =>
        exists rest,
          evs = EvCreateComposite (itemUrl top) (itemUrl bottom) :: rest /\
          (rest = [] \/ rest = [EvConsoleError "Failed to generate outfit:"])
    | Hook.CallNano _ =>
        evs = [EvConsoleError "Failed to generate nano outfit:"] /\
        ui_generatedImage w' = None /\ ui_error w' = Some (failure_notice c) /\
        cacheRef w' = cacheRef w
    | Hook.CallTransfer _ =>
        evs = [EvConsoleError "Failed to transfer outfit:"] /\
        ui_generatedImage w' = None /\ ui_error w' = Some (failure_notice c) /\
        cacheRef w' = cacheRef w
    end.
Proof.
  intros Hkey Hidle Hmiss Hallow.
  destruct (Hook.run env c w) as [r w'] eqn:Hrun.
  destruct c as [top bottom | occasion | f]; simpl in Hmiss;
    unfold_run Hrun; rewrite Hidle in Hrun; simpl in Hrun;
    rewrite Hmiss in Hrun; simpl in Hrun; rewrite Hallow in Hrun; simpl in Hrun;
    unfold_async Hrun;
    unfold generateOutfitInternal, generateNanoOutfitInternal,
      generateOutfitTransferInternal, ret in Hrun;
    rewrite Hkey in Hrun; simpl in Hrun;
    repeat (break_in Hrun; simpl in Hrun);
    inversion Hrun; subst; clear Hrun; simpl.
  all: eexists.
  all: let finish evs :=
         exists evs;
         (split; [reflexivity|]);
         (split; [simpl; rewrite <- ?app_assoc; reflexivity|]);
         (split; [reflexivity|]);
         first [ eexists; split; [reflexivity | auto]
               | repeat split; reflexivity ] in
       first
         [ finish [EvCreateComposite (itemUrl top) (itemUrl bottom)]
         | finish [EvCreateComposite (itemUrl top) (itemUrl bottom);
                   EvConsoleError "Failed to generate outfit:"]
         | finish [EvConsoleError "Failed to generate nano outfit:"]
         | finish [EvConsoleError "Failed to transfer outfit:"] ].
Qed.

Lemma missing_key_spends_a_call_witness :
  let env := with_apiKey "" (Sample.all_well 100000 "QUJD") in
  exists w' evs,
    Hook.run env (Hook.CallNano "a wedding") Sample.page = (Returned tt, w') /\
    trace w' = [EvCanMakeCall; EvRecordCall] ++ evs /\
    evs = [EvConsoleError "Failed to generate nano outfit:"] /\
    RateLimiter.history (rateLimiter w') = [100000].
Proof.
  intros env.
  assert (Hallow : RateLimiter.allowed
                     (RateLimiter.canMakeCall (date_now env) (rateLimiter Sample.page))
                   = true) by (vm_compute; reflexivity).
  destruct (missing_key_spends_a_call env (Hook.CallNano "a wedding") Sample.page
              eq_refl eq_refl eq_refl Hallow)
    as (w' & evs & Hrun & Htr & Hrl & Hevs & _).
  exists w', evs. split; [exact Hrun|].
  split; [rewrite Htr; simpl; rewrite app_nil_r; reflexivity|].
  split; [exact Hevs|]. rewrite Hrl. vm_compute. reflexivity.
Defined.

(** X16. An exception of the generator ends the call with the failure
    notice of its mode, in every mode: no image is shown, nothing is
    cached, and the only event after the generator's own is the logged
    failure (and the release of the object URL).  In particular the
    paired mode does not fall back to the composer then: the fallback is
    taken on a returned failure, not on an exception. *)
Theorem generator_exception_ends_call env c w w0 p wg :
  Hook.start env c w = (w0, Some p) ->
  generate env (request_of env c) w0 = (Thrown, wg) ->
  exists w' logged,
    Hook.run env c w = (Returned tt, w') /\
    trace w' = trace wg ++ EvConsoleError logged :: released env c /\
    ui_error w' = Some (failure_notice c) /\
    ui_generatedImage w' = None /\
    ui_isComposite w' = false /\
    cacheRef w' = cacheRef w /\
    inFlight w' = false.
Proof.
  intros Hs Hgen.
  pose proof (generate_same_hook _ _ _ _ _ Hgen) as Hview.
  unfold hook_view in Hview. injection Hview as _ Hc _ _ _ _ _.
  unfold Hook.run. rewrite Hs.
  destruct c as [top bottom | occasion | f]; simpl in Hs, Hgen;
    unfold_sync Hs; simpl in Hs;
    repeat (break_in Hs; simpl in Hs); inversion Hs; subst; clear Hs;
    simpl;
    unfold Hook.generateOutfit_async, Hook.generateNanoOutfit_async,
      Hook.generateOutfitTransfer_async, Hook.try_finally, try_catch,
      Hook.generateOutfit_try, Hook.generateNanoOutfit_try,
      Hook.generateOutfitTransfer_try, OutfitGenerator.generateOutfit,
      OutfitGenerator.generateNanoOutfit, OutfitGenerator.generateOutfitTransfer,
      mbind, M_bind, bind;
    rewrite Hgen; simpl;
    eexists; eexists; (split; [reflexivity|]); simpl;
    rewrite <- ?app_assoc; repeat split; try reflexivity; exact Hc.
Qed.

Lemma generator_exception_ends_call_witness :
  let env := with_fetch (fun _ => None) Scenario.down in
  let c := Hook.CallOutfit Sample.top Sample.bottom in
  exists w',
    Hook.run env c Sample.page = (Returned tt, w') /\
    ui_error w' = Some "Failed to generate outfit. Please try again." /\
    ui_generatedImage w' = None /\
    filter (fun ev => outside_event ev) (trace w')
      = [EvDbSelect "t1" "b1"; EvFetch "https://x/t1.png";
         EvFetch "https://x/b1.png"; EvFetch "/assets/model.png"].
Proof.
  intros env c.
  pose (started := Hook.start env c Sample.page).
  pose (gen := generate env (request_of env c) (fst started)).
  assert (Hs : Hook.start env c Sample.page
               = (fst started, Some (Hook.PendingOutfit Sample.top Sample.bottom
                                       "outfit::t1::b1")))
    by (vm_compute; reflexivity).
  assert (Hg : generate env (request_of env c) (fst started) = (Thrown, snd gen))
    by (vm_compute; reflexivity).
  destruct (generator_exception_ends_call env c Sample.page _ _ _ Hs Hg)
    as (w' & logged & Hrun & Htr & Herr & Himg & _).
  exists w'. split; [exact Hrun|]. split; [exact Herr|]. split; [exact Himg|].
  assert (Hw : w' = snd (Hook.run env c Sample.page)) by (rewrite Hrun; reflexivity).
  rewrite Hw. vm_compute. reflexivity.
Defined.

(* ===================================================================== *)
(** ** Further properties: what stands behind a shown image *)
(* ===================================================================== *)

(** X17. In the nano and the transfer mode an image is shown only once it
    is on record: when a call that missed the session cache ends showing
    an image, the generator returned a usable URL, the append-only row
    for exactly the URL shown, tagged with the mode, was inserted with
    success, and the URL shown is the generator's own unless that was a
    data URL, in which case it is the public URL of a successful upload. *)
Theorem shown_image_is_recorded env c w w' u evs :
  mode_of c <> 0%nat ->
  inFlight w = false ->
  cacheRef w !! Hook.key_of c = None ->
  Hook.run env c w = (Returned tt, w') ->
  trace w' = trace w ++ evs ->
  ui_generatedImage w' = Some u ->
  In (EvDbInsert u (source_of c)) evs
  /\ db_insert env u (source_of c) = true
  /\ exists w0 p res wg g,
       Hook.start env c w = (w0, Some p) /\
       generate env (request_of env c) w0 = (Returned res, wg) /\
       Hook.usable_url res = Some g /\
       (if String.prefix "data:" g
        then exists name path,
               In (EvStorageUpload "generated-outfits" name) evs /\
               storage_upload env "generated-outfits" name = Some path /\
               u = storage_publicUrl env "generated-outfits" path
        else u = g).
Proof.
  intros Hmode Hidle Hmiss Hrun Htr Hshow.
  destruct c as [top bottom | occasion | f]; [exfalso; apply Hmode; reflexivity | |].
  all: simpl in Hmiss; unfold_run Hrun; rewrite Hidle in Hrun; simpl in Hrun;
       rewrite Hmiss in Hrun; simpl in Hrun.
  all: destruct (RateLimiter.allowed _) eqn:Hallow in Hrun; simpl in Hrun;
       [| inversion Hrun; subst; discriminate Hshow ].
  all: unfold_async Hrun; simpl in Hrun;
       repeat (break_in Hrun; simpl in Hrun);
       inversion Hrun; subst; clear Hrun; simpl in Hshow; try discriminate Hshow.
  all: injection Hshow as <-.
  all: match goal with
       | H : _ = (Returned _, ?wg) |- _ =>
           let Hg := fresh "Hg" in
           pose proof H as Hg;
           first [ apply (generate_same_hook env (ReqNano _ _)) in Hg
                 | apply (generate_same_hook env (ReqTransfer _ _)) in Hg ];
           assert (Hext : exists pre, trace wg = trace w ++ pre)
       end.
  all: try (match goal with
            | H : ?m ?w0 = (Returned _, ?wg) |- exists pre, trace ?wg = _ =>
                first
                  [ destruct (generateNanoOutfitInternal_spec env
                                DEFAULT_BODY_PATH (OutfitGenerator.nanoPrompt occasion) w0)
                      as (r0 & wg0 & evs0 & E & _ & _ & Ht & _)
                  | destruct (generateOutfitTransferInternal_spec env
                                (createObjectURL env f) DEFAULT_BODY_PATH w0)
                      as (r0 & wg0 & evs0 & E & _ & _ & Ht & _) ];
                rewrite H in E; inversion E; subst;
                simpl in Ht; rewrite <- ?app_assoc in Ht; eexists; exact Ht
            end).
  all: destruct Hext as (pre & Hpre); simpl in Htr; rewrite Hpre in Htr;
       rewrite <- ?app_assoc in Htr; apply app_inv_head in Htr; subst evs.
  all: (split; [rewrite !in_app_iff; simpl; auto 10|]).
  all: (split; [assumption|]).
  all: do 5 eexists.
  all: (split; [unfold Hook.start, Hook.generateNanoOutfit_sync,
                  Hook.generateOutfitTransfer_sync, Hook.canGenerate;
                rewrite Hidle; simpl; rewrite Hmiss; simpl; rewrite Hallow;
                reflexivity|]).
  all: (split; [simpl; eassumption|]).
  all: (split; [eassumption|]).
  all: match goal with
       | H : String.prefix "data:" _ = _ |- _ => rewrite H
       end.
  all: first [ reflexivity
             | do 2 eexists; split; [|split; [eassumption | reflexivity]];
               rewrite !in_app_iff; simpl; auto 10 ].
Qed.

Lemma shown_image_is_recorded_witness :
  let env := Sample.all_well 100000 "QUJD" in
  let run := Hook.run env (Hook.CallNano "a wedding") Sample.page in
  let u := "https://store/generated-outfits/nano_100000.png" in
  ui_generatedImage (snd run) = Some u
  /\ In (EvDbInsert u "nano") (trace (snd run))
  /\ db_insert env u "nano" = true.
Proof.
  intros env run u.
  assert (Hr : run = (Returned tt, snd run)) by (vm_compute; reflexivity).
  assert (Hshow : ui_generatedImage (snd run) = Some u) by (vm_compute; reflexivity).
  destruct (shown_image_is_recorded env (Hook.CallNano "a wedding") Sample.page
              (snd run) u (trace (snd run)))
    as (Hin & Hok & _);
    [discriminate | reflexivity | reflexivity | exact Hr | reflexivity | exact Hshow |].
  split; [exact Hshow|]. split; [exact Hin | exact Hok].
Defined.

(* ===================================================================== *)
(** ** Further properties: the select button *)
(* ===================================================================== *)

Lemma run_extends env c w w' :
  Hook.run env c w = (Returned tt, w') -> exists evs, trace w' = trace w ++ evs.
Proof.
  intros Hrun. destruct (inFlight w) eqn:Hidle.
  - unfold Hook.run in Hrun. rewrite (start_in_flight env c w Hidle) in Hrun.
    injection Hrun as <-. eexists; reflexivity.
  - destruct (cacheRef w !! Hook.key_of c) as [e|] eqn:Hlook.
    + destruct (run_hit env c w e Hidle Hlook)
        as (w2 & _ & Hr & _ & _ & _ & _ & _ & _ & Ht).
      rewrite Hrun in Hr. injection Hr as ->. eauto.
    + destruct (RateLimiter.allowed
                  (RateLimiter.canMakeCall (date_now env) (rateLimiter w))) eqn:Hcheck.
      * destruct (run_allowed env c w Hidle Hlook Hcheck)
          as (w0 & p & w1 & evs & _ & _ & Hr & _ & _ & Ht0 & _ & Ht1 & _ & Htf).
        rewrite Hrun in Hr. injection Hr as ->.
        rewrite Htf, Ht1, Ht0, <- !app_assoc. eauto.
      * destruct (run_denied env c w Hidle Hlook Hcheck)
          as (w2 & _ & Hr & _ & _ & _ & _ & _ & _ & Ht).
        rewrite Hrun in Hr. injection Hr as ->. eauto.
Qed.

(** X18. The select handler in front of the hook.  It always returns.
    Without a configured key (none, or the placeholder) it does nothing
    at all.  With one, it asks the rate limiter first: on a denial it only
    logs a warning, so that even a pair held in the session cache is not
    shown and no error appears; with a selection index out of range it
    stops after the check; otherwise it hands the pair to the hook, whose
    outcome is the handler's. *)
Theorem handleSelect_gate env topsList bottomsList previewTop previewBottom w :
  let check := RateLimiter.canMakeCall (date_now env) (rateLimiter w) in
  exists w' evs,
    App.handleSelect env topsList bottomsList previewTop previewBottom w
      = (Returned tt, w') /\
    trace w' = trace w ++ evs /\
    (App.hasApiKey env = false -> w' = w) /\
    ((apiKey env = "" \/ apiKey env = App.PLACEHOLDER_KEY) -> App.hasApiKey env = false) /\
    (App.hasApiKey env = true -> RateLimiter.allowed check = false ->
       evs = [EvCanMakeCall; EvConsoleWarn "Rate limit check failed:"] /\
       hook_view w' = hook_view w /\ window_caches w' = window_caches w) /\
    (App.hasApiKey env = true -> RateLimiter.allowed check = true ->
       (topsList !! previewTop = None \/ bottomsList !! previewBottom = None) ->
       evs = [EvCanMakeCall] /\
       hook_view w' = hook_view w /\ window_caches w' = window_caches w) /\
    (forall topItem bottomItem,
       App.hasApiKey env = true -> RateLimiter.allowed check = true ->
       topsList !! previewTop = Some topItem ->
       bottomsList !! previewBottom = Some bottomItem ->
       Hook.generateOutfit env topItem bottomItem (log EvCanMakeCall w)
         = (Returned tt, w') /\
       exists rest, evs = EvCanMakeCall :: rest).
Proof.
  intros check. unfold App.handleSelect, Hook.canGenerate.
  assert (Hplace : (apiKey env = "" \/ apiKey env = App.PLACEHOLDER_KEY) ->
                   App.hasApiKey env = false).
  { unfold App.hasApiKey. intros [-> | ->]; reflexivity. }
  destruct (App.hasApiKey env) eqn:Hkey; simpl.
  - fold check. destruct (RateLimiter.allowed check) eqn:Hallow; simpl.
    + destruct (topsList !! previewTop) as [topItem|] eqn:Htop;
        [destruct (bottomsList !! previewBottom) as [bottomItem|] eqn:Hbottom|].
      * destruct (run_total env (Hook.CallOutfit topItem bottomItem)
                    (log EvCanMakeCall w)) as (w' & Hrun).
        unfold Hook.generateOutfit. rewrite Hrun.
        destruct (run_extends env _ _ _ Hrun) as (rest & Hrest). simpl in Hrest.
        rewrite <- app_assoc in Hrest. simpl in Hrest.
        exists w', (EvCanMakeCall :: rest).
        split; [reflexivity|]. split; [exact Hrest|].
        split; [discriminate|]. split; [exact Hplace|].
        split; [discriminate|].
        split; [intros _ _ [?|?]; congruence|].
        intros t b _ _ Ht Hb. simplify_eq. split; [exact Hrun | eauto].
      * exists (log EvCanMakeCall w), [EvCanMakeCall].
        split; [reflexivity|]. split; [reflexivity|].
        split; [discriminate|]. split; [exact Hplace|].
        split; [discriminate|].
        split; [intros _ _ _; repeat split; reflexivity|].
        intros; congruence.
      * exists (log EvCanMakeCall w), [EvCanMakeCall].
        split; [reflexivity|]. split; [reflexivity|].
        split; [discriminate|]. split; [exact Hplace|].
        split; [discriminate|].
        split; [intros _ _ _; repeat split; reflexivity|].
        intros; congruence.
    + exists (log (EvConsoleWarn "Rate limit check failed:") (log EvCanMakeCall w)),
        [EvCanMakeCall; EvConsoleWarn "Rate limit check failed:"].
      split; [reflexivity|].
      split; [simpl; rewrite <- app_assoc; reflexivity|].
      split; [discriminate|]. split; [exact Hplace|].
      split; [intros _ _; repeat split; reflexivity|].
      split; [discriminate|].
      intros; discriminate.
  - exists w, []. rewrite app_nil_r.
    split; [reflexivity|]. split; [reflexivity|].
    split; [reflexivity|]. split; [exact Hplace|].
    split; [discriminate|]. split; [discriminate|].
    intros; discriminate.
Qed.

Lemma handleSelect_gate_witness :
  let env := with_apiKey App.PLACEHOLDER_KEY (Sample.all_well 100000 "QUJD") in
  App.handleSelect env [Sample.top] [Sample.bottom] 0 0 Sample.page
    = (Returned tt, Sample.page)
  /\ exists w', Hook.generateOutfit env Sample.top Sample.bottom Sample.page
                  = (Returned tt, w')
                /\ remote_calls (trace w') = [0%nat].
Proof.
  intros env.
  destruct (handleSelect_gate env [Sample.top] [Sample.bottom] 0 0 Sample.page)
    as (w' & evs & Hrun & _ & Hnone & Hplace & _).
  split.
  - rewrite Hrun. f_equal. apply Hnone, Hplace. right. reflexivity.
  - eexists. split; vm_compute; reflexivity.
Defined.

(* ===================================================================== *)
(** ** Further properties: the file names of clothing images *)
(* ===================================================================== *)

Lemma append_nil_r (s : string) : s +:+ "" = s.
Proof.
  induction s as [|c s IH]; [reflexivity|].
  change (String c s +:+ "") with (String c (s +:+ "")). congruence.
Qed.

Lemma append_assoc (a b c : string) : (a +:+ b) +:+ c = a +:+ (b +:+ c).
Proof.
  induction a as [|x a IH]; [reflexivity|].
  change ((String x a +:+ b) +:+ c) with (String x ((a +:+ b) +:+ c)).
  change (String x a +:+ (b +:+ c)) with (String x (a +:+ (b +:+ c))).
  congruence.
Qed.

Lemma has_char_app (c : ascii) (a b : string) :
  has_char c (a +:+ b) = has_char c a || has_char c b.
Proof.
  induction a as [|x a IH]; [reflexivity|].
  change (String x a +:+ b) with (String x (a +:+ b)).
  cbn [has_char]. rewrite IH. apply orb_assoc.
Qed.

Lemma split_aux_nonempty (c : ascii) (s cur : string) : Items.split_aux c s cur <> [].
Proof.
  revert cur. induction s as [|x s IH]; intros cur; cbn [Items.split_aux].
  - discriminate.
  - destruct (Ascii.eqb x c); [discriminate | apply IH].
Qed.

Lemma last_cons_nonempty {A} (x : A) (l : list A) (d : A) :
  l <> [] -> List.last (x :: l) d = List.last l d.
Proof. destruct l; [congruence | reflexivity]. Qed.

(** Without the separator there is one piece. *)
Lemma split_aux_free (c : ascii) (s cur : string) :
  has_char c s = false -> Items.split_aux c s cur = [cur +:+ s].
Proof.
  revert cur. induction s as [|x s IH]; intros cur H.
  - cbn [Items.split_aux]. rewrite append_nil_r. reflexivity.
  - cbn [has_char] in H. apply orb_false_iff in H as [Hx Hs].
    cbn [Items.split_aux]. rewrite Hx. rewrite (IH _ Hs).
    rewrite append_assoc. reflexivity.
Qed.

(** The last piece is the last piece of what follows any separator. *)
Lemma last_split_aux_after (c : ascii) (a b cur d : string) :
  List.last (Items.split_aux c (a +:+ String c b) cur) d
  = List.last (Items.split_aux c b "") d.
Proof.
  revert cur. induction a as [|x a IH]; intros cur.
  - change ("" +:+ String c b) with (String c b).
    cbn [Items.split_aux]. rewrite Ascii.eqb_refl.
    apply last_cons_nonempty, split_aux_nonempty.
  - change (String x a +:+ String c b) with (String x (a +:+ String c b)).
    cbn [Items.split_aux]. destruct (Ascii.eqb x c).
    + rewrite last_cons_nonempty by apply split_aux_nonempty. apply IH.
    + apply IH.
Qed.

(** No piece holds the separator, and a character that is neither in the
    text nor in the piece begun is in no piece. *)
Lemma split_aux_pieces (c x : ascii) (s cur : string) :
  (x = c \/ has_char x s = false) -> has_char x cur = false ->
  Forall (fun piece => has_char x piece = false) (Items.split_aux c s cur).
Proof.
  revert cur. induction s as [|y s IH]; intros cur Hs Hcur; cbn [Items.split_aux].
  - constructor; [exact Hcur | constructor].
  - destruct (Ascii.eqb y c) eqn:Hy.
    + constructor; [exact Hcur|]. apply IH; [|reflexivity].
      destruct Hs as [-> | Hs]; [left; reflexivity|].
      right. cbn [has_char] in Hs. apply orb_false_iff in Hs as [_ Hs]. exact Hs.
    + apply IH.
      * destruct Hs as [-> | Hs]; [left; reflexivity|].
        right. cbn [has_char] in Hs. apply orb_false_iff in Hs as [_ Hs]. exact Hs.
      * rewrite has_char_app, Hcur. cbn [has_char]. rewrite orb_false_r. simpl.
        destruct Hs as [-> | Hs]; [exact Hy|].
        cbn [has_char] in Hs. apply orb_false_iff in Hs as [Hs _]. exact Hs.
Qed.

Lemma last_Forall {A} (P : A -> Prop) (l : list A) (d : A) :
  l <> [] -> Forall P l -> P (List.last l d).
Proof.
  induction l as [|x l IH]; [congruence|]. intros _ H.
  inversion H as [|? ? Hx Hl]; subst. destruct l as [|y l]; [exact Hx|].
  apply IH; [discriminate | exact Hl].
Qed.

Lemma uint_text_digits (c : ascii) (d : Decimal.uint) :
  is_digit c = false -> has_char c (NilEmpty.string_of_uint d) = false.
Proof.
  intros Hc. induction d; cbn [NilEmpty.string_of_uint has_char]; [reflexivity| ..];
    rewrite IHd, orb_false_r; apply Ascii.eqb_neq; intros <-; discriminate Hc.
Qed.

Lemma Z_to_string_chars (c : ascii) (z : Z) :
  is_digit c = false -> c <> "-"%char -> has_char c (Z_to_string z) = false.
Proof.
  intros Hc Hm. unfold Z_to_string.
  destruct (Z.to_int z) as [d|d]; cbn [NilEmpty.string_of_int has_char].
  - apply uint_text_digits, Hc.
  - rewrite (uint_text_digits c d Hc), orb_false_r.
    apply Ascii.eqb_neq. congruence.
Qed.

Lemma fileName_slash (category : Items.Category) (timestamp : Z) (name : string) :
  has_char "/" (Items.fileName category timestamp name)
  = has_char "/" (Items.fileExtension name).
Proof.
  unfold Items.fileName. rewrite !has_char_app.
  rewrite (Z_to_string_chars "/" timestamp) by (reflexivity || discriminate).
  destruct category; reflexivity.
Qed.

(** X19. The name a clothing image is uploaded under and the name the
    delete operation recovers from its public URL.  The extension taken
    from the chosen file never holds a dot, and is the whole name when the
    name has none.  For a public URL that ends in a slash and the
    uploaded name, the recovered name is the uploaded one exactly when the
    extension holds no slash, as for every file name without one. *)
Theorem item_file_name_round_trip
    (category : Items.Category) (timestamp : Z) (name base : string) :
  has_char "." (Items.fileExtension name) = false
  /\ (has_char "." name = false -> Items.fileExtension name = name)
  /\ (Items.fileNameOfUrl (base +:+ "/" +:+ Items.fileName category timestamp name)
        = Items.fileName category timestamp name
      <-> has_char "/" (Items.fileExtension name) = false)
  /\ (has_char "/" name = false -> has_char "/" (Items.fileExtension name) = false).
Proof.
  split; [|split; [|split]].
  - unfold Items.fileExtension, Items.split.
    apply (last_Forall (fun piece => has_char "." piece = false));
      [apply split_aux_nonempty|].
    apply split_aux_pieces; [left; reflexivity | reflexivity].
  - intros H. unfold Items.fileExtension, Items.split.
    rewrite (split_aux_free _ _ _ H). reflexivity.
  - unfold Items.fileNameOfUrl, Items.split.
    change (base +:+ "/" +:+ Items.fileName category timestamp name)
      with (base +:+ String "/" (Items.fileName category timestamp name)).
    rewrite last_split_aux_after. split.
    + intros Heq. rewrite <- fileName_slash with (category := category)
                                                  (timestamp := timestamp).
      rewrite <- Heq.
      apply (last_Forall (fun piece => has_char "/" piece = false));
        [apply split_aux_nonempty|].
      apply split_aux_pieces; [left; reflexivity | reflexivity].
    + intros H. rewrite split_aux_free; [reflexivity|].
      rewrite fileName_slash. exact H.
  - intros H. unfold Items.fileExtension, Items.split.
    apply (last_Forall (fun piece => has_char "/" piece = false));
      [apply split_aux_nonempty|].
    apply split_aux_pieces; [right; exact H | reflexivity].
Qed.

Lemma item_file_name_round_trip_witness :
  Items.fileName Items.tops 1700000000000 "shirt.final.PNG" = "tops_1700000000000.PNG"
  /\ Items.fileNameOfUrl
       ("https://x.supabase.co/storage/v1/object/public/clothing-images"
          +:+ "/" +:+ Items.fileName Items.tops 1700000000000 "shirt.final.PNG")
     = Items.fileName Items.tops 1700000000000 "shirt.final.PNG"
  /\ Items.fileExtension "shirt" = "shirt".
Proof.
  destruct (item_file_name_round_trip Items.tops 1700000000000 "shirt.final.PNG"
              "https://x.supabase.co/storage/v1/object/public/clothing-images")
    as (_ & _ & Hround & Hslash).
  destruct (item_file_name_round_trip Items.tops 0 "shirt" "") as (_ & Hwhole & _).
  split; [vm_compute; reflexivity|].
  split; [apply Hround, Hslash; reflexivity | apply Hwhole; reflexivity].
Defined.
